(** * Image addition kernels of imgadd.c

    A shallow embedding of the six pixel-addition kernels of [imgadd.c]
    (scalar, SSE and AVX variants of the saturating 8-bit add and of the
    widening 16-bit add) over a flat byte-addressed memory, together with
    the properties of the kernels.

    Conventions of the embedding:
    - [unsigned int] is a [Z] reduced modulo [2^32] after every operation;
      [unsigned char] and [unsigned short] conversions reduce modulo [2^8]
      and [2^16];
    - a pointer is an address in a flat memory of bytes, and [P + i] on a
      pointer to elements of [esz] bytes is the address [P + esz * i];
    - an access to an address that is not allocated is a fault;
    - every load and store is recorded in an access log;
    - a [__m128i] / [__m256i] register is the list of its 16 / 32 bytes,
      lowest byte first (x86 is little-endian), and the intrinsics follow
      the Intel Intrinsics Guide;
    - loops run on fuel: running out of fuel is reported as [Timeout], apart
      from a fault. *)

From Stdlib Require Import ZArith List Lia Bool.
Import ListNotations.
Open Scope Z_scope.

Set Implicit Arguments.

(** ** Machine integers *)

Definition uint (z : Z) : Z := z mod 2 ^ 32.
Definition uchar (z : Z) : Z := z mod 2 ^ 8.
Definition ushort (z : Z) : Z := z mod 2 ^ 16.

Definition is_byte (z : Z) : bool := (0 <=? z) && (z <? 256).

(** Little-endian byte representation of an integer. *)
Fixpoint le_encode (n : nat) (v : Z) : list Z :=
  match n with
  | O => []
  | S k => v mod 256 :: le_encode k (v / 256)
  end.

Fixpoint le_decode (l : list Z) : Z :=
  match l with
  | [] => 0
  | b :: r => b + 256 * le_decode r
  end.

(** ** Lists *)

Fixpoint map2 (A B C : Type) (f : A -> B -> C) (l : list A) (l' : list B) : list C :=
  match l, l' with
  | x :: r, y :: r' => f x y :: map2 f r r'
  | _, _ => []
  end.

Fixpoint interleave (A : Type) (l l' : list A) : list A :=
  match l, l' with
  | x :: r, y :: r' => x :: y :: interleave r r'
  | _, _ => []
  end.

(** ** Memory, access log and the monad of the kernels *)

Definition addr := Z.
Definition memory := addr -> option Z.

Inductive event : Type :=
| Load (p : addr) (n : nat)
| Store (p : addr) (n : nat).

Record state : Type := mkState { mem : memory; log : list event }.

Inductive result (A : Type) : Type :=
| Ok (a : A)
| Fault
| Abort
| Timeout.
Arguments Fault {A}.
Arguments Abort {A}.
Arguments Timeout {A}.

Definition M (A : Type) : Type := state -> result (A * state).

Definition ret (A : Type) (a : A) : M A := fun s => Ok (a, s).

Definition bind (A B : Type) (m : M A) (k : A -> M B) : M B :=
  fun s =>
    match m s with
    | Ok (a, s') => k a s'
    | Fault => Fault
    | Abort => Abort
    | Timeout => Timeout
    end.

Notation "x <- m ;; k" := (bind m (fun x => k))
  (at level 61, m at next level, right associativity).
Notation "m ;;; k" := (bind m (fun _ => k))
  (at level 61, right associativity).

Definition upd (m : memory) (p : addr) (v : Z) : memory :=
  fun a => if a =? p then Some v else m a.

Fixpoint read_bytes (m : memory) (p : addr) (n : nat) : option (list Z) :=
  match n with
  | O => Some []
  | S k =>
      match m p, read_bytes m (p + 1) k with
      | Some v, Some l => Some (v :: l)
      | _, _ => None
      end
  end.

Fixpoint write_bytes (m : memory) (p : addr) (l : list Z) : memory :=
  match l with
  | [] => m
  | v :: r => write_bytes (upd m p v) (p + 1) r
  end.

Definition allocated (m : memory) (p : addr) (n : nat) : bool :=
  match read_bytes m p n with
  | Some _ => true
  | None => false
  end.

(** [n] bytes read at [p]; a fault when one of them is not allocated. *)
Definition load (n : nat) (p : addr) : M (list Z) :=
  fun s =>
    match read_bytes (mem s) p n with
    | Some l => Ok (l, mkState (mem s) (Load p n :: log s))
    | None => Fault
    end.

(** The bytes [l] written at [p]; a fault when one of them is not allocated. *)
Definition store (p : addr) (l : list Z) : M unit :=
  fun s =>
    if allocated (mem s) p (length l)
    then Ok (tt, mkState (write_bytes (mem s) p l) (Store p (length l) :: log s))
    else Fault.

(** [P[i]] read through [const unsigned char *P]. *)
Definition load_uchar (p : addr) : M Z :=
  l <- load 1 p ;; ret (le_decode l).

(** [P[i] = v] through [unsigned char *P]. *)
Definition store_uchar (p : addr) (v : Z) : M unit :=
  store p (le_encode 1 (uchar v)).

(** [P[i] = v] through [unsigned short *P]. *)
Definition store_ushort (p : addr) (v : Z) : M unit :=
  store p (le_encode 2 (ushort v)).

(** [assert(P)] on a pointer: the program aborts on a null pointer. *)
Definition assert_ptr (p : addr) : M unit :=
  fun s => if p =? 0 then Abort else Ok (tt, s).

(** [for (...; cond; ...) body], the step being the end of [body];
    [L] holds the variables the loop changes. *)
Fixpoint for_loop (L : Type) (fuel : nat) (cond : L -> bool) (body : L -> M L)
    (l : L) : M L :=
  match fuel with
  | O => fun _ => Timeout
  | S f => if cond l then l' <- body l ;; for_loop f cond body l' else ret l
  end.

(** ** Vector registers and intrinsics *)

Definition __m128i := list Z.
Definition __m256i := list Z.

Definition saturate_u8 (z : Z) : Z := Z.min z 255.
Definition saturate_u16 (z : Z) : Z := Z.min z 65535.

(** The 16-bit lanes of a register, and back. *)
Fixpoint epu16_lanes (v : list Z) : list Z :=
  match v with
  | lo :: hi :: r => le_decode [lo; hi] :: epu16_lanes r
  | _ => []
  end.

Definition epu16_bytes (l : list Z) : list Z :=
  flat_map (le_encode 2) l.

Definition _mm_setzero_si128 : __m128i := repeat 0 16%nat.
Definition _mm_loadu_si128 (p : addr) : M __m128i := load 16 p.
Definition _mm_storeu_si128 (p : addr) (v : __m128i) : M unit := store p (firstn 16 v).

Definition _mm_adds_epu8 (a b : __m128i) : __m128i :=
  map2 (fun x y => saturate_u8 (x + y)) a b.

Definition _mm_adds_epu16 (a b : __m128i) : __m128i :=
  epu16_bytes (map2 (fun x y => saturate_u16 (x + y)) (epu16_lanes a) (epu16_lanes b)).

Definition _mm_unpacklo_epi8 (a b : __m128i) : __m128i :=
  interleave (firstn 8 a) (firstn 8 b).

Definition _mm_unpackhi_epi8 (a b : __m128i) : __m128i :=
  interleave (firstn 8 (skipn 8 a)) (firstn 8 (skipn 8 b)).

Definition _mm256_setzero_si256 : __m256i := repeat 0 32%nat.
Definition _mm256_loadu_si256 (p : addr) : M __m256i := load 32 p.
Definition _mm256_storeu_si256 (p : addr) (v : __m256i) : M unit := store p (firstn 32 v).

Definition _mm256_adds_epu8 (a b : __m256i) : __m256i :=
  map2 (fun x y => saturate_u8 (x + y)) a b.

Definition _mm256_adds_epu16 (a b : __m256i) : __m256i :=
  epu16_bytes (map2 (fun x y => saturate_u16 (x + y)) (epu16_lanes a) (epu16_lanes b)).

(** The 256-bit unpack instructions interleave within each 128-bit half of
    the register: the low (high) 8 bytes of the lower half, then the low
    (high) 8 bytes of the upper half. *)
Definition _mm256_unpacklo_epi8 (a b : __m256i) : __m256i :=
  _mm_unpacklo_epi8 (firstn 16 a) (firstn 16 b)
    ++ _mm_unpacklo_epi8 (skipn 16 a) (skipn 16 b).

Definition _mm256_unpackhi_epi8 (a b : __m256i) : __m256i :=
  _mm_unpackhi_epi8 (firstn 16 a) (firstn 16 b)
    ++ _mm_unpackhi_epi8 (skipn 16 a) (skipn 16 b).

(** ** The kernels *)

(** Size in bytes of [unsigned short]. *)
Definition sizeof_ushort : Z := 2.

Definition img_add_kr_nsu (fuel : nat) (A : addr) (width height : Z) (B C : addr)
    : M unit :=
  let npixels := uint (width * height) in
  for_loop fuel (fun i => i <? npixels)
    (fun i =>
       a <- load_uchar (A + i) ;;
       b <- load_uchar (B + i) ;;
       let sum := uint (a + b) in
       let sum := if 255 <? sum then 255 else sum in
       store_uchar (C + i) sum ;;;
       ret (uint (i + 1)))
    0 ;;;
  ret tt.

Definition img_add_nsu (fuel : nat) (A : addr) (width height : Z) (B C : addr)
    : M unit :=
  let npixels := uint (width * height) in
  for_loop fuel (fun i => i <? npixels)
    (fun i =>
       a <- load_uchar (A + i) ;;
       b <- load_uchar (B + i) ;;
       store_ushort (C + sizeof_ushort * i) (a + b) ;;;
       ret (uint (i + 1)))
    0 ;;;
  ret tt.

Definition img_add_kr_sse (fuel : nat) (A : addr) (width height : Z) (B C : addr)
    : M unit :=
  let ppl := 16 in
  let npixels := uint (width * height) in
  for_loop fuel (fun i => i <? npixels)
    (fun i =>
       X <- _mm_loadu_si128 (A + i) ;;
       Y <- _mm_loadu_si128 (B + i) ;;
       let S := _mm_adds_epu8 X Y in
       _mm_storeu_si128 (C + i) S ;;;
       ret (uint (i + ppl)))
    0 ;;;
  ret tt.

Definition img_add_kr_avx (fuel : nat) (A : addr) (width height : Z) (B C : addr)
    : M unit :=
  let ppl := 32 in
  let npixels := uint (width * height) in
  for_loop fuel (fun i => i <? npixels)
    (fun i =>
       X <- _mm256_loadu_si256 (A + i) ;;
       Y <- _mm256_loadu_si256 (B + i) ;;
       let S := _mm256_adds_epu8 X Y in
       _mm256_storeu_si256 (C + i) S ;;;
       ret (uint (i + ppl)))
    0 ;;;
  ret tt.

Definition img_add_sse (fuel : nat) (A : addr) (width height : Z) (B C : addr)
    : M unit :=
  let ppl := 16 in
  let pps := 8 in
  let j := 0 in
  let npixels := uint (width * height) in
  let Zero := _mm_setzero_si128 in
  for_loop fuel (fun '(i, j) => i <? npixels)
    (fun '(i, j) =>
       X <- _mm_loadu_si128 (A + i) ;;
       let XL := _mm_unpacklo_epi8 X Zero in
       let XH := _mm_unpackhi_epi8 X Zero in
       Y <- _mm_loadu_si128 (B + i) ;;
       let YL := _mm_unpacklo_epi8 Y Zero in
       let YH := _mm_unpackhi_epi8 Y Zero in
       let SL := _mm_adds_epu16 XL YL in
       let SH := _mm_adds_epu16 XH YH in
       _mm_storeu_si128 (C + sizeof_ushort * j) SL ;;;
       let j := uint (j + pps) in
       _mm_storeu_si128 (C + sizeof_ushort * j) SH ;;;
       let j := uint (j + pps) in
       ret (uint (i + ppl), j))
    (0, j) ;;;
  ret tt.

Definition img_add_avx (fuel : nat) (A : addr) (width height : Z) (B C : addr)
    : M unit :=
  let ppl := 32 in
  let pps := 16 in
  let j := 0 in
  let npixels := uint (width * height) in
  let Zero := _mm256_setzero_si256 in
  for_loop fuel (fun '(i, j) => i <? npixels)
    (fun '(i, j) =>
       X <- _mm256_loadu_si256 (A + i) ;;
       let XL := _mm256_unpacklo_epi8 X Zero in
       let XH := _mm256_unpackhi_epi8 X Zero in
       Y <- _mm256_loadu_si256 (B + i) ;;
       let YL := _mm256_unpacklo_epi8 Y Zero in
       let YH := _mm256_unpackhi_epi8 Y Zero in
       let SL := _mm256_adds_epu16 XL YL in
       let SH := _mm256_adds_epu16 XH YH in
       _mm256_storeu_si256 (C + sizeof_ushort * j) SL ;;;
       let j := uint (j + pps) in
       _mm256_storeu_si256 (C + sizeof_ushort * j) SH ;;;
       let j := uint (j + pps) in
       ret (uint (i + ppl), j))
    (0, j) ;;;
  ret tt.

(** The build-time choice of [img_add_kr] and [img_add]: [__WIN_SSE__] is
    tested first, then [__WIN_AVX__]. *)
Inductive strategy : Type := WIN_SSE | WIN_AVX | NSU.

Definition img_add_kr (st : strategy) (fuel : nat) (A : addr) (width height : Z)
    (B C : addr) : M unit :=
  assert_ptr A ;;;
  assert_ptr B ;;;
  assert_ptr C ;;;
  match st with
  | WIN_SSE => img_add_kr_sse fuel A width height B C
  | WIN_AVX => img_add_kr_avx fuel A width height B C
  | NSU => img_add_kr_nsu fuel A width height B C
  end.

Definition img_add (st : strategy) (fuel : nat) (A : addr) (width height : Z)
    (B C : addr) : M unit :=
  assert_ptr A ;;;
  assert_ptr B ;;;
  assert_ptr C ;;;
  match st with
  | WIN_SSE => img_add_sse fuel A width height B C
  | WIN_AVX => img_add_avx fuel A width height B C
  | NSU => img_add_nsu fuel A width height B C
  end.

(** The two operations, [img_add_kr] that keeps the gray range and
    [img_add] that widens to 16 bits, and the table of their strategies. *)
Inductive kernel : Type := KeepRange | Widening.

Definition kernel_fn (k : kernel) (st : strategy)
    : nat -> addr -> Z -> Z -> addr -> addr -> M unit :=
  match k, st with
  | KeepRange, WIN_SSE => img_add_kr_sse
  | KeepRange, WIN_AVX => img_add_kr_avx
  | KeepRange, NSU => img_add_kr_nsu
  | Widening, WIN_SSE => img_add_sse
  | Widening, WIN_AVX => img_add_avx
  | Widening, NSU => img_add_nsu
  end.

(** The entry point of a kernel. *)
Definition entry (k : kernel)
    : strategy -> nat -> addr -> Z -> Z -> addr -> addr -> M unit :=
  match k with
  | KeepRange => img_add_kr
  | Widening => img_add
  end.

(** ** Building and observing memories *)

Definition empty_mem : memory := fun _ => None.

(** [m] extended with a buffer at [p] that holds the bytes [l]. *)
Definition alloc_bytes (m : memory) (p : addr) (l : list Z) : memory :=
  write_bytes m p l.

(** [n] elements of an [unsigned short] array at [p]. *)
Definition read_ushorts (m : memory) (p : addr) (n : nat) : option (list Z) :=
  option_map epu16_lanes (read_bytes m p (2 * n)).

(** Two memories with the same contents. *)
Definition mem_eq (m m' : memory) : Prop := forall a, m a = m' a.

(** The byte ranges [p, p + n) and [q, q + k) do not meet. *)
Definition disjoint (p n q k : Z) : bool := (p + n <=? q) || (q + k <=? p).

(** ** The expected results

    The bytes of the output pixels computed from the inputs [la] and [lb],
    [px a b] being the bytes of one output pixel. *)
Definition pixels (px : Z -> Z -> list Z) (la lb : list Z) : list Z :=
  concat (map2 px la lb).

(** One output pixel as the operations are specified: [min(a + b, 255)] in
    one byte for the saturating add, [a + b] in the two bytes of a
    little-endian [unsigned short] for the widening add. *)
Definition px_kr (a b : Z) : list Z := [Z.min (a + b) 255].
Definition px_add (a b : Z) : list Z := le_encode 2 (a + b).

(** Size in bytes of an output element, and the output pixel, of a kernel. *)
Definition elem_size (k : kernel) : nat :=
  match k with
  | KeepRange => 1
  | Widening => 2
  end.

Definition pixel (k : kernel) : Z -> Z -> list Z :=
  match k with
  | KeepRange => px_kr
  | Widening => px_add
  end.

(** The pixels per iteration of a strategy. *)
Definition lanes (st : strategy) : Z :=
  match st with
  | WIN_SSE => 16
  | WIN_AVX => 32
  | NSU => 1
  end.

(** A memory with three buffers: [la] at [4096], [lb] at [8192] and [nc]
    zeroed bytes at [12288]. *)
Definition example_mem (la lb : list Z) (nc : nat) : memory :=
  alloc_bytes (alloc_bytes (alloc_bytes empty_mem 4096 la) 8192 lb)
    12288 (repeat 0 nc).

Definition example_state (la lb : list Z) (nc : nat) : state :=
  mkState (example_mem la lb nc) [].

(** The bytes [0, 1, ..., n - 1]. *)
Definition ramp (n : nat) : list Z := map Z.of_nat (seq 0 n).

(** The order in which [img_add_avx] leaves the sums of 32 pixels: the
    pixels 0..7, 16..23, 8..15 and 24..31. *)
Definition avx_order : list Z :=
  [0; 1; 2; 3; 4; 5; 6; 7; 16; 17; 18; 19; 20; 21; 22; 23;
   8; 9; 10; 11; 12; 13; 14; 15; 24; 25; 26; 27; 28; 29; 30; 31].

(** A block of 32 pixels in that order, and [K] blocks of an image. *)
Definition avx_perm (x : list Z) : list Z :=
  firstn 8 x ++ firstn 8 (skipn 16 x) ++ firstn 8 (skipn 8 x) ++ firstn 8 (skipn 24 x).

Fixpoint avx_blocks (K : nat) (l : list Z) : list Z :=
  match K with
  | O => []
  | S K' => avx_perm (firstn 32 l) ++ avx_blocks K' (skipn 32 l)
  end.

(** The pixel whose sum [img_add_avx] leaves at index [i]: in every block of
    32 pixels the groups 8..15 and 16..23 are exchanged. *)
Definition avx_index (i : nat) : nat :=
  let r := (i mod 32)%nat in
  if ((8 <=? r) && (r <? 16))%nat then (i + 8)%nat
  else if ((16 <=? r) && (r <? 24))%nat then (i - 8)%nat
  else i.

(** The bytes that a strategy of a kernel leaves in [C]: the pixels in
    order, but for [img_add_avx]. *)
Definition output (k : kernel) (st : strategy) (la lb : list Z) : list Z :=
  match k, st with
  | Widening, WIN_AVX =>
      pixels px_add (avx_blocks (length la / 32) la) (avx_blocks (length la / 32) lb)
  | _, _ => pixels (pixel k) la lb
  end.

(** The elements of the output buffer of a run, if it ends. *)
Definition output_ushorts (r : option state) (C : addr) (n : nat) : option (list Z) :=
  match r with
  | Some s' => read_ushorts (mem s') C n
  | None => None
  end.

(** The access log of [k] iterations of a loop whose iteration at index [i]
    logs [ev i] and advances by [ppl]. *)
Fixpoint chunk_log (ev : Z -> list event) (ppl : Z) (k : nat) : list event :=
  match k with
  | O => []
  | S k' => ev (ppl * Z.of_nat k') ++ chunk_log ev ppl k'
  end.

(** The accesses of one iteration at index [i]: of the scalar kernels, of
    the saturating vector kernels on registers of [w] bytes, of [img_add_sse]
    and of [img_add_avx]; the latest access first. *)
Definition ev_kr_nsu (A B C : addr) (i : Z) : list event :=
  [Store (C + i) 1; Load (B + i) 1; Load (A + i) 1].

Definition ev_nsu (A B C : addr) (i : Z) : list event :=
  [Store (C + 2 * i) 2; Load (B + i) 1; Load (A + i) 1].

Definition ev_kr_vec (w : nat) (A B C : addr) (i : Z) : list event :=
  [Store (C + i) w; Load (B + i) w; Load (A + i) w].

Definition ev_sse (A B C : addr) (i : Z) : list event :=
  [Store (C + 2 * (i + 8)) 16; Store (C + 2 * i) 16; Load (B + i) 16; Load (A + i) 16].

Definition ev_avx (A B C : addr) (i : Z) : list event :=
  [Store (C + 2 * (i + 16)) 32; Store (C + 2 * i) 32; Load (B + i) 32; Load (A + i) 32].

(** The accesses of one iteration of a strategy of a kernel, and the bytes
    it writes from the chunks [xa] and [xb] of the inputs. *)
Definition ev_of (k : kernel) (st : strategy) : addr -> addr -> addr -> Z -> list event :=
  match k, st with
  | KeepRange, WIN_SSE => ev_kr_vec 16
  | KeepRange, WIN_AVX => ev_kr_vec 32
  | KeepRange, NSU => ev_kr_nsu
  | Widening, WIN_SSE => ev_sse
  | Widening, WIN_AVX => ev_avx
  | Widening, NSU => ev_nsu
  end.

Definition chunk_out (k : kernel) (st : strategy) (xa xb : list Z) : list Z :=
  match k, st with
  | Widening, WIN_AVX => pixels px_add (avx_perm xa) (avx_perm xb)
  | _, _ => pixels (pixel k) xa xb
  end.

(** The stores of one iteration: the widening vector kernels store their
    two halves one after the other. *)
Definition stores_per_iteration (k : kernel) (st : strategy) : Z :=
  match k, st with
  | Widening, WIN_SSE | Widening, WIN_AVX => 2
  | _, _ => 1
  end.

(** The pixel count rounded up to the lanes of a strategy. *)
Definition padded (st : strategy) (N : Z) : Z :=
  lanes st * ((N + lanes st - 1) / lanes st).

(** A strategy of a kernel seen as a loop over chunks: the loop test, the
    effect of an iteration on allocated chunks, the fault of an iteration
    whose chunk of [A] is not allocated, the index after an iteration, and
    no abort. *)
Definition chunk_loop (k : kernel) (st : strategy) (A : addr) (width height : Z)
    (B C : addr) (L : Type) (loc : Z -> L) (cond : L -> bool) (body : L -> M L)
    : Prop :=
  (forall fuel s,
     kernel_fn k st fuel A width height B C s
     = (for_loop fuel cond body (loc 0) ;;; ret tt) s)
  /\ (forall i, cond (loc i) = (i <? uint (width * height)))
  /\ (forall i s xa xb,
        0 <= i -> i + lanes st < 2 ^ 32 ->
        read_bytes (mem s) (A + i) (Z.to_nat (lanes st)) = Some xa ->
        read_bytes (mem s) (B + i) (Z.to_nat (lanes st)) = Some xb ->
        forallb is_byte xa = true ->
        forallb is_byte xb = true ->
        allocated (mem s) (C + Z.of_nat (elem_size k) * i)
          (elem_size k * Z.to_nat (lanes st)) = true ->
        body (loc i) s
        = Ok (loc (i + lanes st),
              mkState (write_bytes (mem s) (C + Z.of_nat (elem_size k) * i)
                         (chunk_out k st xa xb))
                (ev_of k st A B C i ++ log s)))
  /\ (forall i s,
        read_bytes (mem s) (A + i) (Z.to_nat (lanes st)) = None ->
        body (loc i) s = Fault)
  /\ (forall i s l' s', body (loc i) s = Ok (l', s') -> l' = loc (uint (i + lanes st)))
  /\ (forall l s, body l s <> Abort).

(** What a call expects of the memory: [A] and [B] hold the [N] bytes [la]
    and [lb], [C] has room for [N] elements of [esz] bytes and meets neither
    [A] nor [B]. *)
Record buffers (esz : Z) (m : memory) (A B C : addr) (N : Z) (la lb : list Z)
    : Prop := {
  buf_A : read_bytes m A (Z.to_nat N) = Some la;
  buf_B : read_bytes m B (Z.to_nat N) = Some lb;
  buf_la : forallb is_byte la = true;
  buf_lb : forallb is_byte lb = true;
  buf_C : allocated m C (Z.to_nat (esz * N)) = true;
  buf_CA : disjoint C (esz * N) A N = true;
  buf_CB : disjoint C (esz * N) B N = true
}.

(** An access stays inside the buffers of a call: a load inside [A] or
    inside [B], a store inside [C]. *)
Definition in_bounds (esz : Z) (A B C : addr) (N : Z) (e : event) : Prop :=
  match e with
  | Load p n =>
      (A <= p /\ p + Z.of_nat n <= A + N) \/ (B <= p /\ p + Z.of_nat n <= B + N)
  | Store p n => C <= p /\ p + Z.of_nat n <= C + esz * N
  end.

(** The log has a store over the whole range [p, p + n). *)
Definition covered (evs : list event) (p : addr) (n : Z) : Prop :=
  exists q m, In (Store q m) evs /\ q <= p /\ p + n <= q + Z.of_nat m.

Definition is_store (e : event) : bool :=
  match e with
  | Store _ _ => true
  | Load _ _ => false
  end.

(** The number of stores of a log. *)
Definition stores (l : list event) : nat := length (filter is_store l).

(** The final state of a run that ends, and nothing otherwise. *)
Definition exec (m : M unit) (s : state) : option state :=
  match m s with
  | Ok (_, s') => Some s'
  | Fault | Abort | Timeout => None
  end.

(** A memory with room for [65536 * 65536] pixels: [A] starts at [2^32] and
    [B] at [2^33], each of [2^32] bytes that all hold 1, and [C] starts at
    [2^34] with [2^33] zeroed bytes, room for as many [unsigned short]s. *)
Definition huge_A : addr := 4294967296.
Definition huge_B : addr := 8589934592.
Definition huge_C : addr := 17179869184.

Definition huge_mem : memory :=
  fun a =>
    if (huge_A <=? a) && (a <? huge_B + 4294967296) then Some 1
    else if (huge_C <=? a) && (a <? huge_C + 8589934592) then Some 0
    else None.

Definition huge_state : state := mkState huge_mem [].

(** The ramp of 32 pixels with pixel 16 raised to 99. *)
Definition ramp_spike : list Z := firstn 16 (ramp 32) ++ 99 :: skipn 17 (ramp 32).

Unset Implicit Arguments.

(** ** Lists: [map2], [pixels] and chunks *)

Lemma firstn_plus (A : Type) (n c : nat) (l : list A) :
  firstn (n + c) l = firstn n l ++ firstn c (skipn n l).
Proof.
  revert l; induction n as [|n IH]; intros l; simpl; [reflexivity|].
  destruct l as [|x l]; simpl.
  - now rewrite firstn_nil.
  - now rewrite IH.
Qed.

Lemma map2_length (A B C : Type) (f : A -> B -> C) (l : list A) (l' : list B) :
  length (map2 f l l') = Nat.min (length l) (length l').
Proof.
  revert l'; induction l as [|x l IH]; intros [|y l']; simpl; auto.
Qed.

Lemma firstn_map2 (A B C : Type) (f : A -> B -> C) (n : nat) (l : list A) (l' : list B) :
  firstn n (map2 f l l') = map2 f (firstn n l) (firstn n l').
Proof.
  revert l l'; induction n as [|n IH]; intros [|x l] [|y l']; simpl; auto.
  now rewrite IH.
Qed.

Lemma skipn_map2 (A B C : Type) (f : A -> B -> C) (n : nat) (l : list A) (l' : list B) :
  skipn n (map2 f l l') = map2 f (skipn n l) (skipn n l').
Proof.
  revert l l'; induction n as [|n IH]; intros [|x l] [|y l']; simpl; auto.
  now destruct (skipn n l).
Qed.

Lemma map2_app (A B C : Type) (f : A -> B -> C) (l1 l2 : list A) (l1' l2' : list B) :
  length l1 = length l1' ->
  map2 f (l1 ++ l2) (l1' ++ l2') = map2 f l1 l1' ++ map2 f l2 l2'.
Proof.
  revert l1'; induction l1 as [|x l1 IH]; intros [|y l1'] H; simpl in *;
    try discriminate; auto.
  now rewrite IH by lia.
Qed.

Section Pixels.
Variables (px : Z -> Z -> list Z) (esz : nat).
Hypothesis esz_px : forall a b, length (px a b) = esz.

Lemma concat_map2_length (l l' : list Z) :
  length (concat (map2 px l l')) = (esz * Nat.min (length l) (length l'))%nat.
Proof.
  revert l'; induction l as [|x l IH]; intros [|y l']; simpl; try lia.
  rewrite length_app, IH, esz_px. lia.
Qed.

Lemma pixels_length (l l' : list Z) :
  length (pixels px l l') = (esz * Nat.min (length l) (length l'))%nat.
Proof. apply concat_map2_length. Qed.

Lemma firstn_pixels (n : nat) (l l' : list Z) :
  firstn (esz * n) (pixels px l l') = pixels px (firstn n l) (firstn n l').
Proof.
  unfold pixels.
  revert l l'; induction n as [|n IH]; intros l l'.
  - now rewrite Nat.mul_0_r.
  - destruct l as [|x l], l' as [|y l']; simpl;
      try (now rewrite firstn_nil).
    replace (esz * S n)%nat with (length (px x y) + esz * n)%nat
      by (rewrite esz_px; lia).
    now rewrite firstn_app_2, IH.
Qed.

Lemma skipn_pixels (n : nat) (l l' : list Z) :
  skipn (esz * n) (pixels px l l') = pixels px (skipn n l) (skipn n l').
Proof.
  unfold pixels.
  revert l l'; induction n as [|n IH]; intros l l'.
  - now rewrite Nat.mul_0_r.
  - destruct l as [|x l]; [now rewrite skipn_nil|].
    destruct l' as [|y l'].
    { rewrite !skipn_nil. simpl. now destruct (skipn n l). }
    simpl.
    replace (esz * S n)%nat with (length (px x y) + esz * n)%nat
      by (rewrite esz_px; lia).
    now rewrite skipn_app, skipn_all2, Nat.add_comm, Nat.add_sub, IH by lia.
Qed.

(** The output bytes of the input chunk of [c] pixels at [n] are the
    chunk of the output at [esz * n]. *)
Lemma pixels_chunk (n c : nat) (l l' : list Z) :
  firstn (esz * c) (skipn (esz * n) (pixels px l l'))
  = pixels px (firstn c (skipn n l)) (firstn c (skipn n l')).
Proof. now rewrite skipn_pixels, firstn_pixels. Qed.

Lemma pixels_app (l1 l2 l1' l2' : list Z) :
  length l1 = length l1' ->
  pixels px (l1 ++ l2) (l1' ++ l2') = pixels px l1 l1' ++ pixels px l2 l2'.
Proof.
  intros H. unfold pixels. now rewrite map2_app, concat_app.
Qed.
End Pixels.

(** ** Memory: reading and writing byte ranges *)

Lemma read_bytes_length (m : memory) (p : addr) (n : nat) (l : list Z) :
  read_bytes m p n = Some l -> length l = n.
Proof.
  revert p l; induction n as [|n IH]; intros p l; simpl.
  - now intros [= <-].
  - destruct (m p); [|discriminate].
    destruct (read_bytes m (p + 1) n) eqn:E; [|discriminate].
    intros [= <-]. simpl. now rewrite (IH _ _ E).
Qed.

Lemma read_bytes_nth (m : memory) (p : addr) (n : nat) (l : list Z) :
  read_bytes m p n = Some l ->
  forall k, (k < n)%nat -> m (p + Z.of_nat k) = Some (nth k l 0).
Proof.
  revert p l; induction n as [|n IH]; intros p l; simpl; [lia|].
  destruct (m p) eqn:Ep; [|discriminate].
  destruct (read_bytes m (p + 1) n) eqn:E; [|discriminate].
  intros [= <-] [|k] Hk; simpl.
  - now rewrite Z.add_0_r.
  - rewrite <- (IH _ _ E k) by lia. f_equal. lia.
Qed.

Lemma read_bytes_local (m m' : memory) (p : addr) (n : nat) :
  (forall a, p <= a < p + Z.of_nat n -> m a = m' a) ->
  read_bytes m p n = read_bytes m' p n.
Proof.
  revert p; induction n as [|n IH]; intros p H; simpl; [reflexivity|].
  rewrite (H p) by lia.
  rewrite (IH (p + 1)); [reflexivity|].
  intros a Ha. apply H. lia.
Qed.

Lemma read_bytes_ext (m m' : memory) (p : addr) (n : nat) :
  mem_eq m m' -> read_bytes m p n = read_bytes m' p n.
Proof. intros H. apply read_bytes_local. intros a _. apply H. Qed.

Lemma read_bytes_firstn (m : memory) (p : addr) (n c : nat) (l : list Z) :
  read_bytes m p n = Some l -> (c <= n)%nat ->
  read_bytes m p c = Some (firstn c l).
Proof.
  revert p n l; induction c as [|c IH]; intros p n l H Hc; simpl; [reflexivity|].
  destruct n as [|n]; [lia|]. simpl in H.
  destruct (m p); [|discriminate].
  destruct (read_bytes m (p + 1) n) eqn:E; [|discriminate].
  injection H as <-. simpl.
  now rewrite (IH _ _ _ E) by lia.
Qed.

Lemma read_bytes_skipn (m : memory) (p : addr) (n i : nat) (l : list Z) :
  read_bytes m p n = Some l -> (i <= n)%nat ->
  read_bytes m (p + Z.of_nat i) (n - i) = Some (skipn i l).
Proof.
  revert p n l; induction i as [|i IH]; intros p n l H Hi.
  - now rewrite Z.add_0_r, Nat.sub_0_r.
  - destruct n as [|n]; [lia|]. simpl in H.
    destruct (m p); [|discriminate].
    destruct (read_bytes m (p + 1) n) eqn:E; [|discriminate].
    injection H as <-. simpl skipn.
    replace (p + Z.of_nat (S i)) with (p + 1 + Z.of_nat i) by lia.
    now apply IH; [|lia].
Qed.

(** A chunk of a buffer is the chunk of its contents. *)
Lemma read_bytes_chunk (m : memory) (p : addr) (n i c : nat) (l : list Z) :
  read_bytes m p n = Some l -> (i + c <= n)%nat ->
  read_bytes m (p + Z.of_nat i) c = Some (firstn c (skipn i l)).
Proof.
  intros H Hic.
  apply read_bytes_firstn with (n := (n - i)%nat); [|lia].
  apply read_bytes_skipn; [assumption|lia].
Qed.

Lemma write_bytes_outside (m : memory) (p : addr) (l : list Z) (a : addr) :
  a < p \/ p + Z.of_nat (length l) <= a -> write_bytes m p l a = m a.
Proof.
  revert m p; induction l as [|v l IH]; intros m p H; simpl; [reflexivity|].
  rewrite IH by (simpl length in H; lia).
  unfold upd. destruct (Z.eqb_spec a p); [|reflexivity].
  simpl length in H; lia.
Qed.

Lemma write_bytes_inside (m : memory) (p : addr) (l : list Z) (k : nat) :
  (k < length l)%nat -> write_bytes m p l (p + Z.of_nat k) = Some (nth k l 0).
Proof.
  revert m p k; induction l as [|v l IH]; intros m p k H; simpl in H; [lia|].
  destruct k as [|k]; simpl.
  - rewrite write_bytes_outside by lia.
    unfold upd. now rewrite Z.add_0_r, Z.eqb_refl.
  - rewrite <- (IH (upd m p v) (p + 1) k) by lia. f_equal. lia.
Qed.

Lemma write_bytes_ext (m m' : memory) (p : addr) (l : list Z) :
  mem_eq m m' -> mem_eq (write_bytes m p l) (write_bytes m' p l).
Proof.
  revert m m' p; induction l as [|v l IH]; intros m m' p H; simpl; [assumption|].
  apply IH. intros a. unfold upd. now rewrite H.
Qed.

Lemma write_bytes_app (m : memory) (p : addr) (l1 l2 : list Z) :
  write_bytes m p (l1 ++ l2)
  = write_bytes (write_bytes m p l1) (p + Z.of_nat (length l1)) l2.
Proof.
  revert m p; induction l1 as [|v l1 IH]; intros m p; simpl.
  - now rewrite Z.add_0_r.
  - rewrite IH. f_equal. lia.
Qed.

Lemma write_bytes_keeps (m : memory) (p : addr) (l : list Z) (a : addr) :
  m a <> None -> write_bytes m p l a <> None.
Proof.
  revert m p; induction l as [|v l IH]; intros m p H; simpl; [assumption|].
  apply IH. unfold upd. now destruct (a =? p).
Qed.

Lemma read_bytes_write (m : memory) (p : addr) (l : list Z) :
  read_bytes (write_bytes m p l) p (length l) = Some l.
Proof.
  revert m p; induction l as [|v l IH]; intros m p; simpl; [reflexivity|].
  rewrite write_bytes_outside by lia.
  unfold upd at 1. now rewrite Z.eqb_refl, IH.
Qed.

(** A write leaves every range it does not meet as it was. *)
Lemma read_bytes_write_disjoint (m : memory) (p q : addr) (l : list Z) (n : nat) :
  disjoint p (Z.of_nat (length l)) q (Z.of_nat n) = true ->
  read_bytes (write_bytes m p l) q n = read_bytes m q n.
Proof.
  unfold disjoint. intros H. apply read_bytes_local. intros a Ha.
  apply write_bytes_outside.
  apply orb_true_iff in H as [H|H]; apply Z.leb_le in H; lia.
Qed.

Lemma allocated_spec (m : memory) (p : addr) (n : nat) :
  allocated m p n = true <-> forall a, p <= a < p + Z.of_nat n -> m a <> None.
Proof.
  unfold allocated. revert p; induction n as [|n IH]; intros p; simpl.
  - split; [lia|reflexivity].
  - destruct (m p) eqn:Ep.
    + destruct (read_bytes m (p + 1) n) eqn:E.
      * split; [|reflexivity]. intros _ a Ha.
        destruct (Z.eq_dec a p) as [->|Hne]; [congruence|].
        apply (proj1 (IH (p + 1))); [now rewrite E|lia].
      * split; [discriminate|]. intros H.
        specialize (IH (p + 1)). rewrite E in IH.
        apply IH. intros a Ha. apply H. lia.
    + split; [discriminate|]. intros H. exfalso. apply (H p); [lia|assumption].
Qed.

Lemma allocated_write (m : memory) (q : addr) (l : list Z) (p : addr) (n : nat) :
  allocated m p n = true -> allocated (write_bytes m q l) p n = true.
Proof.
  rewrite !allocated_spec. intros H a Ha. apply write_bytes_keeps. now apply H.
Qed.

Lemma allocated_ext (m m' : memory) (p : addr) (n : nat) :
  mem_eq m m' -> allocated m p n = allocated m' p n.
Proof. intros H. unfold allocated. now rewrite (read_bytes_ext m m' p n H). Qed.

Lemma allocated_chunk (m : memory) (p : addr) (n i c : nat) :
  allocated m p n = true -> (i + c <= n)%nat ->
  allocated m (p + Z.of_nat i) c = true.
Proof.
  rewrite !allocated_spec. intros H Hic a Ha. apply H. lia.
Qed.

Lemma mem_eq_refl (m : memory) : mem_eq m m.
Proof. now intros a. Qed.

Lemma mem_eq_trans (m1 m2 m3 : memory) :
  mem_eq m1 m2 -> mem_eq m2 m3 -> mem_eq m1 m3.
Proof. intros H1 H2 a. now rewrite H1. Qed.

Lemma forallb_firstn (A : Type) (f : A -> bool) (n : nat) (l : list A) :
  forallb f l = true -> forallb f (firstn n l) = true.
Proof.
  revert l; induction n as [|n IH]; intros [|x l]; simpl; auto.
  intros H. apply andb_true_iff in H as [-> H]. now apply IH.
Qed.

Lemma forallb_skipn (A : Type) (f : A -> bool) (n : nat) (l : list A) :
  forallb f l = true -> forallb f (skipn n l) = true.
Proof.
  revert l; induction n as [|n IH]; intros [|x l]; simpl; auto.
  intros H. apply andb_true_iff in H as [_ H]. now apply IH.
Qed.

Lemma disjoint_spec (p n q k : Z) :
  disjoint p n q k = true <-> p + n <= q \/ q + k <= p.
Proof.
  unfold disjoint. rewrite orb_true_iff, !Z.leb_le. reflexivity.
Qed.

(** ** The loop of a kernel, chunk by chunk

    Every kernel is a loop over chunks of [ppl] pixels: an iteration reads
    the chunk of [A] and of [B], writes the [esz * ppl] bytes of the output
    chunk and advances by [ppl]. The loop is correct as soon as one iteration
    is, whatever the instructions of the iteration are. *)

Section Chunks.
Variables (L : Type) (loc : Z -> L) (cond : L -> bool) (body : L -> M L).
Variables (g : list Z -> list Z -> list Z) (esz ppl K : nat) (ev : Z -> list event).
Variables (A B C : addr) (la lb : list Z) (s0 : state).

(** The whole output, of which [g] computes the chunks. *)
Variable out : list Z.

(** The loop goes on for [K] chunks, [A] and [B] hold [K] chunks of bytes,
    [C] has room for [K] output chunks, and the chunk that an iteration reads
    does not meet the output chunks written before it. *)
Hypothesis cond_true : forall k, (k < K)%nat -> cond (loc (Z.of_nat (ppl * k))) = true.
Hypothesis in_A : read_bytes (mem s0) A (ppl * K) = Some la.
Hypothesis in_B : read_bytes (mem s0) B (ppl * K) = Some lb.
Hypothesis bytes_A : forallb is_byte la = true.
Hypothesis bytes_B : forallb is_byte lb = true.
Hypothesis room_C : allocated (mem s0) C (esz * (ppl * K)) = true.
Hypothesis free_A : forall k, (k < K)%nat ->
  disjoint C (Z.of_nat (esz * (ppl * k))) (A + Z.of_nat (ppl * k)) (Z.of_nat ppl) = true.
Hypothesis free_B : forall k, (k < K)%nat ->
  disjoint C (Z.of_nat (esz * (ppl * k))) (B + Z.of_nat (ppl * k)) (Z.of_nat ppl) = true.
Hypothesis out_length : length out = (esz * (ppl * K))%nat.
Hypothesis out_chunk : forall k, (k < K)%nat ->
  firstn (esz * ppl) (skipn (esz * (ppl * k)) out)
  = g (firstn ppl (skipn (ppl * k) la)) (firstn ppl (skipn (ppl * k) lb)).

(** One iteration, on the chunk at index [i]. *)
Hypothesis body_ok : forall (i : Z) (s : state) (xa xb : list Z),
  0 <= i -> i + Z.of_nat ppl <= Z.of_nat (ppl * K) ->
  read_bytes (mem s) (A + i) ppl = Some xa ->
  read_bytes (mem s) (B + i) ppl = Some xb ->
  forallb is_byte xa = true ->
  forallb is_byte xb = true ->
  allocated (mem s) (C + Z.of_nat esz * i) (esz * ppl) = true ->
  exists s',
    body (loc i) s = Ok (loc (i + Z.of_nat ppl), s')
    /\ mem_eq (mem s') (write_bytes (mem s) (C + Z.of_nat esz * i) (g xa xb))
    /\ log s' = ev i ++ log s.

(** The state after [k] chunks. *)
Let Inv (k : nat) (s : state) : Prop :=
  mem_eq (mem s) (write_bytes (mem s0) C (firstn (esz * (ppl * k)) out))
  /\ log s = chunk_log ev (Z.of_nat ppl) k ++ log s0.

Lemma chunks_prefix_length (k : nat) :
  (k <= K)%nat -> length (firstn (esz * (ppl * k)) out) = (esz * (ppl * k))%nat.
Proof.
  intros Hk. rewrite length_firstn, out_length.
  apply Nat.min_l. now do 2 apply Nat.mul_le_mono_l.
Qed.

Lemma chunks_step (k : nat) (s : state) :
  (k < K)%nat -> Inv k s ->
  exists s',
    body (loc (Z.of_nat (ppl * k))) s = Ok (loc (Z.of_nat (ppl * S k)), s')
    /\ Inv (S k) s'.
Proof.
  intros Hk [Hmem Hlog].
  assert (Hin : (ppl * k + ppl <= ppl * K)%nat) by nia.
  assert (Hpre := chunks_prefix_length k ltac:(lia)).
  destruct (body_ok (Z.of_nat (ppl * k)) s (firstn ppl (skipn (ppl * k) la))
              (firstn ppl (skipn (ppl * k) lb))) as (s' & Hrun & Hmem' & Hlog').
  - lia.
  - nia.
  - rewrite (read_bytes_ext _ _ _ _ Hmem), read_bytes_write_disjoint.
    + now apply read_bytes_chunk with (n := (ppl * K)%nat).
    + rewrite Hpre. now apply free_A.
  - rewrite (read_bytes_ext _ _ _ _ Hmem), read_bytes_write_disjoint.
    + now apply read_bytes_chunk with (n := (ppl * K)%nat).
    + rewrite Hpre. now apply free_B.
  - now apply forallb_firstn, forallb_skipn.
  - now apply forallb_firstn, forallb_skipn.
  - rewrite (allocated_ext _ _ _ _ Hmem). apply allocated_write.
    rewrite <- Nat2Z.inj_mul.
    apply allocated_chunk with (n := (esz * (ppl * K))%nat); [exact room_C|nia].
  - exists s'. split; [|split].
    + rewrite Hrun. do 3 f_equal. nia.
    + rewrite <- Nat2Z.inj_mul in Hmem'.
      eapply mem_eq_trans; [exact Hmem'|].
      eapply mem_eq_trans; [apply write_bytes_ext, Hmem|].
      rewrite <- Hpre at 2. rewrite <- write_bytes_app.
      rewrite <- (out_chunk k Hk), <- firstn_plus.
      replace (esz * (ppl * k) + esz * ppl)%nat with (esz * (ppl * S k))%nat by lia.
      apply mem_eq_refl.
    + rewrite Hlog', Hlog. cbn [chunk_log].
      now rewrite app_assoc, Nat2Z.inj_mul.
Qed.

(** The first [k] iterations: with [f] more units of fuel the loop goes on
    from the state after [k] chunks. *)
Lemma chunks_prefix (k : nat) :
  (k <= K)%nat ->
  exists s,
    Inv k s
    /\ forall f, for_loop (k + f) cond body (loc 0) s0
                 = for_loop f cond body (loc (Z.of_nat (ppl * k))) s.
Proof.
  induction k as [|k IH]; intros Hk.
  - exists s0. split.
    + split; [|reflexivity]. rewrite !Nat.mul_0_r. apply mem_eq_refl.
    + intros f. now rewrite Nat.mul_0_r.
  - destruct (IH ltac:(lia)) as (s & HInv & Hloop).
    destruct (chunks_step k s ltac:(lia) HInv) as (s' & Hrun & HInv').
    exists s'. split; [exact HInv'|]. intros f.
    replace (S k + f)%nat with (k + S f)%nat by lia.
    rewrite Hloop. cbn [for_loop]. rewrite cond_true by lia.
    unfold bind. now rewrite Hrun.
Qed.

(** Enough fuel gives the result when the loop stops after [K] chunks: the
    whole output is written over [C], the rest of the memory is as it was,
    and the log is the log of the [K] iterations. *)
Lemma chunks_run (fuel : nat) :
  cond (loc (Z.of_nat (ppl * K))) = false ->
  (K < fuel)%nat ->
  exists s',
    for_loop fuel cond body (loc 0) s0 = Ok (loc (Z.of_nat (ppl * K)), s')
    /\ mem_eq (mem s') (write_bytes (mem s0) C out)
    /\ log s' = chunk_log ev (Z.of_nat ppl) K ++ log s0.
Proof.
  intros Hstop Hfuel.
  destruct (chunks_prefix K ltac:(lia)) as (s' & [Hmem Hlog] & Hloop).
  exists s'. split; [|split; [|exact Hlog]].
  - replace fuel with (K + S (fuel - S K))%nat by lia.
    rewrite Hloop. cbn [for_loop]. now rewrite Hstop.
  - rewrite <- out_length, firstn_all in Hmem. exact Hmem.
Qed.
End Chunks.

(** The loop of a call that meets the contract, on a pixel count [N] of
    exactly [K] chunks. *)
Lemma chunked_blocks (L : Type) (loc : Z -> L) (cond : L -> bool) (body : L -> M L)
    (g : list Z -> list Z -> list Z) (esz ppl K : nat) (ev : Z -> list event)
    (A B C : addr) (N : Z) (la lb : list Z) (s0 : state) (out : list Z) :
  (0 < ppl)%nat ->
  N = Z.of_nat (ppl * K) ->
  (forall i, cond (loc i) = (i <? N)) ->
  buffers (Z.of_nat esz) (mem s0) A B C N la lb ->
  length out = (esz * (ppl * K))%nat ->
  (forall k, (k < K)%nat ->
     firstn (esz * ppl) (skipn (esz * (ppl * k)) out)
     = g (firstn ppl (skipn (ppl * k) la)) (firstn ppl (skipn (ppl * k) lb))) ->
  (forall (i : Z) (s : state) (xa xb : list Z),
     0 <= i -> i + Z.of_nat ppl <= N ->
     read_bytes (mem s) (A + i) ppl = Some xa ->
     read_bytes (mem s) (B + i) ppl = Some xb ->
     forallb is_byte xa = true ->
     forallb is_byte xb = true ->
     allocated (mem s) (C + Z.of_nat esz * i) (esz * ppl) = true ->
     exists s',
       body (loc i) s = Ok (loc (i + Z.of_nat ppl), s')
       /\ mem_eq (mem s') (write_bytes (mem s) (C + Z.of_nat esz * i) (g xa xb))
       /\ log s' = ev i ++ log s) ->
  forall fuel, (K < fuel)%nat ->
  exists s',
    for_loop fuel cond body (loc 0) s0 = Ok (loc N, s')
    /\ mem_eq (mem s') (write_bytes (mem s0) C out)
    /\ log s' = chunk_log ev (Z.of_nat ppl) K ++ log s0.
Proof.
  intros Hppl HN Hcond Hb Hlen Hchunk Hbody fuel Hfuel.
  pose proof (buf_A Hb) as HA. pose proof (buf_B Hb) as HB.
  pose proof (buf_C Hb) as HC.
  pose proof (proj1 (disjoint_spec _ _ _ _) (buf_CA Hb)) as HCA.
  pose proof (proj1 (disjoint_spec _ _ _ _) (buf_CB Hb)) as HCB.
  rewrite HN, Nat2Z.id in HA, HB.
  rewrite HN, <- Nat2Z.inj_mul, Nat2Z.id in HC.
  destruct (chunks_run L loc cond body g esz ppl K ev A B C la lb s0 out)
    with (fuel := fuel) as (s' & Hrun & Hmem & Hlog);
    try assumption; try apply Hb.
  - intros k Hk. rewrite Hcond. apply Z.ltb_lt. rewrite HN. apply Nat2Z.inj_lt. nia.
  - intros k Hk. apply disjoint_spec. nia.
  - intros k Hk. apply disjoint_spec. nia.
  - intros i s xa xb Hi HiN. apply Hbody; [exact Hi|]. now rewrite HN.
  - rewrite Hcond, HN. apply Z.ltb_irrefl.
  - exists s'. rewrite HN at 1. now split.
Qed.

(** The loop of a kernel that computes every output pixel from the input
    pixels of the same index. *)
Lemma chunked_loop (L : Type) (loc : Z -> L) (cond : L -> bool) (body : L -> M L)
    (px : Z -> Z -> list Z) (esz ppl K : nat) (ev : Z -> list event)
    (A B C : addr) (N : Z) (la lb : list Z) (s0 : state) :
  (forall a b, length (px a b) = esz) ->
  (0 < ppl)%nat ->
  N = Z.of_nat (ppl * K) ->
  (forall i, cond (loc i) = (i <? N)) ->
  buffers (Z.of_nat esz) (mem s0) A B C N la lb ->
  (forall (i : Z) (s : state) (xa xb : list Z),
     0 <= i -> i + Z.of_nat ppl <= N ->
     read_bytes (mem s) (A + i) ppl = Some xa ->
     read_bytes (mem s) (B + i) ppl = Some xb ->
     forallb is_byte xa = true ->
     forallb is_byte xb = true ->
     allocated (mem s) (C + Z.of_nat esz * i) (esz * ppl) = true ->
     exists s',
       body (loc i) s = Ok (loc (i + Z.of_nat ppl), s')
       /\ mem_eq (mem s') (write_bytes (mem s) (C + Z.of_nat esz * i) (pixels px xa xb))
       /\ log s' = ev i ++ log s) ->
  forall fuel, (K < fuel)%nat ->
  exists s',
    for_loop fuel cond body (loc 0) s0 = Ok (loc N, s')
    /\ mem_eq (mem s') (write_bytes (mem s0) C (pixels px la lb))
    /\ log s' = chunk_log ev (Z.of_nat ppl) K ++ log s0.
Proof.
  intros Hpx Hppl HN Hcond Hb Hbody fuel Hfuel.
  apply (chunked_blocks L loc cond body (pixels px) esz ppl K ev A B C N la lb s0
           (pixels px la lb)); try assumption.
  - rewrite (pixels_length _ _ Hpx).
    rewrite (read_bytes_length _ _ _ _ (buf_A Hb)), (read_bytes_length _ _ _ _ (buf_B Hb)).
    rewrite HN, Nat2Z.id. now rewrite Nat.min_id.
  - intros k _. apply (pixels_chunk _ _ Hpx).
Qed.

(** ** Arithmetic of the element types *)

Lemma is_byte_spec (z : Z) : is_byte z = true <-> 0 <= z < 256.
Proof. unfold is_byte. rewrite andb_true_iff, Z.leb_le, Z.ltb_lt. reflexivity. Qed.

Lemma uint_small (z : Z) : 0 <= z < 2 ^ 32 -> uint z = z.
Proof. intros H. unfold uint. now apply Z.mod_small. Qed.

Lemma uint_range (z : Z) : 0 <= uint z < 2 ^ 32.
Proof. unfold uint. apply Z.mod_pos_bound. lia. Qed.

(** The clamp of the scalar saturating kernel. *)
Lemma clamp_sum (a b : Z) :
  0 <= a < 256 -> 0 <= b < 256 ->
  le_encode 1 (uchar (if 255 <? uint (a + b) then 255 else uint (a + b)))
  = px_kr a b.
Proof.
  intros Ha Hb. rewrite uint_small by lia.
  unfold px_kr, uchar. change (2 ^ 8) with 256. cbn [le_encode].
  destruct (Z.ltb_spec 255 (a + b)).
  - now rewrite Z.min_r by lia.
  - rewrite Z.min_l by lia.
    now rewrite !(Z.mod_small (a + b) 256) by lia.
Qed.

Lemma widen_sum (a b : Z) :
  0 <= a < 256 -> 0 <= b < 256 ->
  le_encode 2 (ushort (a + b)) = px_add a b.
Proof.
  intros Ha Hb. unfold px_add, ushort. change (2 ^ 16) with 65536.
  rewrite Z.mod_small; [reflexivity|lia].
Qed.

Lemma px_kr_length (a b : Z) : length (px_kr a b) = 1%nat.
Proof. reflexivity. Qed.

Lemma px_add_length (a b : Z) : length (px_add a b) = 2%nat.
Proof. reflexivity. Qed.

(** ** Running the pieces of a kernel *)

Lemma load_run (n : nat) (p : addr) (s : state) (l : list Z) :
  read_bytes (mem s) p n = Some l ->
  load n p s = Ok (l, mkState (mem s) (Load p n :: log s)).
Proof. intros H. unfold load. now rewrite H. Qed.

Lemma store_run (p : addr) (l : list Z) (s : state) :
  allocated (mem s) p (length l) = true ->
  store p l s
  = Ok (tt, mkState (write_bytes (mem s) p l) (Store p (length l) :: log s)).
Proof. intros H. unfold store. now rewrite H. Qed.

Lemma read_one (m : memory) (p : addr) (l : list Z) :
  read_bytes m p 1 = Some l -> exists a, l = [a].
Proof.
  intros H. apply read_bytes_length in H.
  destruct l as [|a [|b l]]; try discriminate. now exists a.
Qed.

Lemma load_uchar_run (p : addr) (s : state) (a : Z) :
  read_bytes (mem s) p 1 = Some [a] ->
  load_uchar p s = Ok (a, mkState (mem s) (Load p 1 :: log s)).
Proof.
  intros H. unfold load_uchar, bind. rewrite (load_run _ _ _ _ H).
  unfold ret. simpl le_decode. do 3 f_equal. lia.
Qed.

(** A kernel is its loop. *)
Lemma loop_then_ret (L : Type) (fuel : nat) (cond : L -> bool) (body : L -> M L)
    (l0 l : L) (s s' : state) :
  for_loop fuel cond body l0 s = Ok (l, s') ->
  (for_loop fuel cond body l0 ;;; ret tt) s = Ok (tt, s').
Proof. intros H. unfold bind. now rewrite H. Qed.

(** An entry point asserts its three pointers and runs the strategy that
    was compiled in. *)
Lemma entry_nonnull (k : kernel) (st : strategy) (fuel : nat) (A : addr)
    (width height : Z) (B C : addr) (s : state) :
  A <> 0 -> B <> 0 -> C <> 0 ->
  entry k st fuel A width height B C s = kernel_fn k st fuel A width height B C s.
Proof.
  intros HA HB HC.
  destruct k, st; cbn [entry kernel_fn]; unfold img_add_kr, img_add, bind, assert_ptr;
    destruct (Z.eqb_spec A 0), (Z.eqb_spec B 0), (Z.eqb_spec C 0);
    try contradiction; reflexivity.
Qed.

Lemma entry_null (k : kernel) (st : strategy) (fuel : nat) (A : addr)
    (width height : Z) (B C : addr) (s : state) :
  A = 0 \/ B = 0 \/ C = 0 ->
  entry k st fuel A width height B C s = Abort.
Proof.
  intros H.
  destruct k, st; cbn [entry]; unfold img_add_kr, img_add, bind, assert_ptr;
    destruct (Z.eqb_spec A 0), (Z.eqb_spec B 0), (Z.eqb_spec C 0);
    try reflexivity; lia.
Qed.

(** ** The scalar kernels *)

Section Scalar.
Variables (A B C : addr) (N : Z).
Hypothesis N_range : 0 <= N < 2 ^ 32.

Let body_kr (i : Z) : M Z :=
  a <- load_uchar (A + i) ;;
  b <- load_uchar (B + i) ;;
  let sum := uint (a + b) in
  let sum := if 255 <? sum then 255 else sum in
  store_uchar (C + i) sum ;;;
  ret (uint (i + 1)).

Let body_add (i : Z) : M Z :=
  a <- load_uchar (A + i) ;;
  b <- load_uchar (B + i) ;;
  store_ushort (C + sizeof_ushort * i) (a + b) ;;;
  ret (uint (i + 1)).

Lemma body_kr_run (i : Z) (s : state) (xa xb : list Z) :
  0 <= i < N ->
  read_bytes (mem s) (A + i) 1 = Some xa ->
  read_bytes (mem s) (B + i) 1 = Some xb ->
  forallb is_byte xa = true ->
  forallb is_byte xb = true ->
  allocated (mem s) (C + i) 1 = true ->
  body_kr i s
  = Ok (i + 1, mkState (write_bytes (mem s) (C + i) (pixels px_kr xa xb))
                 (ev_kr_nsu A B C i ++ log s)).
Proof.
  intros Hi HA HB Ha Hb HC.
  destruct (read_one _ _ _ HA) as [a ->], (read_one _ _ _ HB) as [b ->].
  simpl in Ha, Hb. rewrite andb_true_r, is_byte_spec in Ha, Hb.
  unfold body_kr, bind.
  rewrite (load_uchar_run _ _ _ HA). cbn [mem log].
  rewrite (load_uchar_run _ (mkState _ _) _ HB). cbn [mem log].
  unfold store_uchar. rewrite clamp_sum by assumption.
  rewrite store_run by exact HC. cbn [mem log].
  unfold ret. rewrite uint_small by lia. reflexivity.
Qed.

Lemma body_add_run (i : Z) (s : state) (xa xb : list Z) :
  0 <= i < N ->
  read_bytes (mem s) (A + i) 1 = Some xa ->
  read_bytes (mem s) (B + i) 1 = Some xb ->
  forallb is_byte xa = true ->
  forallb is_byte xb = true ->
  allocated (mem s) (C + 2 * i) 2 = true ->
  body_add i s
  = Ok (i + 1, mkState (write_bytes (mem s) (C + 2 * i) (pixels px_add xa xb))
                 (ev_nsu A B C i ++ log s)).
Proof.
  intros Hi HA HB Ha Hb HC.
  destruct (read_one _ _ _ HA) as [a ->], (read_one _ _ _ HB) as [b ->].
  simpl in Ha, Hb. rewrite andb_true_r, is_byte_spec in Ha, Hb.
  unfold body_add, bind, sizeof_ushort.
  rewrite (load_uchar_run _ _ _ HA). cbn [mem log].
  rewrite (load_uchar_run _ (mkState _ _) _ HB). cbn [mem log].
  unfold store_ushort. rewrite widen_sum by assumption.
  rewrite store_run by exact HC. cbn [mem log].
  unfold ret. rewrite uint_small by lia. reflexivity.
Qed.
End Scalar.

Lemma img_add_kr_nsu_run (fuel : nat) (A : addr) (width height : Z) (B C : addr)
    (s : state) (la lb : list Z) :
  buffers 1 (mem s) A B C (uint (width * height)) la lb ->
  uint (width * height) < Z.of_nat fuel ->
  exists s',
    img_add_kr_nsu fuel A width height B C s = Ok (tt, s')
    /\ mem_eq (mem s') (write_bytes (mem s) C (pixels px_kr la lb))
    /\ log s' = chunk_log (ev_kr_nsu A B C) 1 (Z.to_nat (uint (width * height))) ++ log s.
Proof.
  intros Hb Hfuel. unfold img_add_kr_nsu.
  pose proof (uint_range (width * height)) as HN.
  set (N := uint (width * height)) in *.
  match goal with
  | |- context [for_loop fuel ?c ?b 0] =>
      destruct (chunked_loop Z (fun i => i) c b px_kr 1 1 (Z.to_nat N)
                  (ev_kr_nsu A B C) A B C N la lb s) with (fuel := fuel)
        as (s' & Hrun & Hmem & Hlog)
  end.
  - exact px_kr_length.
  - lia.
  - lia.
  - reflexivity.
  - exact Hb.
  - intros i s1 xa xb Hi HiN HA HB Ha Hb' HC.
    change (Z.of_nat 1) with 1 in *. rewrite Z.mul_1_l in *.
    eexists. split.
    { apply (body_kr_run A B C N HN i s1 xa xb); try assumption. lia. }
    split; [apply mem_eq_refl|reflexivity].
  - lia.
  - exists s'. split; [|now split].
    exact (loop_then_ret _ _ _ _ _ _ _ _ Hrun).
Qed.

Lemma img_add_nsu_run (fuel : nat) (A : addr) (width height : Z) (B C : addr)
    (s : state) (la lb : list Z) :
  buffers 2 (mem s) A B C (uint (width * height)) la lb ->
  uint (width * height) < Z.of_nat fuel ->
  exists s',
    img_add_nsu fuel A width height B C s = Ok (tt, s')
    /\ mem_eq (mem s') (write_bytes (mem s) C (pixels px_add la lb))
    /\ log s' = chunk_log (ev_nsu A B C) 1 (Z.to_nat (uint (width * height))) ++ log s.
Proof.
  intros Hb Hfuel. unfold img_add_nsu.
  pose proof (uint_range (width * height)) as HN.
  set (N := uint (width * height)) in *.
  match goal with
  | |- context [for_loop fuel ?c ?b 0] =>
      destruct (chunked_loop Z (fun i => i) c b px_add 2 1 (Z.to_nat N)
                  (ev_nsu A B C) A B C N la lb s) with (fuel := fuel)
        as (s' & Hrun & Hmem & Hlog)
  end.
  - exact px_add_length.
  - lia.
  - lia.
  - reflexivity.
  - exact Hb.
  - intros i s1 xa xb Hi HiN HA HB Ha Hb' HC.
    change (Z.of_nat 1) with 1 in *. change (Z.of_nat 2) with 2 in *.
    eexists. split.
    { apply (body_add_run A B C N HN i s1 xa xb); try assumption. lia. }
    split; [apply mem_eq_refl|reflexivity].
  - lia.
  - exists s'. split; [|now split].
    exact (loop_then_ret _ _ _ _ _ _ _ _ Hrun).
Qed.

(** ** The vector kernels *)

(** The unsigned saturating byte add of a register is the pixel of the
    saturating kernel, byte by byte. *)
Lemma adds_epu8_pixels (xa xb : list Z) :
  map2 (fun x y => saturate_u8 (x + y)) xa xb = pixels px_kr xa xb.
Proof.
  unfold pixels. revert xb; induction xa as [|a xa IH]; intros [|b xb]; simpl; auto.
  now rewrite IH.
Qed.

(** On sums of bytes the unsigned saturating 16-bit add does not saturate. *)
Lemma adds_epu16_pixels (xa xb : list Z) :
  forallb is_byte xa = true -> forallb is_byte xb = true ->
  epu16_bytes (map2 (fun x y => saturate_u16 (x + y)) xa xb) = pixels px_add xa xb.
Proof.
  unfold pixels, epu16_bytes.
  revert xb; induction xa as [|a xa IH]; intros [|b xb] Ha Hb; auto.
  cbn [forallb] in Ha, Hb.
  apply andb_true_iff in Ha as [Ha Ha'], Hb as [Hb Hb'].
  apply is_byte_spec in Ha, Hb.
  cbn [map2 flat_map concat]. rewrite (IH xb Ha' Hb').
  unfold saturate_u16. now rewrite Z.min_l by lia.
Qed.

(** Unpacking with a zero register widens every byte to a 16-bit lane. *)
Lemma epu16_lanes_unpack_zero (l : list Z) (n : nat) :
  (length l <= n)%nat -> epu16_lanes (interleave l (repeat 0 n)) = l.
Proof.
  revert n; induction l as [|x l IH]; intros [|n] H; simpl in H; try lia; auto.
  cbn [repeat interleave epu16_lanes]. rewrite IH by lia.
  f_equal. cbn [le_decode]. lia.
Qed.

Lemma firstn_exact (l : list Z) (n : nat) : length l = n -> firstn n l = l.
Proof. intros <-. apply firstn_all. Qed.

Section Vector.
Variables (A B C : addr) (N : Z).
Hypothesis N_range : 0 <= N < 2 ^ 32.

(** The iteration of [img_add_kr_sse] ([w = 16]) and of [img_add_kr_avx]
    ([w = 32]). *)
Let body_kr_vec (w : nat) (i : Z) : M Z :=
  X <- load w (A + i) ;;
  Y <- load w (B + i) ;;
  let S := map2 (fun x y => saturate_u8 (x + y)) X Y in
  store (C + i) (firstn w S) ;;;
  ret (uint (i + Z.of_nat w)).

Lemma body_kr_vec_run (w : nat) (i : Z) (s : state) (xa xb : list Z) :
  0 <= i -> i + Z.of_nat w <= N ->
  read_bytes (mem s) (A + i) w = Some xa ->
  read_bytes (mem s) (B + i) w = Some xb ->
  allocated (mem s) (C + i) w = true ->
  body_kr_vec w i s
  = Ok (i + Z.of_nat w,
        mkState (write_bytes (mem s) (C + i) (pixels px_kr xa xb))
          (ev_kr_vec w A B C i ++ log s)).
Proof.
  intros Hi HiN HA HB HC.
  assert (Hlen : length (pixels px_kr xa xb) = w).
  { rewrite (pixels_length _ _ px_kr_length).
    rewrite (read_bytes_length _ _ _ _ HA), (read_bytes_length _ _ _ _ HB). lia. }
  unfold body_kr_vec, bind.
  rewrite (load_run _ _ _ _ HA). cbn [mem log].
  rewrite (load_run _ _ (mkState _ _) _ HB). cbn [mem log].
  rewrite adds_epu8_pixels, (firstn_exact _ _ Hlen).
  rewrite store_run by (cbn [mem]; now rewrite Hlen). cbn [mem log].
  unfold ret. rewrite uint_small, Hlen by lia. reflexivity.
Qed.

(** The iteration of [img_add_sse]. *)
Let body_sse (ij : Z * Z) : M (Z * Z) :=
  let '(i, j) := ij in
  X <- _mm_loadu_si128 (A + i) ;;
  let XL := _mm_unpacklo_epi8 X _mm_setzero_si128 in
  let XH := _mm_unpackhi_epi8 X _mm_setzero_si128 in
  Y <- _mm_loadu_si128 (B + i) ;;
  let YL := _mm_unpacklo_epi8 Y _mm_setzero_si128 in
  let YH := _mm_unpackhi_epi8 Y _mm_setzero_si128 in
  let SL := _mm_adds_epu16 XL YL in
  let SH := _mm_adds_epu16 XH YH in
  _mm_storeu_si128 (C + sizeof_ushort * j) SL ;;;
  let j := uint (j + 8) in
  _mm_storeu_si128 (C + sizeof_ushort * j) SH ;;;
  let j := uint (j + 8) in
  ret (uint (i + 16), j).

Lemma adds_unpacklo (xa xb : list Z) :
  forallb is_byte xa = true -> forallb is_byte xb = true ->
  _mm_adds_epu16 (_mm_unpacklo_epi8 xa _mm_setzero_si128)
    (_mm_unpacklo_epi8 xb _mm_setzero_si128)
  = pixels px_add (firstn 8 xa) (firstn 8 xb).
Proof.
  intros Ha Hb. unfold _mm_adds_epu16, _mm_unpacklo_epi8.
  change (firstn 8 _mm_setzero_si128) with (repeat 0 8).
  rewrite !epu16_lanes_unpack_zero by apply firstn_le_length.
  apply adds_epu16_pixels; now apply forallb_firstn.
Qed.

Lemma adds_unpackhi (xa xb : list Z) :
  forallb is_byte xa = true -> forallb is_byte xb = true ->
  _mm_adds_epu16 (_mm_unpackhi_epi8 xa _mm_setzero_si128)
    (_mm_unpackhi_epi8 xb _mm_setzero_si128)
  = pixels px_add (firstn 8 (skipn 8 xa)) (firstn 8 (skipn 8 xb)).
Proof.
  intros Ha Hb. unfold _mm_adds_epu16, _mm_unpackhi_epi8.
  change (firstn 8 (skipn 8 _mm_setzero_si128)) with (repeat 0 8).
  rewrite !epu16_lanes_unpack_zero by apply firstn_le_length.
  apply adds_epu16_pixels; now apply forallb_firstn, forallb_skipn.
Qed.

Lemma body_sse_run (i : Z) (s : state) (xa xb : list Z) :
  0 <= i -> i + 16 <= N ->
  read_bytes (mem s) (A + i) 16 = Some xa ->
  read_bytes (mem s) (B + i) 16 = Some xb ->
  forallb is_byte xa = true ->
  forallb is_byte xb = true ->
  allocated (mem s) (C + 2 * i) 32 = true ->
  body_sse (i, i) s
  = Ok ((i + 16, i + 16),
        mkState (write_bytes (mem s) (C + 2 * i) (pixels px_add xa xb))
          (ev_sse A B C i ++ log s)).
Proof.
  intros Hi HiN HA HB Ha Hb HC.
  pose proof (read_bytes_length _ _ _ _ HA) as LA.
  pose proof (read_bytes_length _ _ _ _ HB) as LB.
  assert (HL : length (pixels px_add (firstn 8 xa) (firstn 8 xb)) = 16%nat).
  { rewrite (pixels_length _ _ px_add_length), !length_firstn. lia. }
  assert (HH : length (pixels px_add (firstn 8 (skipn 8 xa)) (firstn 8 (skipn 8 xb)))
               = 16%nat).
  { rewrite (pixels_length _ _ px_add_length), !length_firstn, !length_skipn. lia. }
  assert (Hsplit : pixels px_add xa xb
                   = pixels px_add (firstn 8 xa) (firstn 8 xb)
                       ++ pixels px_add (firstn 8 (skipn 8 xa)) (firstn 8 (skipn 8 xb))).
  { rewrite <- pixels_app by (rewrite !length_firstn; lia).
    rewrite <- !(firstn_plus _ 8 8).
    now rewrite !firstn_exact by assumption. }
  unfold body_sse, bind, _mm_loadu_si128, _mm_storeu_si128, sizeof_ushort.
  rewrite (load_run _ _ _ _ HA). cbn [mem log].
  rewrite (load_run _ _ (mkState _ _) _ HB). cbn [mem log].
  rewrite adds_unpacklo, adds_unpackhi by assumption.
  rewrite (firstn_exact _ _ HL), (firstn_exact _ _ HH).
  rewrite !(uint_small (i + 8)) by lia.
  rewrite store_run; cbn [mem log].
  2:{ rewrite HL. apply (allocated_chunk _ _ 32 0 16) in HC; [|lia].
      now rewrite Z.add_0_r in HC. }
  rewrite store_run; cbn [mem log].
  2:{ rewrite HH. apply allocated_write.
      apply (allocated_chunk _ _ 32 16 16) in HC; [|lia].
      now replace (C + 2 * (i + 8)) with (C + 2 * i + Z.of_nat 16) by lia. }
  unfold ret. rewrite !uint_small by lia.
  rewrite Hsplit, write_bytes_app, HL, HH.
  replace (C + 2 * i + Z.of_nat 16) with (C + 2 * (i + 8)) by lia.
  replace (i + 8 + 8) with (i + 16) by lia.
  reflexivity.
Qed.
End Vector.

(** *** The widening AVX kernel *)

Lemma epu16_lanes_unpack_zero_app (l r : list Z) (n : nat) :
  (length l <= n)%nat ->
  epu16_lanes (interleave l (repeat 0 n) ++ r) = l ++ epu16_lanes r.
Proof.
  revert n; induction l as [|x l IH]; intros [|n] H; simpl in H; try lia; auto.
  cbn [repeat interleave epu16_lanes app]. rewrite IH by lia.
  f_equal. cbn [le_decode]. lia.
Qed.

Lemma avx_perm_length (x : list Z) : length x = 32%nat -> length (avx_perm x) = 32%nat.
Proof.
  intros H. unfold avx_perm.
  rewrite !length_app, !length_firstn, !length_skipn, H. reflexivity.
Qed.

Lemma avx_perm_bytes (x : list Z) :
  forallb is_byte x = true -> forallb is_byte (avx_perm x) = true.
Proof.
  intros H. unfold avx_perm. rewrite !forallb_app.
  now rewrite !forallb_firstn by (try apply forallb_skipn; assumption).
Qed.

Lemma avx_blocks_length (K : nat) :
  forall l, length l = (32 * K)%nat -> length (avx_blocks K l) = (32 * K)%nat.
Proof.
  induction K as [|K IH]; intros l H; [reflexivity|].
  cbn [avx_blocks]. rewrite length_app, avx_perm_length, IH.
  - lia.
  - rewrite length_skipn. lia.
  - rewrite length_firstn. lia.
Qed.

Lemma avx_blocks_bytes (K : nat) :
  forall l, forallb is_byte l = true -> forallb is_byte (avx_blocks K l) = true.
Proof.
  induction K as [|K IH]; intros l H; [reflexivity|].
  cbn [avx_blocks]. rewrite forallb_app, avx_perm_bytes, IH; auto.
  - now apply forallb_skipn.
  - now apply forallb_firstn.
Qed.

(** The block [k] of the permuted image is the permuted block [k]. *)
Lemma avx_blocks_chunk (k : nat) :
  forall K l, (k < K)%nat -> length l = (32 * K)%nat ->
    firstn 32 (skipn (32 * k) (avx_blocks K l))
    = avx_perm (firstn 32 (skipn (32 * k) l)).
Proof.
  induction k as [|k IH]; intros [|K] l Hk Hl; try lia.
  - cbn [avx_blocks]. rewrite Nat.mul_0_r. cbn [skipn].
    rewrite firstn_app, firstn_exact, avx_perm_length, Nat.sub_diag.
    + cbn [firstn]. now rewrite app_nil_r.
    + rewrite length_firstn. lia.
    + apply avx_perm_length. rewrite length_firstn. lia.
  - cbn [avx_blocks].
    replace (32 * S k)%nat with (32 * k + 32)%nat by lia.
    rewrite <- !skipn_skipn.
    assert (Hp : length (avx_perm (firstn 32 l)) = 32%nat)
      by (apply avx_perm_length; rewrite length_firstn; lia).
    rewrite (skipn_app 32), Hp, Nat.sub_diag.
    rewrite (skipn_all2 (n := 32) (avx_perm (firstn 32 l))) by lia.
    rewrite skipn_O. cbn [app]. apply IH; [lia|]. rewrite length_skipn. lia.
Qed.

Section Avx.
Variables (A B C : addr) (N : Z).
Hypothesis N_range : 0 <= N < 2 ^ 32.

(** The iteration of [img_add_avx]. *)
Let body_avx (ij : Z * Z) : M (Z * Z) :=
  let '(i, j) := ij in
  X <- _mm256_loadu_si256 (A + i) ;;
  let XL := _mm256_unpacklo_epi8 X _mm256_setzero_si256 in
  let XH := _mm256_unpackhi_epi8 X _mm256_setzero_si256 in
  Y <- _mm256_loadu_si256 (B + i) ;;
  let YL := _mm256_unpacklo_epi8 Y _mm256_setzero_si256 in
  let YH := _mm256_unpackhi_epi8 Y _mm256_setzero_si256 in
  let SL := _mm256_adds_epu16 XL YL in
  let SH := _mm256_adds_epu16 XH YH in
  _mm256_storeu_si256 (C + sizeof_ushort * j) SL ;;;
  let j := uint (j + 16) in
  _mm256_storeu_si256 (C + sizeof_ushort * j) SH ;;;
  let j := uint (j + 16) in
  ret (uint (i + 32), j).

(** The low unpack widens the pixels 0..7 and 16..23 of a block. *)
Lemma lanes_unpacklo256 (x : list Z) :
  epu16_lanes (_mm256_unpacklo_epi8 x _mm256_setzero_si256)
  = firstn 8 x ++ firstn 8 (skipn 16 x).
Proof.
  unfold _mm256_unpacklo_epi8, _mm_unpacklo_epi8.
  change (firstn 8 (firstn 16 _mm256_setzero_si256)) with (repeat 0 8).
  change (firstn 8 (skipn 16 _mm256_setzero_si256)) with (repeat 0 8).
  rewrite epu16_lanes_unpack_zero_app, epu16_lanes_unpack_zero
    by apply firstn_le_length.
  now rewrite firstn_firstn.
Qed.

(** The high unpack widens the pixels 8..15 and 24..31 of a block. *)
Lemma lanes_unpackhi256 (x : list Z) :
  epu16_lanes (_mm256_unpackhi_epi8 x _mm256_setzero_si256)
  = firstn 8 (skipn 8 x) ++ firstn 8 (skipn 24 x).
Proof.
  unfold _mm256_unpackhi_epi8, _mm_unpackhi_epi8.
  change (firstn 8 (skipn 8 (firstn 16 _mm256_setzero_si256))) with (repeat 0 8).
  change (firstn 8 (skipn 8 (skipn 16 _mm256_setzero_si256))) with (repeat 0 8).
  rewrite epu16_lanes_unpack_zero_app, epu16_lanes_unpack_zero
    by apply firstn_le_length.
  rewrite skipn_firstn_comm, firstn_firstn, skipn_skipn.
  reflexivity.
Qed.

Lemma body_avx_run (i : Z) (s : state) (xa xb : list Z) :
  0 <= i -> i + 32 <= N ->
  read_bytes (mem s) (A + i) 32 = Some xa ->
  read_bytes (mem s) (B + i) 32 = Some xb ->
  forallb is_byte xa = true ->
  forallb is_byte xb = true ->
  allocated (mem s) (C + 2 * i) 64 = true ->
  body_avx (i, i) s
  = Ok ((i + 32, i + 32),
        mkState (write_bytes (mem s) (C + 2 * i)
                   (pixels px_add (avx_perm xa) (avx_perm xb)))
          (ev_avx A B C i ++ log s)).
Proof.
  intros Hi HiN HA HB Ha Hb HC.
  pose proof (read_bytes_length _ _ _ _ HA) as LA.
  pose proof (read_bytes_length _ _ _ _ HB) as LB.
  set (al := firstn 8 xa ++ firstn 8 (skipn 16 xa)).
  set (ah := firstn 8 (skipn 8 xa) ++ firstn 8 (skipn 24 xa)).
  set (bl := firstn 8 xb ++ firstn 8 (skipn 16 xb)).
  set (bh := firstn 8 (skipn 8 xb) ++ firstn 8 (skipn 24 xb)).
  assert (Lal : length al = 16%nat)
    by (unfold al; rewrite length_app, !length_firstn, length_skipn; lia).
  assert (Lah : length ah = 16%nat)
    by (unfold ah; rewrite length_app, !length_firstn, !length_skipn; lia).
  assert (Lbl : length bl = 16%nat)
    by (unfold bl; rewrite length_app, !length_firstn, length_skipn; lia).
  assert (Lbh : length bh = 16%nat)
    by (unfold bh; rewrite length_app, !length_firstn, !length_skipn; lia).
  assert (HL : length (pixels px_add al bl) = 32%nat)
    by (rewrite (pixels_length _ _ px_add_length); lia).
  assert (HH : length (pixels px_add ah bh) = 32%nat)
    by (rewrite (pixels_length _ _ px_add_length); lia).
  assert (Hsplit : pixels px_add (avx_perm xa) (avx_perm xb)
                   = pixels px_add al bl ++ pixels px_add ah bh).
  { rewrite <- pixels_app by lia. unfold avx_perm, al, ah, bl, bh.
    now rewrite <- !app_assoc. }
  assert (SL : _mm256_adds_epu16 (_mm256_unpacklo_epi8 xa _mm256_setzero_si256)
                 (_mm256_unpacklo_epi8 xb _mm256_setzero_si256)
               = pixels px_add al bl).
  { unfold _mm256_adds_epu16. rewrite !lanes_unpacklo256.
    apply adds_epu16_pixels; unfold al, bl; rewrite forallb_app;
      now rewrite !forallb_firstn by (try apply forallb_skipn; assumption). }
  assert (SH : _mm256_adds_epu16 (_mm256_unpackhi_epi8 xa _mm256_setzero_si256)
                 (_mm256_unpackhi_epi8 xb _mm256_setzero_si256)
               = pixels px_add ah bh).
  { unfold _mm256_adds_epu16. rewrite !lanes_unpackhi256.
    apply adds_epu16_pixels; unfold ah, bh; rewrite forallb_app;
      now rewrite !forallb_firstn by (try apply forallb_skipn; assumption). }
  unfold body_avx, bind, _mm256_loadu_si256, _mm256_storeu_si256, sizeof_ushort.
  rewrite (load_run _ _ _ _ HA). cbn [mem log].
  rewrite (load_run _ _ (mkState _ _) _ HB). cbn [mem log].
  rewrite SL, SH.
  rewrite (firstn_exact _ _ HL), (firstn_exact _ _ HH).
  rewrite !(uint_small (i + 16)) by lia.
  rewrite store_run; cbn [mem log].
  2:{ rewrite HL. apply (allocated_chunk _ _ 64 0 32) in HC; [|lia].
      now rewrite Z.add_0_r in HC. }
  rewrite store_run; cbn [mem log].
  2:{ rewrite HH. apply allocated_write.
      apply (allocated_chunk _ _ 64 32 32) in HC; [|lia].
      now replace (C + 2 * (i + 16)) with (C + 2 * i + Z.of_nat 32) by lia. }
  unfold ret. rewrite !uint_small by lia.
  rewrite Hsplit, write_bytes_app, HL, HH.
  replace (C + 2 * i + Z.of_nat 32) with (C + 2 * (i + 16)) by lia.
  replace (i + 16 + 16) with (i + 32) by lia.
  reflexivity.
Qed.
End Avx.

Lemma chunks_exact (N : Z) (w : nat) :
  0 <= N -> (0 < w)%nat -> N mod Z.of_nat w = 0 ->
  N = Z.of_nat (w * Z.to_nat (N / Z.of_nat w)).
Proof.
  intros HN Hw Hmod.
  rewrite Nat2Z.inj_mul, Z2Nat.id by (apply Z.div_pos; lia).
  rewrite (Z.div_mod N (Z.of_nat w)) at 1 by lia. lia.
Qed.

Lemma chunks_le (N : Z) (w : nat) :
  0 <= N -> (0 < w)%nat -> Z.of_nat (Z.to_nat (N / Z.of_nat w)) <= N.
Proof.
  intros HN Hw. rewrite Z2Nat.id by (apply Z.div_pos; lia).
  apply Z.div_le_upper_bound; nia.
Qed.

Lemma img_add_kr_sse_run (fuel : nat) (A : addr) (width height : Z) (B C : addr)
    (s : state) (la lb : list Z) :
  buffers 1 (mem s) A B C (uint (width * height)) la lb ->
  uint (width * height) mod 16 = 0 ->
  uint (width * height) < Z.of_nat fuel ->
  exists s',
    img_add_kr_sse fuel A width height B C s = Ok (tt, s')
    /\ mem_eq (mem s') (write_bytes (mem s) C (pixels px_kr la lb))
    /\ log s' = chunk_log (ev_kr_vec 16 A B C) 16
                  (Z.to_nat (uint (width * height) / 16)) ++ log s.
Proof.
  intros Hb Hmod Hfuel. unfold img_add_kr_sse.
  pose proof (uint_range (width * height)) as HN.
  set (N := uint (width * height)) in *.
  pose proof (chunks_le N 16 ltac:(lia) ltac:(lia)) as HK.
  match goal with
  | |- context [for_loop fuel ?c ?b 0] =>
      destruct (chunked_loop Z (fun i => i) c b px_kr 1 16 (Z.to_nat (N / 16))
                  (ev_kr_vec 16 A B C) A B C N la lb s) with (fuel := fuel)
        as (s' & Hrun & Hmem & Hlog)
  end.
  - exact px_kr_length.
  - lia.
  - now apply (chunks_exact N 16); [lia|lia|].
  - reflexivity.
  - exact Hb.
  - intros i s1 xa xb Hi HiN HA HB Ha Hb' HC.
    change (Z.of_nat 1) with 1 in *. rewrite Z.mul_1_l in *.
    eexists. split.
    { apply (body_kr_vec_run A B C N HN 16 i s1 xa xb); assumption. }
    split; [apply mem_eq_refl|reflexivity].
  - change (Z.of_nat 16) with 16 in HK. lia.
  - exists s'. split; [|now split].
    exact (loop_then_ret _ _ _ _ _ _ _ _ Hrun).
Qed.

Lemma img_add_kr_avx_run (fuel : nat) (A : addr) (width height : Z) (B C : addr)
    (s : state) (la lb : list Z) :
  buffers 1 (mem s) A B C (uint (width * height)) la lb ->
  uint (width * height) mod 32 = 0 ->
  uint (width * height) < Z.of_nat fuel ->
  exists s',
    img_add_kr_avx fuel A width height B C s = Ok (tt, s')
    /\ mem_eq (mem s') (write_bytes (mem s) C (pixels px_kr la lb))
    /\ log s' = chunk_log (ev_kr_vec 32 A B C) 32
                  (Z.to_nat (uint (width * height) / 32)) ++ log s.
Proof.
  intros Hb Hmod Hfuel. unfold img_add_kr_avx.
  pose proof (uint_range (width * height)) as HN.
  set (N := uint (width * height)) in *.
  pose proof (chunks_le N 32 ltac:(lia) ltac:(lia)) as HK.
  match goal with
  | |- context [for_loop fuel ?c ?b 0] =>
      destruct (chunked_loop Z (fun i => i) c b px_kr 1 32 (Z.to_nat (N / 32))
                  (ev_kr_vec 32 A B C) A B C N la lb s) with (fuel := fuel)
        as (s' & Hrun & Hmem & Hlog)
  end.
  - exact px_kr_length.
  - lia.
  - now apply (chunks_exact N 32); [lia|lia|].
  - reflexivity.
  - exact Hb.
  - intros i s1 xa xb Hi HiN HA HB Ha Hb' HC.
    change (Z.of_nat 1) with 1 in *. rewrite Z.mul_1_l in *.
    eexists. split.
    { apply (body_kr_vec_run A B C N HN 32 i s1 xa xb); assumption. }
    split; [apply mem_eq_refl|reflexivity].
  - change (Z.of_nat 32) with 32 in HK. lia.
  - exists s'. split; [|now split].
    exact (loop_then_ret _ _ _ _ _ _ _ _ Hrun).
Qed.

Lemma img_add_sse_run (fuel : nat) (A : addr) (width height : Z) (B C : addr)
    (s : state) (la lb : list Z) :
  buffers 2 (mem s) A B C (uint (width * height)) la lb ->
  uint (width * height) mod 16 = 0 ->
  uint (width * height) < Z.of_nat fuel ->
  exists s',
    img_add_sse fuel A width height B C s = Ok (tt, s')
    /\ mem_eq (mem s') (write_bytes (mem s) C (pixels px_add la lb))
    /\ log s' = chunk_log (ev_sse A B C) 16
                  (Z.to_nat (uint (width * height) / 16)) ++ log s.
Proof.
  intros Hb Hmod Hfuel. unfold img_add_sse.
  pose proof (uint_range (width * height)) as HN.
  set (N := uint (width * height)) in *.
  pose proof (chunks_le N 16 ltac:(lia) ltac:(lia)) as HK.
  match goal with
  | |- context [for_loop fuel ?c ?b (0, 0)] =>
      destruct (chunked_loop (Z * Z) (fun i => (i, i)) c b px_add 2 16
                  (Z.to_nat (N / 16)) (ev_sse A B C) A B C N la lb s)
        with (fuel := fuel) as (s' & Hrun & Hmem & Hlog)
  end.
  - exact px_add_length.
  - lia.
  - now apply (chunks_exact N 16); [lia|lia|].
  - reflexivity.
  - exact Hb.
  - intros i s1 xa xb Hi HiN HA HB Ha Hb' HC.
    change (Z.of_nat 2) with 2 in *. change (Z.of_nat 16) with 16 in *.
    eexists. split.
    { apply (body_sse_run A B C N HN i s1 xa xb); assumption. }
    split; [apply mem_eq_refl|reflexivity].
  - change (Z.of_nat 16) with 16 in HK. lia.
  - exists s'. split; [|now split].
    exact (loop_then_ret _ _ _ _ _ _ _ _ Hrun).
Qed.

Lemma img_add_avx_run (fuel : nat) (A : addr) (width height : Z) (B C : addr)
    (s : state) (la lb : list Z) :
  buffers 2 (mem s) A B C (uint (width * height)) la lb ->
  uint (width * height) mod 32 = 0 ->
  uint (width * height) < Z.of_nat fuel ->
  exists s',
    img_add_avx fuel A width height B C s = Ok (tt, s')
    /\ mem_eq (mem s')
         (write_bytes (mem s) C
            (pixels px_add
               (avx_blocks (Z.to_nat (uint (width * height) / 32)) la)
               (avx_blocks (Z.to_nat (uint (width * height) / 32)) lb)))
    /\ log s' = chunk_log (ev_avx A B C) 32
                  (Z.to_nat (uint (width * height) / 32)) ++ log s.
Proof.
  intros Hb Hmod Hfuel. unfold img_add_avx.
  pose proof (uint_range (width * height)) as HN.
  set (N := uint (width * height)) in *.
  pose proof (chunks_le N 32 ltac:(lia) ltac:(lia)) as HK.
  pose proof (chunks_exact N 32 ltac:(lia) ltac:(lia) Hmod) as HNK.
  change (Z.of_nat 32) with 32 in HK, HNK.
  set (K := Z.to_nat (N / 32)) in *.
  assert (La : length la = (32 * K)%nat)
    by (rewrite (read_bytes_length _ _ _ _ (buf_A Hb)), HNK; apply Nat2Z.id).
  assert (Lb : length lb = (32 * K)%nat)
    by (rewrite (read_bytes_length _ _ _ _ (buf_B Hb)), HNK; apply Nat2Z.id).
  match goal with
  | |- context [for_loop fuel ?c ?b (0, 0)] =>
      destruct (chunked_blocks (Z * Z) (fun i => (i, i)) c b
                  (fun xa xb => pixels px_add (avx_perm xa) (avx_perm xb))
                  2 32 K (ev_avx A B C) A B C N la lb s
                  (pixels px_add (avx_blocks K la) (avx_blocks K lb)))
        with (fuel := fuel) as (s' & Hrun & Hmem & Hlog)
  end.
  - lia.
  - exact HNK.
  - reflexivity.
  - exact Hb.
  - rewrite (pixels_length _ _ px_add_length), !avx_blocks_length by assumption.
    now rewrite Nat.min_id.
  - intros k Hk.
    rewrite (pixels_chunk _ _ px_add_length).
    now rewrite !avx_blocks_chunk by assumption.
  - intros i s1 xa xb Hi HiN HA HB Ha Hb' HC.
    change (Z.of_nat 2) with 2 in *. change (Z.of_nat 32) with 32 in *.
    eexists. split.
    { apply (body_avx_run A B C N HN i s1 xa xb); assumption. }
    split; [apply mem_eq_refl|reflexivity].
  - lia.
  - exists s'. split; [|now split].
    exact (loop_then_ret _ _ _ _ _ _ _ _ Hrun).
Qed.

(** ** The access log of a kernel *)

Lemma chunk_log_Forall (P : event -> Prop) (ev : Z -> list event) (ppl : Z) (K : nat) :
  (forall k, (k < K)%nat -> Forall P (ev (ppl * Z.of_nat k))) ->
  Forall P (chunk_log ev ppl K).
Proof.
  induction K as [|K IH]; intros H; cbn [chunk_log]; [constructor|].
  apply Forall_app. split; [apply H; lia|]. apply IH. intros k Hk. apply H. lia.
Qed.

Lemma chunk_log_In (ev : Z -> list event) (ppl : Z) (K k : nat) (e : event) :
  (k < K)%nat -> In e (ev (ppl * Z.of_nat k)) -> In e (chunk_log ev ppl K).
Proof.
  induction K as [|K IH]; intros Hk He; [lia|]. cbn [chunk_log].
  apply in_or_app. destruct (Nat.eq_dec k K) as [->|Hne]; [now left|].
  right. apply IH; [lia|assumption].
Qed.

Lemma stores_app (l l' : list event) : stores (l ++ l') = (stores l + stores l')%nat.
Proof. unfold stores. now rewrite filter_app, length_app. Qed.

Lemma stores_chunk_log (ev : Z -> list event) (ppl : Z) (K c : nat) :
  (forall i, stores (ev i) = c) -> stores (chunk_log ev ppl K) = (c * K)%nat.
Proof.
  intros H. induction K as [|K IH]; cbn [chunk_log]; [now rewrite Nat.mul_0_r|].
  rewrite stores_app, H, IH. lia.
Qed.

Ltac log_in_bounds :=
  repeat first [apply Forall_cons | apply Forall_nil]; cbn [in_bounds]; nia.

Lemma in_bounds_kr_nsu (A B C : addr) (N : Z) :
  0 <= N ->
  Forall (in_bounds 1 A B C N) (chunk_log (ev_kr_nsu A B C) 1 (Z.to_nat N)).
Proof.
  intros HN. apply chunk_log_Forall. intros k Hk.
  unfold ev_kr_nsu, ev_nsu. log_in_bounds.
Qed.

Lemma in_bounds_nsu (A B C : addr) (N : Z) :
  0 <= N ->
  Forall (in_bounds 2 A B C N) (chunk_log (ev_nsu A B C) 1 (Z.to_nat N)).
Proof.
  intros HN. apply chunk_log_Forall. intros k Hk.
  unfold ev_kr_nsu, ev_nsu. log_in_bounds.
Qed.

Lemma in_bounds_kr_vec (w : nat) (A B C : addr) (N : Z) :
  0 <= N -> (0 < w)%nat -> N mod Z.of_nat w = 0 ->
  Forall (in_bounds 1 A B C N)
    (chunk_log (ev_kr_vec w A B C) (Z.of_nat w) (Z.to_nat (N / Z.of_nat w))).
Proof.
  intros HN Hw Hmod. pose proof (chunks_exact N w HN Hw Hmod) as HK.
  apply chunk_log_Forall. intros k Hk.
  unfold ev_kr_vec, ev_sse. log_in_bounds.
Qed.

Lemma in_bounds_sse (A B C : addr) (N : Z) :
  0 <= N -> N mod 16 = 0 ->
  Forall (in_bounds 2 A B C N) (chunk_log (ev_sse A B C) 16 (Z.to_nat (N / 16))).
Proof.
  intros HN Hmod. pose proof (chunks_exact N 16 HN ltac:(lia) Hmod) as HK.
  change (Z.of_nat 16) with 16 in HK.
  apply chunk_log_Forall. intros k Hk.
  unfold ev_kr_vec, ev_sse. log_in_bounds.
Qed.

Lemma in_bounds_avx (A B C : addr) (N : Z) :
  0 <= N -> N mod 32 = 0 ->
  Forall (in_bounds 2 A B C N) (chunk_log (ev_avx A B C) 32 (Z.to_nat (N / 32))).
Proof.
  intros HN Hmod. pose proof (chunks_exact N 32 HN ltac:(lia) Hmod) as HK.
  change (Z.of_nat 32) with 32 in HK.
  apply chunk_log_Forall. intros k Hk.
  unfold ev_avx. log_in_bounds.
Qed.

(** The chunk of a pixel: its index and the offset of the pixel in it. *)
Lemma chunk_of (x N w : Z) :
  0 < w -> N mod w = 0 -> 0 <= x < N ->
  exists q r,
    x = w * q + r /\ 0 <= r < w /\ 0 <= q
    /\ (Z.to_nat q < Z.to_nat (N / w))%nat
    /\ Z.of_nat (Z.to_nat q) = q.
Proof.
  intros Hw Hmod Hx. exists (x / w), (x mod w).
  pose proof (Z.div_mod x w ltac:(lia)) as Hdm.
  pose proof (Z.mod_pos_bound x w Hw) as Hr.
  assert (Hq : 0 <= x / w) by (apply Z.div_pos; lia).
  assert (HqN : x / w < N / w).
  { apply Z.div_lt_upper_bound; [lia|].
    pose proof (Z.div_mod N w ltac:(lia)). lia. }
  repeat split; try lia.
Qed.

Lemma covered_kr_vec (w : nat) (A B C : addr) (N x : Z) :
  (0 < w)%nat -> N mod Z.of_nat w = 0 -> 0 <= x < N ->
  covered (chunk_log (ev_kr_vec w A B C) (Z.of_nat w) (Z.to_nat (N / Z.of_nat w)))
    (C + x) 1.
Proof.
  intros Hw Hmod Hx.
  destruct (chunk_of x N (Z.of_nat w) ltac:(lia) Hmod Hx)
    as (q & r & -> & Hr & Hq & HqK & Hqq).
  exists (C + Z.of_nat w * q), w. split; [|lia].
  apply (chunk_log_In _ _ _ (Z.to_nat q)); [exact HqK|].
  rewrite Hqq. left. reflexivity.
Qed.

Lemma covered_sse (A B C : addr) (N x : Z) :
  N mod 16 = 0 -> 0 <= x < N ->
  covered (chunk_log (ev_sse A B C) 16 (Z.to_nat (N / 16))) (C + 2 * x) 2.
Proof.
  intros Hmod Hx.
  destruct (chunk_of x N 16 ltac:(lia) Hmod Hx) as (q & r & -> & Hr & Hq & HqK & Hqq).
  destruct (Z.lt_ge_cases r 8).
  - exists (C + 2 * (16 * q)), 16%nat. split; [|lia].
    apply (chunk_log_In _ _ _ (Z.to_nat q)); [exact HqK|].
    rewrite Hqq. right. left. reflexivity.
  - exists (C + 2 * (16 * q + 8)), 16%nat. split; [|lia].
    apply (chunk_log_In _ _ _ (Z.to_nat q)); [exact HqK|].
    rewrite Hqq. left. reflexivity.
Qed.

Lemma covered_avx (A B C : addr) (N x : Z) :
  N mod 32 = 0 -> 0 <= x < N ->
  covered (chunk_log (ev_avx A B C) 32 (Z.to_nat (N / 32))) (C + 2 * x) 2.
Proof.
  intros Hmod Hx.
  destruct (chunk_of x N 32 ltac:(lia) Hmod Hx) as (q & r & -> & Hr & Hq & HqK & Hqq).
  destruct (Z.lt_ge_cases r 16).
  - exists (C + 2 * (32 * q)), 32%nat. split; [|lia].
    apply (chunk_log_In _ _ _ (Z.to_nat q)); [exact HqK|].
    rewrite Hqq. right. left. reflexivity.
  - exists (C + 2 * (32 * q + 16)), 32%nat. split; [|lia].
    apply (chunk_log_In _ _ _ (Z.to_nat q)); [exact HqK|].
    rewrite Hqq. left. reflexivity.
Qed.

(** ** The output buffer, pixel by pixel *)

Lemma chunk_one (l : list Z) (i : nat) :
  (i < length l)%nat -> firstn 1 (skipn i l) = [nth i l 0].
Proof.
  revert l; induction i as [|i IH]; intros [|x l] H; simpl in H; try lia.
  - reflexivity.
  - apply IH. lia.
Qed.

(** Once the output of a kernel is written over [C], the element [i] of [C]
    is the pixel computed from [la[i]] and [lb[i]]. *)
Lemma pixel_at (px : Z -> Z -> list Z) (esz : nat) (m m' : memory) (C : addr)
    (la lb : list Z) (i : nat) :
  (forall a b, length (px a b) = esz) ->
  mem_eq m' (write_bytes m C (pixels px la lb)) ->
  (i < length la)%nat -> (i < length lb)%nat ->
  read_bytes m' (C + Z.of_nat esz * Z.of_nat i) esz
  = Some (px (nth i la 0) (nth i lb 0)).
Proof.
  intros Hpx Hm Ha Hb.
  rewrite (read_bytes_ext _ _ _ _ Hm).
  pose proof (read_bytes_write m C (pixels px la lb)) as Hout.
  rewrite <- Nat2Z.inj_mul.
  rewrite (read_bytes_chunk _ _ _ (esz * i) esz _ Hout).
  - replace esz with (esz * 1)%nat at 1 by lia.
    rewrite (pixels_chunk _ _ Hpx), !chunk_one by assumption.
    unfold pixels. cbn [map2 concat]. now rewrite app_nil_r.
  - rewrite (pixels_length _ _ Hpx). nia.
Qed.

Lemma buffers_lengths (esz : Z) (m : memory) (A B C : addr) (N : Z) (la lb : list Z) :
  buffers esz m A B C N la lb ->
  length la = Z.to_nat N /\ length lb = Z.to_nat N.
Proof.
  intros H. split; eapply read_bytes_length; apply H.
Qed.

Lemma nth_is_byte (l : list Z) (i : nat) :
  forallb is_byte l = true -> 0 <= nth i l 0 < 256.
Proof.
  revert i; induction l as [|x l IH]; intros [|i] H; simpl in *; try lia.
  - apply andb_true_iff in H as [H _]. now apply is_byte_spec.
  - apply andb_true_iff in H as [_ H]. now apply IH.
Qed.

(** ** What a run of a kernel leaves behind *)

Lemma pixel_length (k : kernel) (a b : Z) : length (pixel k a b) = elem_size k.
Proof. now destruct k. Qed.

Lemma byte_at (m : memory) (p : addr) (v : Z) :
  read_bytes m p 1 = Some [v] -> m p = Some v.
Proof.
  intros H. pose proof (read_bytes_nth _ _ _ _ H 0%nat ltac:(lia)) as H0.
  now rewrite Z.add_0_r in H0.
Qed.

Lemma lanes_px_add (a b : Z) :
  0 <= a + b < 65536 -> epu16_lanes (px_add a b) = [a + b].
Proof.
  intros H. unfold px_add. cbn [le_encode epu16_lanes le_decode]. f_equal.
  rewrite (Z.mod_small ((a + b) / 256) 256)
    by (split; [apply Z.div_pos; lia | apply Z.div_lt_upper_bound; lia]).
  rewrite (Z.div_mod (a + b) 256) at 3 by lia. lia.
Qed.

(** The frame of a run whose result is the output written over [C]: the
    inputs and the memory outside of [C] are as before, and [C] holds the
    output. *)
Lemma frame_of_write (esz : nat) (m m' : memory) (A B C : addr) (N : Z)
    (la lb out : list Z) :
  0 <= N ->
  buffers (Z.of_nat esz) m A B C N la lb ->
  length out = (esz * Z.to_nat N)%nat ->
  mem_eq m' (write_bytes m C out) ->
  read_bytes m' A (Z.to_nat N) = Some la
  /\ read_bytes m' B (Z.to_nat N) = Some lb
  /\ read_bytes m' C (esz * Z.to_nat N) = Some out
  /\ (forall a, a < C \/ C + Z.of_nat esz * N <= a -> m' a = m a).
Proof.
  intros HN Hb Hlen Hm.
  assert (HlenZ : Z.of_nat (length out) = Z.of_nat esz * N).
  { rewrite Hlen, Nat2Z.inj_mul, Z2Nat.id by lia. reflexivity. }
  repeat split.
  - rewrite (read_bytes_ext _ _ _ _ Hm), read_bytes_write_disjoint; [apply Hb|].
    rewrite HlenZ, Z2Nat.id by lia. apply Hb.
  - rewrite (read_bytes_ext _ _ _ _ Hm), read_bytes_write_disjoint; [apply Hb|].
    rewrite HlenZ, Z2Nat.id by lia. apply Hb.
  - rewrite (read_bytes_ext _ _ _ _ Hm), <- Hlen. apply read_bytes_write.
  - intros a Ha. rewrite Hm. apply write_bytes_outside. lia.
Qed.

Lemma written_frame (k : kernel) (m m' : memory) (A B C : addr) (N : Z)
    (la lb : list Z) :
  0 <= N ->
  buffers (Z.of_nat (elem_size k)) m A B C N la lb ->
  mem_eq m' (write_bytes m C (pixels (pixel k) la lb)) ->
  read_bytes m' A (Z.to_nat N) = Some la
  /\ read_bytes m' B (Z.to_nat N) = Some lb
  /\ read_bytes m' C (elem_size k * Z.to_nat N) = Some (pixels (pixel k) la lb)
  /\ (forall a, a < C \/ C + Z.of_nat (elem_size k) * N <= a -> m' a = m a).
Proof.
  intros HN Hb Hm. apply frame_of_write; try assumption.
  destruct (buffers_lengths _ _ _ _ _ _ _ _ Hb) as [La Lb].
  rewrite (pixels_length _ _ (pixel_length k)), La, Lb. now rewrite Nat.min_id.
Qed.

(** The scalar strategy of either kernel, on any call that meets the
    contract: the run ends, the output is written over [C], and the log
    records one in-bounds store per pixel. *)
Lemma scalar_run (k : kernel) (fuel : nat) (A : addr) (width height : Z) (B C : addr)
    (s : state) (la lb : list Z) :
  buffers (Z.of_nat (elem_size k)) (mem s) A B C (uint (width * height)) la lb ->
  uint (width * height) < Z.of_nat fuel ->
  exists s' evs,
    kernel_fn k NSU fuel A width height B C s = Ok (tt, s')
    /\ mem_eq (mem s') (write_bytes (mem s) C (pixels (pixel k) la lb))
    /\ log s' = evs ++ log s
    /\ Forall (in_bounds (Z.of_nat (elem_size k)) A B C (uint (width * height))) evs
    /\ stores evs = Z.to_nat (uint (width * height))
    /\ (forall i, 0 <= i < uint (width * height) ->
          In (Store (C + Z.of_nat (elem_size k) * i) (elem_size k)) evs).
Proof.
  intros Hb Hfuel. pose proof (uint_range (width * height)) as HN.
  destruct k; cbn [kernel_fn elem_size pixel] in *.
  - destruct (img_add_kr_nsu_run fuel A width height B C s la lb Hb Hfuel)
      as (s' & Hrun & Hmem & Hlog).
    exists s', (chunk_log (ev_kr_nsu A B C) 1 (Z.to_nat (uint (width * height)))).
    repeat split; try assumption.
    + apply in_bounds_kr_nsu. lia.
    + rewrite (stores_chunk_log _ _ _ 1%nat); [lia|reflexivity].
    + intros i Hi. apply (chunk_log_In _ _ _ (Z.to_nat i)); [lia|].
      rewrite Z2Nat.id by lia. change (Z.of_nat 1) with 1. left. reflexivity.
  - destruct (img_add_nsu_run fuel A width height B C s la lb Hb Hfuel)
      as (s' & Hrun & Hmem & Hlog).
    exists s', (chunk_log (ev_nsu A B C) 1 (Z.to_nat (uint (width * height)))).
    repeat split; try assumption.
    + apply in_bounds_nsu. lia.
    + rewrite (stores_chunk_log _ _ _ 1%nat); [lia|reflexivity].
    + intros i Hi. apply (chunk_log_In _ _ _ (Z.to_nat i)); [lia|].
      rewrite Z2Nat.id by lia. change (Z.of_nat 2) with 2. left.
      unfold ev_nsu. do 2 f_equal. lia.
Qed.

(** The AVX strategy of the widening kernel, when the pixel count is a
    multiple of 32: the sums are left block by block in the order of
    [avx_perm]. *)
Lemma avx_run (fuel : nat) (A : addr) (width height : Z) (B C : addr)
    (s : state) (la lb : list Z) :
  buffers 2 (mem s) A B C (uint (width * height)) la lb ->
  uint (width * height) mod 32 = 0 ->
  uint (width * height) < Z.of_nat fuel ->
  exists s' evs,
    kernel_fn Widening WIN_AVX fuel A width height B C s = Ok (tt, s')
    /\ mem_eq (mem s') (write_bytes (mem s) C (output Widening WIN_AVX la lb))
    /\ log s' = evs ++ log s
    /\ Forall (in_bounds 2 A B C (uint (width * height))) evs.
Proof.
  intros Hb Hmod Hfuel. pose proof (uint_range (width * height)) as HN.
  destruct (img_add_avx_run fuel A width height B C s la lb Hb Hmod Hfuel)
    as (s' & Hrun & Hmem & Hlog).
  eexists s', _. repeat split; try eassumption.
  - cbn [output].
    replace (length la / 32)%nat with (Z.to_nat (uint (width * height) / 32)); [exact Hmem|].
    rewrite (read_bytes_length _ _ _ _ (buf_A Hb)).
    change 32%nat with (Z.to_nat 32). now rewrite Z2Nat.inj_div by lia.
  - apply in_bounds_avx; [lia|exact Hmod].
Qed.

Lemma output_length (k : kernel) (st : strategy) (m : memory) (A B C : addr)
    (N : Z) (la lb : list Z) :
  0 <= N ->
  buffers (Z.of_nat (elem_size k)) m A B C N la lb ->
  N mod lanes st = 0 ->
  length (output k st la lb) = (elem_size k * Z.to_nat N)%nat.
Proof.
  intros HN Hb Hmod.
  destruct (buffers_lengths _ _ _ _ _ _ _ _ Hb) as [La Lb].
  assert (Hpx : length (pixels (pixel k) la lb) = (elem_size k * Z.to_nat N)%nat).
  { rewrite (pixels_length _ _ (pixel_length k)), La, Lb. now rewrite Nat.min_id. }
  destruct k, st; try exact Hpx.
  cbn [output lanes elem_size] in *.
  pose proof (chunks_exact N 32 HN ltac:(lia) Hmod) as HK.
  assert (HK' : Z.to_nat N = (32 * Z.to_nat (N / 32))%nat)
    by (rewrite HK at 1; apply Nat2Z.id).
  rewrite La, HK', Nat.mul_comm, Nat.div_mul by lia.
  rewrite (pixels_length _ _ px_add_length), !avx_blocks_length by lia.
  rewrite Nat.min_id. lia.
Qed.

(** Any strategy of either kernel, on a call that meets the contract with a
    pixel count that is a multiple of the lanes of the strategy: the run
    ends, its output is written over [C], every access is in bounds and
    every element of [C] is stored to. *)
Lemma strategy_run (k : kernel) (st : strategy) (fuel : nat) (A : addr)
    (width height : Z) (B C : addr) (s : state) (la lb : list Z) :
  buffers (Z.of_nat (elem_size k)) (mem s) A B C (uint (width * height)) la lb ->
  uint (width * height) mod lanes st = 0 ->
  uint (width * height) < Z.of_nat fuel ->
  exists s' evs,
    kernel_fn k st fuel A width height B C s = Ok (tt, s')
    /\ mem_eq (mem s') (write_bytes (mem s) C (output k st la lb))
    /\ log s' = evs ++ log s
    /\ Forall (in_bounds (Z.of_nat (elem_size k)) A B C (uint (width * height))) evs
    /\ (forall i, 0 <= i < uint (width * height) ->
          covered evs (C + Z.of_nat (elem_size k) * i) (Z.of_nat (elem_size k))).
Proof.
  intros Hb Hmod Hfuel. pose proof (uint_range (width * height)) as HN.
  destruct k, st; cbn [kernel_fn elem_size lanes output pixel] in *.
  - destruct (img_add_kr_sse_run fuel A width height B C s la lb Hb Hmod Hfuel)
      as (s' & Hrun & Hmem & Hlog).
    eexists s', _. repeat split; try eassumption.
    + apply (in_bounds_kr_vec 16); [lia|lia|exact Hmod].
    + intros i Hi. change (Z.of_nat 1) with 1. rewrite Z.mul_1_l.
      apply (covered_kr_vec 16); [lia|exact Hmod|exact Hi].
  - destruct (img_add_kr_avx_run fuel A width height B C s la lb Hb Hmod Hfuel)
      as (s' & Hrun & Hmem & Hlog).
    eexists s', _. repeat split; try eassumption.
    + apply (in_bounds_kr_vec 32); [lia|lia|exact Hmod].
    + intros i Hi. change (Z.of_nat 1) with 1. rewrite Z.mul_1_l.
      apply (covered_kr_vec 32); [lia|exact Hmod|exact Hi].
  - destruct (scalar_run KeepRange fuel A width height B C s la lb Hb Hfuel)
      as (s' & evs & Hrun & Hmem & Hlog & Hin & _ & Hcov).
    exists s', evs. repeat split; try assumption.
    intros i Hi. exists (C + Z.of_nat 1 * i), 1%nat.
    split; [now apply Hcov|lia].
  - destruct (img_add_sse_run fuel A width height B C s la lb Hb Hmod Hfuel)
      as (s' & Hrun & Hmem & Hlog).
    eexists s', _. repeat split; try eassumption.
    + apply in_bounds_sse; [lia|exact Hmod].
    + intros i Hi. now apply covered_sse.
  - destruct (avx_run fuel A width height B C s la lb Hb Hmod Hfuel)
      as (s' & evs & Hrun & Hmem & Hlog & Hin).
    destruct (img_add_avx_run fuel A width height B C s la lb Hb Hmod Hfuel)
      as (s'' & Hrun' & _ & Hlog').
    cbn [kernel_fn] in Hrun. rewrite Hrun in Hrun'. injection Hrun' as <-.
    rewrite Hlog in Hlog'. apply app_inv_tail in Hlog'. subst evs.
    eexists s', _. repeat split; try eassumption.
    intros i Hi. now apply covered_avx.
  - destruct (scalar_run Widening fuel A width height B C s la lb Hb Hfuel)
      as (s' & evs & Hrun & Hmem & Hlog & Hin & _ & Hcov).
    exists s', evs. repeat split; try assumption.
    intros i Hi. exists (C + Z.of_nat 2 * i), 2%nat.
    split; [now apply Hcov|lia].
Qed.

(** The frame of any strategy: [A] and [B] are as before, [C] holds the
    output of the strategy, every element of [C] is stored to, no store
    leaves [C[0..N)] and no other byte of the memory changes. *)
Lemma kernel_frame (k : kernel) (st : strategy) (fuel : nat) (A : addr)
    (width height : Z) (B C : addr) (s : state) (la lb : list Z) :
  buffers (Z.of_nat (elem_size k)) (mem s) A B C (uint (width * height)) la lb ->
  uint (width * height) mod lanes st = 0 ->
  uint (width * height) < Z.of_nat fuel ->
  exists s' evs,
    kernel_fn k st fuel A width height B C s = Ok (tt, s')
    /\ log s' = evs ++ log s
    /\ read_bytes (mem s') A (Z.to_nat (uint (width * height))) = Some la
    /\ read_bytes (mem s') B (Z.to_nat (uint (width * height))) = Some lb
    /\ read_bytes (mem s') C (elem_size k * Z.to_nat (uint (width * height)))
       = Some (output k st la lb)
    /\ (forall i, 0 <= i < uint (width * height) ->
          covered evs (C + Z.of_nat (elem_size k) * i) (Z.of_nat (elem_size k)))
    /\ Forall (in_bounds (Z.of_nat (elem_size k)) A B C (uint (width * height))) evs
    /\ (forall a, a < C \/ C + Z.of_nat (elem_size k) * uint (width * height) <= a ->
          mem s' a = mem s a).
Proof.
  intros Hb Hmod Hfuel. pose proof (uint_range (width * height)) as HN.
  destruct (strategy_run k st fuel A width height B C s la lb Hb Hmod Hfuel)
    as (s' & evs & Hrun & Hmem & Hlog & Hin & Hcov).
  destruct (frame_of_write (elem_size k) (mem s) (mem s') A B C _ la lb
              (output k st la lb) (proj1 HN) Hb
              (output_length k st _ A B C _ la lb (proj1 HN) Hb Hmod) Hmem)
    as (HA & HB & HC & Hout).
  exists s', evs. repeat split; assumption.
Qed.

(** ** The saturating and the widening sum, element by element *)

Lemma input_at (m : memory) (P : addr) (n : nat) (l : list Z) (i : Z) :
  read_bytes m P n = Some l -> 0 <= i < Z.of_nat n ->
  m (P + i) = Some (nth (Z.to_nat i) l 0).
Proof.
  intros H Hi. rewrite <- (read_bytes_nth _ _ _ _ H (Z.to_nat i)) by lia.
  f_equal. lia.
Qed.

Lemma kr_nsu_run_elements (fuel : nat) (A : addr) (width height : Z) (B C : addr)
    (s : state) (la lb : list Z) :
  buffers 1 (mem s) A B C (uint (width * height)) la lb ->
  uint (width * height) < Z.of_nat fuel ->
  exists s',
    img_add_kr_nsu fuel A width height B C s = Ok (tt, s')
    /\ forall i, 0 <= i < uint (width * height) ->
         mem s' (C + i)
         = Some (Z.min (nth (Z.to_nat i) la 0 + nth (Z.to_nat i) lb 0) 255).
Proof.
  intros Hb Hfuel.
  destruct (scalar_run KeepRange fuel A width height B C s la lb Hb Hfuel)
    as (s' & evs & Hrun & Hmem & _).
  exists s'. split; [exact Hrun|]. intros i Hi.
  destruct (buffers_lengths _ _ _ _ _ _ _ _ Hb) as [La Lb].
  apply byte_at.
  pose proof (pixel_at px_kr 1 (mem s) (mem s') C la lb (Z.to_nat i)
                px_kr_length Hmem ltac:(lia) ltac:(lia)) as Hpx.
  rewrite Z2Nat.id in Hpx by lia. change (Z.of_nat 1) with 1 in Hpx.
  now rewrite Z.mul_1_l in Hpx.
Qed.

Lemma nsu_run_elements (fuel : nat) (A : addr) (width height : Z) (B C : addr)
    (s : state) (la lb : list Z) :
  buffers 2 (mem s) A B C (uint (width * height)) la lb ->
  uint (width * height) < Z.of_nat fuel ->
  exists s',
    img_add_nsu fuel A width height B C s = Ok (tt, s')
    /\ forall i, 0 <= i < uint (width * height) ->
         read_ushorts (mem s') (C + sizeof_ushort * i) 1
         = Some [nth (Z.to_nat i) la 0 + nth (Z.to_nat i) lb 0].
Proof.
  intros Hb Hfuel.
  destruct (scalar_run Widening fuel A width height B C s la lb Hb Hfuel)
    as (s' & evs & Hrun & Hmem & _).
  exists s'. split; [exact Hrun|]. intros i Hi.
  destruct (buffers_lengths _ _ _ _ _ _ _ _ Hb) as [La Lb].
  pose proof (nth_is_byte la (Z.to_nat i) (buf_la Hb)) as Ha.
  pose proof (nth_is_byte lb (Z.to_nat i) (buf_lb Hb)) as Hb'.
  pose proof (pixel_at px_add 2 (mem s) (mem s') C la lb (Z.to_nat i)
                px_add_length Hmem ltac:(lia) ltac:(lia)) as Hpx.
  rewrite Z2Nat.id in Hpx by lia. change (Z.of_nat 2) with 2 in Hpx.
  unfold read_ushorts, sizeof_ushort. change (2 * 1)%nat with 2%nat.
  rewrite Hpx. cbn [option_map]. now rewrite lanes_px_add by lia.
Qed.

(** ** A pixel count that does not fit 32 bits *)

Lemma read_bytes_repeat (m : memory) (c : Z) (n : nat) (p : addr) :
  (forall a, p <= a < p + Z.of_nat n -> m a = Some c) ->
  read_bytes m p n = Some (repeat c n).
Proof.
  revert p; induction n as [|n IH]; intros p H; [reflexivity|].
  cbn [read_bytes repeat]. rewrite (H p) by lia.
  rewrite IH; [reflexivity|]. intros a Ha. apply H. lia.
Qed.

Lemma repeat_bytes (c : Z) (n : nat) :
  is_byte c = true -> forallb is_byte (repeat c n) = true.
Proof.
  intros H. induction n as [|n IH]; [reflexivity|]. cbn [repeat forallb].
  now rewrite H, IH.
Qed.

Lemma huge_inputs (a : Z) :
  huge_A <= a < huge_B + 4294967296 -> huge_mem a = Some 1.
Proof.
  intros Ha. unfold huge_mem.
  replace ((huge_A <=? a) && (a <? huge_B + 4294967296)) with true; [reflexivity|].
  symmetry. apply andb_true_iff. split; [apply Z.leb_le|apply Z.ltb_lt]; lia.
Qed.

Lemma huge_output (a : Z) :
  huge_C <= a < huge_C + 8589934592 -> huge_mem a = Some 0.
Proof.
  intros Ha. unfold huge_mem, huge_A, huge_B, huge_C in *.
  replace ((4294967296 <=? a) && (a <? 8589934592 + 4294967296)) with false.
  - replace ((17179869184 <=? a) && (a <? 17179869184 + 8589934592)) with true;
      [reflexivity|].
    symmetry. apply andb_true_iff. split; [apply Z.leb_le|apply Z.ltb_lt]; lia.
  - symmetry. apply andb_false_iff. right. apply Z.ltb_ge. lia.
Qed.

(** [huge_mem] meets the contract of a call of either kernel with
    [width = height = 65536], for the product [width * height]. *)
Lemma huge_buffers (k : kernel) :
  buffers (Z.of_nat (elem_size k)) huge_mem huge_A huge_B huge_C (65536 * 65536)
    (repeat 1 (Z.to_nat (65536 * 65536))) (repeat 1 (Z.to_nat (65536 * 65536))).
Proof.
  assert (H1 : Z.of_nat (elem_size k) = 1 \/ Z.of_nat (elem_size k) = 2)
    by (destruct k; [left|right]; reflexivity).
  set (N := 65536 * 65536) in *.
  assert (HN : N = 4294967296) by reflexivity.
  clearbody N.
  constructor.
  - apply read_bytes_repeat. intros a Ha. apply huge_inputs.
    unfold huge_A, huge_B in *. lia.
  - apply read_bytes_repeat. intros a Ha. apply huge_inputs.
    unfold huge_A, huge_B in *. lia.
  - now apply repeat_bytes.
  - now apply repeat_bytes.
  - apply allocated_spec. intros a Ha. rewrite huge_output; [discriminate|].
    unfold huge_C in *. lia.
  - unfold disjoint, huge_A, huge_C. apply orb_true_iff. right. apply Z.leb_le. lia.
  - unfold disjoint, huge_B, huge_C. apply orb_true_iff. right. apply Z.leb_le. lia.
Qed.

(** With [width = height = 65536] the pixel count wraps to 0: every strategy
    of either kernel returns at once, in the state it was called in. *)
Lemma huge_run (k : kernel) (st : strategy) (fuel : nat) :
  kernel_fn k st (S fuel) huge_A 65536 65536 huge_B huge_C huge_state
  = Ok (tt, huge_state).
Proof. destruct k, st; reflexivity. Qed.

(** C2: on every call that meets the contract, with N the pixel count
    [width * height] as the kernel computes it, the scalar saturating kernel
    [img_add_kr_nsu] ends and leaves [C[i] = min(A[i] + B[i], 255)] at every
    index [i] of [0, N); no output value exceeds 255. *)
Theorem kr_nsu_saturating_sum (fuel : nat) (A : addr) (width height : Z) (B C : addr)
    (s : state) (la lb : list Z) :
  buffers 1 (mem s) A B C (uint (width * height)) la lb ->
  uint (width * height) < Z.of_nat fuel ->
  exists s',
    img_add_kr_nsu fuel A width height B C s = Ok (tt, s')
    /\ forall i, 0 <= i < uint (width * height) ->
         exists a b,
           mem s (A + i) = Some a
           /\ mem s (B + i) = Some b
           /\ mem s' (C + i) = Some (Z.min (a + b) 255)
           /\ 0 <= Z.min (a + b) 255 <= 255.
Proof.
  intros Hb Hfuel.
  destruct (kr_nsu_run_elements fuel A width height B C s la lb Hb Hfuel)
    as (s' & Hrun & Hel).
  exists s'. split; [exact Hrun|]. intros i Hi.
  pose proof (uint_range (width * height)) as HN.
  exists (nth (Z.to_nat i) la 0), (nth (Z.to_nat i) lb 0).
  pose proof (nth_is_byte la (Z.to_nat i) (buf_la Hb)) as Ha.
  pose proof (nth_is_byte lb (Z.to_nat i) (buf_lb Hb)) as Hb'.
  repeat split; try lia.
  - apply (input_at _ _ _ _ _ (buf_A Hb)). lia.
  - apply (input_at _ _ _ _ _ (buf_B Hb)). lia.
  - now apply Hel.
Qed.

Lemma kr_nsu_saturating_sum_witness :
  buffers 1 (mem (example_state [10; 250; 0; 255] [20; 10; 0; 1] 4))
    4096 8192 12288 (uint (4 * 1)) [10; 250; 0; 255] [20; 10; 0; 1]
  /\ uint (4 * 1) < Z.of_nat 5
  /\ exists s',
       img_add_kr_nsu 5 4096 4 1 8192 12288
         (example_state [10; 250; 0; 255] [20; 10; 0; 1] 4) = Ok (tt, s')
       /\ forall i, 0 <= i < uint (4 * 1) ->
            exists a b,
              mem (example_state [10; 250; 0; 255] [20; 10; 0; 1] 4) (4096 + i) = Some a
              /\ mem (example_state [10; 250; 0; 255] [20; 10; 0; 1] 4) (8192 + i) = Some b
              /\ mem s' (12288 + i) = Some (Z.min (a + b) 255)
              /\ 0 <= Z.min (a + b) 255 <= 255.
Proof.
  assert (Hb : buffers 1 (mem (example_state [10; 250; 0; 255] [20; 10; 0; 1] 4))
                 4096 8192 12288 (uint (4 * 1)) [10; 250; 0; 255] [20; 10; 0; 1])
    by (constructor; reflexivity).
  assert (Hf : uint (4 * 1) < Z.of_nat 5) by reflexivity.
  split; [exact Hb|]. split; [exact Hf|].
  exact (kr_nsu_saturating_sum 5 4096 4 1 8192 12288 _ _ _ Hb Hf).
Defined.

(** C2, as stated for the product [N = width * height]: with
    [width = height = 65536] the buffers [A] and [B] hold [N = 2^32] pixels
    that are all 1 and [C] has room for [N] elements, yet the kernel,
    whatever the fuel, returns without a store: [C[0]] is still 0, not
    [min(A[0] + B[0], 255) = 2]. *)
Lemma kr_nsu_product_counterexample :
  exists s' la lb,
    buffers 1 (mem huge_state) huge_A huge_B huge_C (65536 * 65536) la lb
    /\ (forall fuel,
          img_add_kr_nsu (S fuel) huge_A 65536 65536 huge_B huge_C huge_state
          = Ok (tt, s'))
    /\ 0 <= 0 < 65536 * 65536
    /\ mem huge_state (huge_A + 0) = Some 1
    /\ mem huge_state (huge_B + 0) = Some 1
    /\ mem s' (huge_C + 0) = Some 0
    /\ Z.min (1 + 1) 255 = 2.
Proof.
  exists huge_state, (repeat 1 (Z.to_nat (65536 * 65536))),
    (repeat 1 (Z.to_nat (65536 * 65536))).
  split; [exact (huge_buffers KeepRange)|].
  split; [exact (huge_run KeepRange NSU)|].
  repeat split; reflexivity.
Qed.

(** C3: on every call that meets the contract, the scalar widening kernel
    [img_add_nsu] ends and leaves the exact sum [C[i] = A[i] + B[i]] in the
    16-bit element [i] of [C], for every [i] of [0, N); the sum lies in
    [0, 510] and is not reduced by the conversion to [unsigned short]. *)
Theorem nsu_exact_sum (fuel : nat) (A : addr) (width height : Z) (B C : addr)
    (s : state) (la lb : list Z) :
  buffers 2 (mem s) A B C (uint (width * height)) la lb ->
  uint (width * height) < Z.of_nat fuel ->
  exists s',
    img_add_nsu fuel A width height B C s = Ok (tt, s')
    /\ forall i, 0 <= i < uint (width * height) ->
         exists a b,
           mem s (A + i) = Some a
           /\ mem s (B + i) = Some b
           /\ read_ushorts (mem s') (C + sizeof_ushort * i) 1 = Some [a + b]
           /\ 0 <= a + b <= 510
           /\ ushort (a + b) = a + b.
Proof.
  intros Hb Hfuel.
  destruct (nsu_run_elements fuel A width height B C s la lb Hb Hfuel)
    as (s' & Hrun & Hel).
  exists s'. split; [exact Hrun|]. intros i Hi.
  pose proof (uint_range (width * height)) as HN.
  exists (nth (Z.to_nat i) la 0), (nth (Z.to_nat i) lb 0).
  pose proof (nth_is_byte la (Z.to_nat i) (buf_la Hb)) as Ha.
  pose proof (nth_is_byte lb (Z.to_nat i) (buf_lb Hb)) as Hb'.
  repeat split; try lia.
  - apply (input_at _ _ _ _ _ (buf_A Hb)). lia.
  - apply (input_at _ _ _ _ _ (buf_B Hb)). lia.
  - now apply Hel.
  - unfold ushort. change (2 ^ 16) with 65536. apply Z.mod_small. lia.
Qed.

Lemma nsu_exact_sum_witness :
  buffers 2 (mem (example_state [10; 250; 0; 255] [20; 10; 0; 1] 8))
    4096 8192 12288 (uint (4 * 1)) [10; 250; 0; 255] [20; 10; 0; 1]
  /\ uint (4 * 1) < Z.of_nat 5
  /\ exists s',
       img_add_nsu 5 4096 4 1 8192 12288
         (example_state [10; 250; 0; 255] [20; 10; 0; 1] 8) = Ok (tt, s')
       /\ forall i, 0 <= i < uint (4 * 1) ->
            exists a b,
              mem (example_state [10; 250; 0; 255] [20; 10; 0; 1] 8) (4096 + i) = Some a
              /\ mem (example_state [10; 250; 0; 255] [20; 10; 0; 1] 8) (8192 + i) = Some b
              /\ read_ushorts (mem s') (12288 + sizeof_ushort * i) 1 = Some [a + b]
              /\ 0 <= a + b <= 510
              /\ ushort (a + b) = a + b.
Proof.
  assert (Hb : buffers 2 (mem (example_state [10; 250; 0; 255] [20; 10; 0; 1] 8))
                 4096 8192 12288 (uint (4 * 1)) [10; 250; 0; 255] [20; 10; 0; 1])
    by (constructor; reflexivity).
  assert (Hf : uint (4 * 1) < Z.of_nat 5) by reflexivity.
  split; [exact Hb|]. split; [exact Hf|].
  exact (nsu_exact_sum 5 4096 4 1 8192 12288 _ _ _ Hb Hf).
Defined.

(** C3, as stated for the product [N = width * height]: with
    [width = height = 65536] the buffers [A] and [B] hold [N = 2^32] pixels
    that are all 1 and [C] has room for [N] [unsigned short]s, yet the
    kernel, whatever the fuel, returns without a store: [C[0]] is still 0,
    not [A[0] + B[0] = 2]. *)
Lemma nsu_product_counterexample :
  exists s' la lb,
    buffers 2 (mem huge_state) huge_A huge_B huge_C (65536 * 65536) la lb
    /\ (forall fuel,
          img_add_nsu (S fuel) huge_A 65536 65536 huge_B huge_C huge_state
          = Ok (tt, s'))
    /\ 0 <= 0 < 65536 * 65536
    /\ mem huge_state (huge_A + 0) = Some 1
    /\ mem huge_state (huge_B + 0) = Some 1
    /\ read_ushorts (mem s') (huge_C + sizeof_ushort * 0) 1 = Some [0]
    /\ 1 + 1 = 2.
Proof.
  exists huge_state, (repeat 1 (Z.to_nat (65536 * 65536))),
    (repeat 1 (Z.to_nat (65536 * 65536))).
  split; [exact (huge_buffers Widening)|].
  split; [exact (huge_run Widening NSU)|].
  repeat split; reflexivity.
Qed.

(** C5: with [width = 4], [height = 1], [A = [10,250,0,255]] and
    [B = [20,10,0,1]], wherever the buffers lie, the saturating kernel
    leaves [C = [30,255,0,255]] and the widening kernel leaves
    [C = [30,260,0,256]]. *)
Theorem concrete_scenario (fuel : nat) (A B C : addr) (s : state) :
  4 < Z.of_nat fuel ->
  (buffers 1 (mem s) A B C 4 [10; 250; 0; 255] [20; 10; 0; 1] ->
   exists s',
     img_add_kr_nsu fuel A 4 1 B C s = Ok (tt, s')
     /\ read_bytes (mem s') C 4 = Some [30; 255; 0; 255])
  /\
  (buffers 2 (mem s) A B C 4 [10; 250; 0; 255] [20; 10; 0; 1] ->
   exists s',
     img_add_nsu fuel A 4 1 B C s = Ok (tt, s')
     /\ read_ushorts (mem s') C 4 = Some [30; 260; 0; 256]).
Proof.
  intros Hfuel. split; intros Hb.
  - destruct (scalar_run KeepRange fuel A 4 1 B C s _ _ Hb Hfuel)
      as (s' & evs & Hrun & Hmem & _).
    exists s'. split; [exact Hrun|].
    now destruct (written_frame KeepRange _ _ A B C 4 _ _ ltac:(lia) Hb Hmem)
      as (_ & _ & HC & _).
  - destruct (scalar_run Widening fuel A 4 1 B C s _ _ Hb Hfuel)
      as (s' & evs & Hrun & Hmem & _).
    exists s'. split; [exact Hrun|].
    destruct (written_frame Widening _ _ A B C 4 _ _ ltac:(lia) Hb Hmem)
      as (_ & _ & HC & _).
    unfold read_ushorts. change (2 * 4)%nat with (elem_size Widening * Z.to_nat 4)%nat.
    now rewrite HC.
Qed.

Lemma concrete_scenario_witness :
  4 < Z.of_nat 5
  /\ (exists s',
        img_add_kr_nsu 5 4096 4 1 8192 12288
          (example_state [10; 250; 0; 255] [20; 10; 0; 1] 8) = Ok (tt, s')
        /\ read_bytes (mem s') 12288 4 = Some [30; 255; 0; 255])
  /\ (exists s',
        img_add_nsu 5 4096 4 1 8192 12288
          (example_state [10; 250; 0; 255] [20; 10; 0; 1] 8) = Ok (tt, s')
        /\ read_ushorts (mem s') 12288 4 = Some [30; 260; 0; 256]).
Proof.
  assert (Hf : 4 < Z.of_nat 5) by reflexivity.
  destruct (concrete_scenario 5 4096 8192 12288
              (example_state [10; 250; 0; 255] [20; 10; 0; 1] 8) Hf) as [Hkr Hadd].
  split; [exact Hf|]. split.
  - apply Hkr. constructor; reflexivity.
  - apply Hadd. constructor; reflexivity.
Defined.

(** C6: when [width * height = 0], every strategy of both kernels ends at
    once in the state it started from, whatever the memory is: nothing is
    written, no access is logged, no access can fault, and the output, read
    back over its zero elements, is the empty sequence. *)
Theorem zero_pixels (k : kernel) (st : strategy) (fuel : nat) (A : addr)
    (width height : Z) (B C : addr) (s : state) :
  width * height = 0 ->
  (0 < fuel)%nat ->
  kernel_fn k st fuel A width height B C s = Ok (tt, s)
  /\ read_bytes (mem s) C (elem_size k * Z.to_nat (uint (width * height))) = Some [].
Proof.
  intros H0 Hfuel. destruct fuel as [|fuel]; [lia|]. split.
  - destruct k, st; cbn [kernel_fn];
      unfold img_add_kr_sse, img_add_kr_avx, img_add_kr_nsu,
        img_add_sse, img_add_avx, img_add_nsu;
      rewrite H0; reflexivity.
  - rewrite H0. now destruct k.
Qed.

Lemma zero_pixels_witness :
  0 * 7 = 0
  /\ (0 < 1)%nat
  /\ kernel_fn Widening WIN_AVX 1 4096 0 7 8192 12288 (mkState empty_mem [])
     = Ok (tt, mkState empty_mem [])
  /\ read_bytes empty_mem 12288 (elem_size Widening * Z.to_nat (uint (0 * 7))) = Some [].
Proof.
  assert (H0 : 0 * 7 = 0) by reflexivity.
  assert (Hf : (0 < 1)%nat) by lia.
  split; [exact H0|]. split; [exact Hf|].
  exact (zero_pixels Widening WIN_AVX 1 4096 0 7 8192 12288 (mkState empty_mem []) H0 Hf).
Defined.



(** ** Frame, locality and pixel count *)

(** C7: on every call of either kernel that meets the contract, whatever
    the strategy, with N the pixel count [(width * height) mod 2^32] a
    multiple of the lanes of the strategy: the call returns, the buffers [A]
    and [B] hold after the call what they held before, [C[0..N)] holds the
    output of the strategy whatever it held before, element by element,
    every element of [C] in [0, N) lies under a store of the run, every
    store lies inside [C[0..N)], and the memory outside [C[0..N)] is
    unchanged. *)
Theorem frame_effect (k : kernel) (st : strategy) (fuel : nat) (A : addr)
    (width height : Z) (B C : addr) (s : state) (la lb : list Z) :
  buffers (Z.of_nat (elem_size k)) (mem s) A B C (uint (width * height)) la lb ->
  uint (width * height) mod lanes st = 0 ->
  uint (width * height) < Z.of_nat fuel ->
  exists s' evs,
    kernel_fn k st fuel A width height B C s = Ok (tt, s')
    /\ log s' = evs ++ log s
    /\ read_bytes (mem s') A (Z.to_nat (uint (width * height))) = Some la
    /\ read_bytes (mem s') B (Z.to_nat (uint (width * height))) = Some lb
    /\ read_bytes (mem s') C (elem_size k * Z.to_nat (uint (width * height)))
       = Some (output k st la lb)
    /\ (forall i, 0 <= i < uint (width * height) ->
          read_bytes (mem s') (C + Z.of_nat (elem_size k) * i) (elem_size k)
          = Some (firstn (elem_size k)
                    (skipn (elem_size k * Z.to_nat i) (output k st la lb)))
          /\ covered evs (C + Z.of_nat (elem_size k) * i) (Z.of_nat (elem_size k)))
    /\ (forall p n, In (Store p n) evs ->
          C <= p /\ p + Z.of_nat n <= C + Z.of_nat (elem_size k) * uint (width * height))
    /\ (forall a, a < C \/ C + Z.of_nat (elem_size k) * uint (width * height) <= a ->
          mem s' a = mem s a).
Proof.
  intros Hb Hmod Hfuel. pose proof (uint_range (width * height)) as HN.
  destruct (kernel_frame k st fuel A width height B C s la lb Hb Hmod Hfuel)
    as (s' & evs & Hrun & Hlog & HA & HB & HC & Hcov & Hin & Hout).
  exists s', evs.
  split; [exact Hrun|]. split; [exact Hlog|]. split; [exact HA|].
  split; [exact HB|]. split; [exact HC|]. split; [|split; [|exact Hout]].
  - intros i Hi. split; [|now apply Hcov].
    pose proof (read_bytes_chunk _ _ _ (elem_size k * Z.to_nat i) (elem_size k) _ HC)
      as Hel.
    rewrite Nat2Z.inj_mul, Z2Nat.id in Hel by lia.
    apply Hel. nia.
  - intros p n Hp. exact (proj1 (Forall_forall _ _) Hin (Store p n) Hp).
Qed.

Lemma frame_effect_witness :
  exists s' evs,
    kernel_fn Widening WIN_SSE 17 4096 16 1 8192 12288
      (example_state (ramp 16) (repeat 250 16) 32) = Ok (tt, s')
    /\ log s' = evs ++ log (example_state (ramp 16) (repeat 250 16) 32)
    /\ read_bytes (mem s') 4096 (Z.to_nat (uint (16 * 1))) = Some (ramp 16)
    /\ read_bytes (mem s') 8192 (Z.to_nat (uint (16 * 1))) = Some (repeat 250 16)
    /\ read_bytes (mem s') 12288 (elem_size Widening * Z.to_nat (uint (16 * 1)))
       = Some (output Widening WIN_SSE (ramp 16) (repeat 250 16))
    /\ (forall i, 0 <= i < uint (16 * 1) ->
          read_bytes (mem s') (12288 + Z.of_nat (elem_size Widening) * i)
            (elem_size Widening)
          = Some (firstn (elem_size Widening)
                    (skipn (elem_size Widening * Z.to_nat i)
                       (output Widening WIN_SSE (ramp 16) (repeat 250 16))))
          /\ covered evs (12288 + Z.of_nat (elem_size Widening) * i)
               (Z.of_nat (elem_size Widening)))
    /\ (forall p n, In (Store p n) evs ->
          12288 <= p
          /\ p + Z.of_nat n <= 12288 + Z.of_nat (elem_size Widening) * uint (16 * 1))
    /\ (forall a, a < 12288 \/ 12288 + Z.of_nat (elem_size Widening) * uint (16 * 1) <= a ->
          mem s' a = mem (example_state (ramp 16) (repeat 250 16) 32) a).
Proof.
  apply (frame_effect Widening WIN_SSE 17 4096 16 1 8192 12288
           (example_state (ramp 16) (repeat 250 16) 32)
           (ramp 16) (repeat 250 16)).
  - constructor; reflexivity.
  - reflexivity.
  - reflexivity.
Defined.

(** C7, as stated for the product [N = width * height]: with
    [width = height = 65536] the buffers meet the contract for [N = 2^32]
    elements, yet every strategy of either kernel, whatever the fuel, returns
    in the state it was called in, with an empty log: element 0 of [C], in
    [0, N), is not stored to and still holds its old contents. *)
Lemma frame_product_counterexample :
  exists s' la lb,
    (forall k, buffers (Z.of_nat (elem_size k)) (mem huge_state)
                 huge_A huge_B huge_C (65536 * 65536) la lb)
    /\ (forall k st fuel,
          kernel_fn k st (S fuel) huge_A 65536 65536 huge_B huge_C huge_state
          = Ok (tt, s'))
    /\ 0 <= 0 < 65536 * 65536
    /\ log s' = []
    /\ mem s' (huge_C + 0) = mem huge_state (huge_C + 0).
Proof.
  exists huge_state, (repeat 1 (Z.to_nat (65536 * 65536))),
    (repeat 1 (Z.to_nat (65536 * 65536))).
  split; [exact huge_buffers|]. split; [exact huge_run|].
  repeat split; reflexivity.
Qed.

(** X14: every strategy of either kernel but [img_add_avx] computes each
    output element from the elements of [A] and [B] of the same index alone:
    two calls with the same [width] and [height] that meet the contract, on
    any two memories and placements of the buffers, both return, and their
    outputs agree at every index where their inputs agree. *)
Theorem outputs_local (k : kernel) (st : strategy) (fuel1 fuel2 : nat)
    (width height : Z)
    (A1 B1 C1 : addr) (s1 : state) (la1 lb1 : list Z)
    (A2 B2 C2 : addr) (s2 : state) (la2 lb2 : list Z) :
  buffers (Z.of_nat (elem_size k)) (mem s1) A1 B1 C1 (uint (width * height)) la1 lb1 ->
  buffers (Z.of_nat (elem_size k)) (mem s2) A2 B2 C2 (uint (width * height)) la2 lb2 ->
  uint (width * height) mod lanes st = 0 ->
  (k = Widening -> st <> WIN_AVX) ->
  uint (width * height) < Z.of_nat fuel1 ->
  uint (width * height) < Z.of_nat fuel2 ->
  exists s1' s2',
    kernel_fn k st fuel1 A1 width height B1 C1 s1 = Ok (tt, s1')
    /\ kernel_fn k st fuel2 A2 width height B2 C2 s2 = Ok (tt, s2')
    /\ (forall i, 0 <= i < uint (width * height) ->
          nth (Z.to_nat i) la1 0 = nth (Z.to_nat i) la2 0 ->
          nth (Z.to_nat i) lb1 0 = nth (Z.to_nat i) lb2 0 ->
          read_bytes (mem s1') (C1 + Z.of_nat (elem_size k) * i) (elem_size k)
          = Some (pixel k (nth (Z.to_nat i) la1 0) (nth (Z.to_nat i) lb1 0))
          /\ read_bytes (mem s2') (C2 + Z.of_nat (elem_size k) * i) (elem_size k)
             = Some (pixel k (nth (Z.to_nat i) la1 0) (nth (Z.to_nat i) lb1 0))).
Proof.
  intros Hb1 Hb2 Hmod Hst Hf1 Hf2. pose proof (uint_range (width * height)) as HN.
  destruct (strategy_run k st fuel1 A1 width height B1 C1 s1 la1 lb1 Hb1 Hmod Hf1)
    as (s1' & evs1 & Hrun1 & Hmem1 & _).
  destruct (strategy_run k st fuel2 A2 width height B2 C2 s2 la2 lb2 Hb2 Hmod Hf2)
    as (s2' & evs2 & Hrun2 & Hmem2 & _).
  assert (Hout : forall la lb, output k st la lb = pixels (pixel k) la lb).
  { intros la lb. destruct k, st; try reflexivity. now destruct Hst. }
  rewrite Hout in Hmem1, Hmem2.
  destruct (buffers_lengths _ _ _ _ _ _ _ _ Hb1) as [La1 Lb1].
  destruct (buffers_lengths _ _ _ _ _ _ _ _ Hb2) as [La2 Lb2].
  exists s1', s2'. split; [exact Hrun1|]. split; [exact Hrun2|].
  intros i Hi Ea Eb.
  pose proof (pixel_at (pixel k) (elem_size k) (mem s1) (mem s1') C1 la1 lb1
                (Z.to_nat i) (pixel_length k) Hmem1 ltac:(lia) ltac:(lia)) as H1.
  pose proof (pixel_at (pixel k) (elem_size k) (mem s2) (mem s2') C2 la2 lb2
                (Z.to_nat i) (pixel_length k) Hmem2 ltac:(lia) ltac:(lia)) as H2.
  rewrite Z2Nat.id in H1, H2 by lia.
  split; [exact H1|]. now rewrite Ea, Eb.
Qed.

Lemma outputs_local_witness :
  exists s1' s2',
    kernel_fn Widening WIN_SSE 17 4096 16 1 8192 12288
      (example_state (ramp 16) (repeat 250 16) 32) = Ok (tt, s1')
    /\ kernel_fn Widening WIN_SSE 20 64 16 1 128 256
         (mkState (alloc_bytes (alloc_bytes (alloc_bytes empty_mem 64 (repeat 3 16))
                                  128 (repeat 250 16)) 256 (repeat 9 32)) [Load 0 1])
       = Ok (tt, s2')
    /\ (forall i, 0 <= i < uint (16 * 1) ->
          nth (Z.to_nat i) (ramp 16) 0 = nth (Z.to_nat i) (repeat 3 16) 0 ->
          nth (Z.to_nat i) (repeat 250 16) 0 = nth (Z.to_nat i) (repeat 250 16) 0 ->
          read_bytes (mem s1') (12288 + Z.of_nat (elem_size Widening) * i)
            (elem_size Widening)
          = Some (pixel Widening (nth (Z.to_nat i) (ramp 16) 0)
                    (nth (Z.to_nat i) (repeat 250 16) 0))
          /\ read_bytes (mem s2') (256 + Z.of_nat (elem_size Widening) * i)
               (elem_size Widening)
             = Some (pixel Widening (nth (Z.to_nat i) (ramp 16) 0)
                       (nth (Z.to_nat i) (repeat 250 16) 0))).
Proof.
  apply (outputs_local Widening WIN_SSE 17 20 16 1).
  - constructor; reflexivity.
  - constructor; reflexivity.
  - reflexivity.
  - discriminate.
  - reflexivity.
  - reflexivity.
Defined.

(** C8: [img_add_avx] does not compute [C[i]] from [A[i]] and [B[i]] alone.
    Two calls with [width = 32], [height = 1] and [B] all zero, on the ramp
    and on the ramp with pixel 16 raised to 99, meet the contract and have
    equal inputs at index 8, yet leave 16 and 99 in [C[8]]: the sum of
    pixel 16. The scalar and the SSE strategy leave 8 in [C[8]] on both. *)
Theorem avx_widening_not_local :
  buffers 2 (mem (example_state (ramp 32) (repeat 0 32) 64))
    4096 8192 12288 (uint (32 * 1)) (ramp 32) (repeat 0 32)
  /\ buffers 2 (mem (example_state ramp_spike (repeat 0 32) 64))
       4096 8192 12288 (uint (32 * 1)) ramp_spike (repeat 0 32)
  /\ nth 8 (ramp 32) 0 = nth 8 ramp_spike 0
  /\ output_ushorts (exec (img_add_avx 33 4096 32 1 8192 12288)
                       (example_state (ramp 32) (repeat 0 32) 64))
       (12288 + sizeof_ushort * 8) 1 = Some [16]
  /\ output_ushorts (exec (img_add_avx 33 4096 32 1 8192 12288)
                       (example_state ramp_spike (repeat 0 32) 64))
       (12288 + sizeof_ushort * 8) 1 = Some [99]
  /\ output_ushorts (exec (img_add_nsu 33 4096 32 1 8192 12288)
                       (example_state (ramp 32) (repeat 0 32) 64))
       (12288 + sizeof_ushort * 8) 1 = Some [8]
  /\ output_ushorts (exec (img_add_nsu 33 4096 32 1 8192 12288)
                       (example_state ramp_spike (repeat 0 32) 64))
       (12288 + sizeof_ushort * 8) 1 = Some [8]
  /\ output_ushorts (exec (img_add_sse 33 4096 32 1 8192 12288)
                       (example_state (ramp 32) (repeat 0 32) 64))
       (12288 + sizeof_ushort * 8) 1 = Some [8]
  /\ output_ushorts (exec (img_add_sse 33 4096 32 1 8192 12288)
                       (example_state ramp_spike (repeat 0 32) 64))
       (12288 + sizeof_ushort * 8) 1 = Some [8].
Proof.
  split; [constructor; reflexivity|]. split; [constructor; reflexivity|].
  repeat split; vm_compute; reflexivity.
Qed.

(** C10: the scalar strategy of either kernel processes
    [(width * height) mod 2^32] pixels, one store each: when the product
    of [width] and [height] is [2^32] or more, fewer pixels than
    [width * height] are processed. *)
Theorem pixel_count_wraps (k : kernel) (fuel : nat) (A : addr) (width height : Z)
    (B C : addr) (s : state) (la lb : list Z) :
  buffers (Z.of_nat (elem_size k)) (mem s) A B C (uint (width * height)) la lb ->
  uint (width * height) < Z.of_nat fuel ->
  exists s' evs,
    kernel_fn k NSU fuel A width height B C s = Ok (tt, s')
    /\ log s' = evs ++ log s
    /\ Z.of_nat (stores evs) = (width * height) mod 2 ^ 32
    /\ (2 ^ 32 <= width * height -> Z.of_nat (stores evs) < width * height).
Proof.
  intros Hb Hfuel. pose proof (uint_range (width * height)) as HN.
  destruct (scalar_run k fuel A width height B C s la lb Hb Hfuel)
    as (s' & evs & Hrun & _ & Hlog & _ & Hcount & _).
  exists s', evs. split; [exact Hrun|]. split; [exact Hlog|].
  rewrite Hcount, Z2Nat.id by lia. split; [reflexivity|]. lia.
Qed.

(** [width = height = 2^16]: no pixel is processed. *)
Lemma pixel_count_wraps_witness :
  exists s' evs,
    kernel_fn KeepRange NSU 1 4096 65536 65536 8192 12288 (example_state [] [] 0)
    = Ok (tt, s')
    /\ log s' = evs ++ log (example_state [] [] 0)
    /\ Z.of_nat (stores evs) = 0
    /\ (2 ^ 32 <= 65536 * 65536 -> Z.of_nat (stores evs) < 65536 * 65536).
Proof.
  apply (pixel_count_wraps KeepRange 1 4096 65536 65536 8192 12288
           (example_state [] [] 0) [] []).
  - constructor; reflexivity.
  - reflexivity.
Defined.

(** ** The strategies against each other *)

(** C4: when the pixel count is a multiple of 16, the SSE strategy of either
    kernel ends on every call that meets the contract, in a memory equal at
    every address to the one the scalar strategy ends in, and each of its
    loads and stores lies inside [A[0..N)], [B[0..N)] or [C[0..N)]. *)
Theorem sse_matches_scalar (k : kernel) (fuel : nat) (A : addr) (width height : Z)
    (B C : addr) (s : state) (la lb : list Z) :
  buffers (Z.of_nat (elem_size k)) (mem s) A B C (uint (width * height)) la lb ->
  uint (width * height) mod 16 = 0 ->
  uint (width * height) < Z.of_nat fuel ->
  exists s1 s2 evs,
    kernel_fn k WIN_SSE fuel A width height B C s = Ok (tt, s1)
    /\ kernel_fn k NSU fuel A width height B C s = Ok (tt, s2)
    /\ mem_eq (mem s1) (mem s2)
    /\ log s1 = evs ++ log s
    /\ Forall (in_bounds (Z.of_nat (elem_size k)) A B C (uint (width * height))) evs.
Proof.
  intros Hb Hmod Hfuel.
  destruct (strategy_run k WIN_SSE fuel A width height B C s la lb Hb Hmod Hfuel)
    as (s1 & evs & Hrun1 & Hmem1 & Hlog & Hin & _).
  assert (Hout : output k WIN_SSE la lb = pixels (pixel k) la lb) by now destruct k.
  rewrite Hout in Hmem1.
  destruct (scalar_run k fuel A width height B C s la lb Hb Hfuel)
    as (s2 & evs2 & Hrun2 & Hmem2 & _).
  exists s1, s2, evs. repeat split; try assumption.
  intros a. now rewrite Hmem1, Hmem2.
Qed.

Lemma sse_matches_scalar_witness :
  exists s1 s2 evs,
    kernel_fn Widening WIN_SSE 17 4096 16 1 8192 12288
      (example_state (ramp 16) (repeat 250 16) 32) = Ok (tt, s1)
    /\ kernel_fn Widening NSU 17 4096 16 1 8192 12288
         (example_state (ramp 16) (repeat 250 16) 32) = Ok (tt, s2)
    /\ mem_eq (mem s1) (mem s2)
    /\ log s1 = evs ++ log (example_state (ramp 16) (repeat 250 16) 32)
    /\ Forall (in_bounds (Z.of_nat (elem_size Widening)) 4096 8192 12288 (uint (16 * 1)))
         evs.
Proof.
  apply (sse_matches_scalar Widening 17 4096 16 1 8192 12288
           (example_state (ramp 16) (repeat 250 16) 32) (ramp 16) (repeat 250 16)).
  - constructor; reflexivity.
  - reflexivity.
  - reflexivity.
Defined.

(** The multiple of 16 is needed: on 4 pixels in buffers of 4 elements the
    SSE strategy reads past the end of [A]. *)
Example sse_overruns :
  kernel_fn KeepRange WIN_SSE 5 4096 4 1 8192 12288
    (example_state [10; 250; 0; 255] [20; 10; 0; 1] 4) = Fault.
Proof. reflexivity. Qed.

(** X3: when the pixel count is a multiple of 32, the three strategies of
    the saturating kernel end, on every call that meets the contract, in
    equal memories. *)
Lemma kr_strategies_agree (fuel : nat) (A : addr) (width height : Z) (B C : addr)
    (s : state) (la lb : list Z) :
  buffers 1 (mem s) A B C (uint (width * height)) la lb ->
  uint (width * height) mod 32 = 0 ->
  uint (width * height) < Z.of_nat fuel ->
  exists s1 s2 s3,
    img_add_kr_nsu fuel A width height B C s = Ok (tt, s1)
    /\ img_add_kr_sse fuel A width height B C s = Ok (tt, s2)
    /\ img_add_kr_avx fuel A width height B C s = Ok (tt, s3)
    /\ mem_eq (mem s1) (mem s2)
    /\ mem_eq (mem s1) (mem s3).
Proof.
  intros Hb Hmod Hfuel.
  assert (Hmod16 : uint (width * height) mod 16 = 0).
  { apply Z.mod_divide in Hmod; [|lia]. destruct Hmod as [q Hq].
    rewrite Hq. replace (q * 32) with (q * 2 * 16) by lia. apply Z.mod_mul. lia. }
  destruct (img_add_kr_nsu_run fuel A width height B C s la lb Hb Hfuel)
    as (s1 & Hrun1 & Hmem1 & _).
  destruct (img_add_kr_sse_run fuel A width height B C s la lb Hb Hmod16 Hfuel)
    as (s2 & Hrun2 & Hmem2 & _).
  destruct (img_add_kr_avx_run fuel A width height B C s la lb Hb Hmod Hfuel)
    as (s3 & Hrun3 & Hmem3 & _).
  exists s1, s2, s3. repeat split; try assumption.
  - intros a. now rewrite Hmem1, Hmem2.
  - intros a. now rewrite Hmem1, Hmem3.
Qed.

Lemma lanes_pixels_add (l l' : list Z) :
  forallb is_byte l = true -> forallb is_byte l' = true ->
  epu16_lanes (pixels px_add l l') = map2 Z.add l l'.
Proof.
  unfold pixels.
  revert l'; induction l as [|a l IH]; intros [|b l'] Ha Hb; auto.
  cbn [forallb] in Ha, Hb.
  apply andb_true_iff in Ha as [Ha Ha'], Hb as [Hb Hb'].
  apply is_byte_spec in Ha, Hb.
  cbn [map2 concat]. unfold px_add at 1. cbn [le_encode app epu16_lanes].
  rewrite (IH l' Ha' Hb'). f_equal.
  pose proof (lanes_px_add a b ltac:(lia)) as H.
  unfold px_add in H. cbn [le_encode epu16_lanes] in H. now injection H.
Qed.

(** What [img_add_avx] computes: when the pixel count is a multiple of 32,
    [C] holds the sums of the pixels of [A] and [B] taken, in every block of
    32 pixels, in the order 0..7, 16..23, 8..15, 24..31. *)
Lemma avx_widening_sums (fuel : nat) (A : addr) (width height : Z) (B C : addr)
    (s : state) (la lb : list Z) :
  buffers 2 (mem s) A B C (uint (width * height)) la lb ->
  uint (width * height) mod 32 = 0 ->
  uint (width * height) < Z.of_nat fuel ->
  exists s',
    img_add_avx fuel A width height B C s = Ok (tt, s')
    /\ read_ushorts (mem s') C (Z.to_nat (uint (width * height)))
       = Some (map2 Z.add (avx_blocks (length la / 32) la)
                 (avx_blocks (length la / 32) lb)).
Proof.
  intros Hb Hmod Hfuel.
  destruct (kernel_frame Widening WIN_AVX fuel A width height B C s la lb Hb Hmod Hfuel)
    as (s' & evs & Hrun & _ & _ & _ & HC & _).
  exists s'. split; [exact Hrun|].
  unfold read_ushorts. cbn [elem_size] in HC. rewrite HC. cbn [option_map output].
  now rewrite lanes_pixels_add by (apply avx_blocks_bytes, Hb).
Qed.

Example avx_perm_ramp : avx_perm (ramp 32) = avx_order.
Proof. reflexivity. Qed.

(** C1: at [width = 32], [height = 1], [A = [0, 1, ..., 31]] and [B] all
    zero, the scalar and the SSE strategy of the widening kernel leave
    [C = [0, 1, ..., 31]], and the AVX strategy leaves the sums of the pixels
    8..15 and 16..23 exchanged: the three strategies do not agree. *)
Theorem avx_widening_diverges :
  let s := example_state (ramp 32) (repeat 0 32) 64 in
  output_ushorts (exec (img_add_nsu 33 4096 32 1 8192 12288) s) 12288 32
  = Some (ramp 32)
  /\ output_ushorts (exec (img_add_sse 33 4096 32 1 8192 12288) s) 12288 32
     = Some (ramp 32)
  /\ output_ushorts (exec (img_add_avx 33 4096 32 1 8192 12288) s) 12288 32
     = Some avx_order
  /\ avx_order <> ramp 32.
Proof.
  cbv zeta. repeat split; try (vm_compute; reflexivity).
  intros H. vm_compute in H. discriminate H.
Qed.

(** ** Every kernel as a loop over chunks

    What the six kernels have in common, read off their bodies once: the
    loop test, the effect of an iteration on allocated chunks, the fault of an
    iteration whose chunk of [A] is not allocated, the index after an
    iteration, and that no iteration aborts. *)

Ltac run_cases :=
  repeat match goal with
         | |- context [read_bytes ?m ?p ?n] => destruct (read_bytes m p n); cbn [mem log]
         | |- context [allocated ?m ?p ?n] => destruct (allocated m p n); cbn [mem log]
         end.

Ltac run_cases_in H :=
  repeat match type of H with
         | context [read_bytes ?m ?p ?n] => destruct (read_bytes m p n); cbn [mem log] in H
         | context [allocated ?m ?p ?n] => destruct (allocated m p n); cbn [mem log] in H
         end.

Lemma uint_step (i w : Z) : uint (uint (i + w) + w) = uint (i + (w + w)).
Proof.
  unfold uint. rewrite Zplus_mod_idemp_l. f_equal. lia.
Qed.

Ltac unfold_ops :=
  unfold load_uchar, store_uchar, store_ushort,
    _mm_loadu_si128, _mm_storeu_si128, _mm256_loadu_si256, _mm256_storeu_si256,
    bind, load, store, ret.

Ltac unfold_ops_in H :=
  unfold load_uchar, store_uchar, store_ushort,
    _mm_loadu_si128, _mm_storeu_si128, _mm256_loadu_si256, _mm256_storeu_si256,
    bind, load, store, ret in H.

Lemma kernel_loop (k : kernel) (st : strategy) (A : addr) (width height : Z)
    (B C : addr) :
  exists (L : Type) (loc : Z -> L) (cond : L -> bool) (body : L -> M L),
    chunk_loop k st A width height B C loc cond body.
Proof.
  destruct k, st; unfold chunk_loop; cbn [kernel_fn lanes elem_size chunk_out ev_of pixel].
  - (* img_add_kr_sse *)
    unfold img_add_kr_sse. exists Z, (fun i => i). eexists. eexists.
    split; [intros; reflexivity|]. split; [intros; reflexivity|].
    change (Z.to_nat 16) with 16%nat. change (Z.of_nat 1) with 1.
    split; [|split; [|split]].
    + intros i s xa xb Hi Hi' HA HB _ _ HC. rewrite Z.mul_1_l in *.
      apply (body_kr_vec_run A B C (i + 16) ltac:(lia) 16 i s xa xb); try assumption; lia.
    + intros i s H. unfold_ops. now rewrite H.
    + intros i s l' s' H. unfold_ops_in H. run_cases_in H; try discriminate.
      now injection H as <- _.
    + intros l s. unfold_ops. run_cases; discriminate.
  - (* img_add_kr_avx *)
    unfold img_add_kr_avx. exists Z, (fun i => i). eexists. eexists.
    split; [intros; reflexivity|]. split; [intros; reflexivity|].
    change (Z.to_nat 32) with 32%nat. change (Z.of_nat 1) with 1.
    split; [|split; [|split]].
    + intros i s xa xb Hi Hi' HA HB _ _ HC. rewrite Z.mul_1_l in *.
      apply (body_kr_vec_run A B C (i + 32) ltac:(lia) 32 i s xa xb); try assumption; lia.
    + intros i s H. unfold_ops. now rewrite H.
    + intros i s l' s' H. unfold_ops_in H. run_cases_in H; try discriminate.
      now injection H as <- _.
    + intros l s. unfold_ops. run_cases; discriminate.
  - (* img_add_kr_nsu *)
    unfold img_add_kr_nsu. exists Z, (fun i => i). eexists. eexists.
    split; [intros; reflexivity|]. split; [intros; reflexivity|].
    change (Z.to_nat 1) with 1%nat. change (Z.of_nat 1) with 1.
    split; [|split; [|split]].
    + intros i s xa xb Hi Hi' HA HB Ha Hb HC. rewrite Z.mul_1_l in *.
      apply (body_kr_run A B C (i + 1) ltac:(lia) i s xa xb); try assumption; lia.
    + intros i s H. unfold_ops. now rewrite H.
    + intros i s l' s' H. unfold_ops_in H. run_cases_in H; try discriminate.
      now injection H as <- _.
    + intros l s. unfold_ops. run_cases; discriminate.
  - (* img_add_sse *)
    unfold img_add_sse. exists (Z * Z)%type, (fun i => (i, i)). eexists. eexists.
    split; [intros; reflexivity|]. split; [intros; reflexivity|].
    change (Z.to_nat 16) with 16%nat. change (Z.of_nat 2) with 2.
    split; [|split; [|split]].
    + intros i s xa xb Hi Hi' HA HB Ha Hb HC.
      apply (body_sse_run A B C (i + 16) ltac:(lia) i s xa xb); try assumption; lia.
    + intros i s H. unfold_ops. now rewrite H.
    + intros i s l' s' H. unfold_ops_in H. run_cases_in H; try discriminate.
      injection H as <- _. now rewrite uint_step.
    + intros [i j] s. unfold_ops. run_cases; discriminate.
  - (* img_add_avx *)
    unfold img_add_avx. exists (Z * Z)%type, (fun i => (i, i)). eexists. eexists.
    split; [intros; reflexivity|]. split; [intros; reflexivity|].
    change (Z.to_nat 32) with 32%nat. change (Z.of_nat 2) with 2.
    split; [|split; [|split]].
    + intros i s xa xb Hi Hi' HA HB Ha Hb HC.
      apply (body_avx_run A B C (i + 32) ltac:(lia) i s xa xb); try assumption; lia.
    + intros i s H. unfold_ops. now rewrite H.
    + intros i s l' s' H. unfold_ops_in H. run_cases_in H; try discriminate.
      injection H as <- _. now rewrite uint_step.
    + intros [i j] s. unfold_ops. run_cases; discriminate.
  - (* img_add_nsu *)
    unfold img_add_nsu. exists Z, (fun i => i). eexists. eexists.
    split; [intros; reflexivity|]. split; [intros; reflexivity|].
    change (Z.to_nat 1) with 1%nat. change (Z.of_nat 2) with 2.
    split; [|split; [|split]].
    + intros i s xa xb Hi Hi' HA HB Ha Hb HC.
      apply (body_add_run A B C (i + 1) ltac:(lia) i s xa xb); try assumption; lia.
    + intros i s H. unfold_ops. now rewrite H.
    + intros i s l' s' H. unfold_ops_in H. run_cases_in H; try discriminate.
      now injection H as <- _.
    + intros l s. unfold_ops. run_cases; discriminate.
Qed.

(** ** The entry points and the null pointers *)

Lemma for_loop_no_abort (L : Type) (cond : L -> bool) (body : L -> M L) :
  (forall l s, body l s <> Abort) ->
  forall fuel l s, for_loop fuel cond body l s <> Abort.
Proof.
  intros Hbody. induction fuel as [|fuel IH]; intros l s; cbn [for_loop].
  - discriminate.
  - destruct (cond l); [|discriminate].
    unfold bind. specialize (Hbody l s).
    destruct (body l s) as [[l' s']| | |]; try discriminate; [apply IH|congruence].
Qed.

Lemma kernel_never_aborts (k : kernel) (st : strategy) (fuel : nat) (A : addr)
    (width height : Z) (B C : addr) (s : state) :
  kernel_fn k st fuel A width height B C s <> Abort.
Proof.
  destruct (kernel_loop k st A width height B C)
    as (L & loc & cond & body & Hrun & _ & _ & _ & _ & Hab).
  rewrite Hrun. unfold bind.
  pose proof (for_loop_no_abort L cond body Hab fuel (loc 0) s) as H.
  destruct (for_loop fuel cond body (loc 0) s) as [[l' s']| | |];
    try discriminate; congruence.
Qed.

(** X1: an entry point aborts exactly when one of its three pointers is
    null; whatever the memory, the sizes and the strategy compiled in, no
    other call aborts. *)
Theorem entry_aborts_iff_null (k : kernel) (st : strategy) (fuel : nat) (A : addr)
    (width height : Z) (B C : addr) (s : state) :
  entry k st fuel A width height B C s = Abort <-> A = 0 \/ B = 0 \/ C = 0.
Proof.
  split; [|apply entry_null].
  intros H.
  destruct (Z.eq_dec A 0) as [|HA]; [now left|].
  destruct (Z.eq_dec B 0) as [|HB]; [now right; left|].
  destruct (Z.eq_dec C 0) as [|HC]; [now right; right|].
  rewrite (entry_nonnull k st fuel A width height B C s HA HB HC) in H.
  now apply kernel_never_aborts in H.
Qed.

(** ** The vector strategies past the last multiple of their lanes *)

Lemma for_loop_never_ok (L : Type) (cond : L -> bool) (body : L -> M L)
    (P : L -> Prop) :
  (forall l, P l -> cond l = true) ->
  (forall l s l' s', P l -> body l s = Ok (l', s') -> P l') ->
  forall fuel l s r, P l -> for_loop fuel cond body l s <> Ok r.
Proof.
  intros Hcond Hstep. induction fuel as [|fuel IH]; intros l s r Hl; cbn [for_loop].
  - discriminate.
  - rewrite (Hcond l Hl). unfold bind.
    destruct (body l s) as [[l' s']| | |] eqn:E; try discriminate.
    apply IH. exact (Hstep l s l' s' Hl E).
Qed.

Lemma lanes_pos (st : strategy) : 0 < lanes st.
Proof. now destruct st. Qed.

Lemma lanes_divide (st : strategy) : 2 ^ 32 mod lanes st = 0.
Proof. now destruct st. Qed.

(** The index of the loop stays a multiple of the lanes below [2^32]. *)
Lemma uint_lanes (st : strategy) (i : Z) :
  0 <= i < 2 ^ 32 -> i mod lanes st = 0 ->
  i <= 2 ^ 32 - lanes st
  /\ 0 <= uint (i + lanes st) < 2 ^ 32
  /\ uint (i + lanes st) mod lanes st = 0.
Proof.
  intros Hi Hmod. pose proof (lanes_pos st) as Hw.
  apply Z.mod_divide in Hmod; [|lia]. destruct Hmod as [q Hq].
  assert (Hle : i <= 2 ^ 32 - lanes st).
  { change (2 ^ 32) with 4294967296 in *. destruct st; cbn [lanes] in *; lia. }
  split; [exact Hle|]. split; [apply uint_range|].
  destruct (Z.eq_dec (i + lanes st) (2 ^ 32)) as [E|E].
  - rewrite E. reflexivity.
  - rewrite uint_small by lia. rewrite Hq.
    replace (q * lanes st + lanes st) with ((q + 1) * lanes st) by lia.
    apply Z.mod_mul. lia.
Qed.

(** X5: when the pixel count is above [2^32] minus the lanes of the
    strategy, the index [i] wraps around to 0 before it reaches the pixel
    count: the kernel never returns; whatever the memory and the fuel, the
    run ends in a fault or is still looping. *)
Theorem vector_never_returns (k : kernel) (st : strategy) (fuel : nat) (A : addr)
    (width height : Z) (B C : addr) (s : state) :
  2 ^ 32 - lanes st < uint (width * height) ->
  kernel_fn k st fuel A width height B C s = Fault
  \/ kernel_fn k st fuel A width height B C s = Timeout.
Proof.
  intros HN.
  pose proof (kernel_never_aborts k st fuel A width height B C s) as Hab.
  destruct (kernel_fn k st fuel A width height B C s) as [r| | |] eqn:Ek;
    [exfalso|now left|congruence|now right].
  destruct (kernel_loop k st A width height B C)
    as (L & loc & cond & body & Hrun & Hcond & _ & _ & Hnext & _).
  rewrite Hrun in Ek. unfold bind in Ek.
  destruct (for_loop fuel cond body (loc 0) s) as [[l' s']| | |] eqn:E;
    try discriminate.
  revert E.
  apply (for_loop_never_ok L cond body
           (fun l => exists i, l = loc i /\ 0 <= i < 2 ^ 32 /\ i mod lanes st = 0)).
  - intros l (i & -> & Hi & Hmod). rewrite Hcond. apply Z.ltb_lt.
    destruct (uint_lanes st i Hi Hmod) as [Hle _]. lia.
  - intros l s1 l1 s1' (i & -> & Hi & Hmod) Hb.
    exists (uint (i + lanes st)). split; [exact (Hnext i s1 l1 s1' Hb)|].
    destruct (uint_lanes st i Hi Hmod) as (_ & H1 & H2). split; assumption.
  - exists 0. split; [reflexivity|]. split; [lia|]. apply Z.mod_0_l.
    pose proof (lanes_pos st). lia.
Qed.

Lemma vector_never_returns_witness :
  2 ^ 32 - lanes WIN_SSE < uint ((2 ^ 32 - 1) * 1)
  /\ (kernel_fn KeepRange WIN_SSE 3 4096 (2 ^ 32 - 1) 1 8192 12288
        (example_state (ramp 16) (ramp 16) 16) = Fault
      \/ kernel_fn KeepRange WIN_SSE 3 4096 (2 ^ 32 - 1) 1 8192 12288
           (example_state (ramp 16) (ramp 16) 16) = Timeout).
Proof.
  assert (H : 2 ^ 32 - lanes WIN_SSE < uint ((2 ^ 32 - 1) * 1)) by reflexivity.
  split; [exact H|].
  exact (vector_never_returns KeepRange WIN_SSE 3 4096 (2 ^ 32 - 1) 1 8192 12288
           (example_state (ramp 16) (ramp 16) 16) H).
Defined.

(** ** A kernel on [K] chunks *)

Lemma output_chunks_length (k : kernel) (st : strategy) (K : nat) (la lb : list Z) :
  length la = (Z.to_nat (lanes st) * K)%nat ->
  length lb = (Z.to_nat (lanes st) * K)%nat ->
  length (output k st la lb) = (elem_size k * (Z.to_nat (lanes st) * K))%nat.
Proof.
  intros La Lb.
  assert (Hpx : length (pixels (pixel k) la lb)
                = (elem_size k * (Z.to_nat (lanes st) * K))%nat).
  { rewrite (pixels_length _ _ (pixel_length k)), La, Lb. now rewrite Nat.min_id. }
  destruct k, st; try exact Hpx.
  cbn [output lanes elem_size] in *. change (Z.to_nat 32) with 32%nat in *.
  replace (length la / 32)%nat with K
    by (rewrite La, Nat.mul_comm, Nat.div_mul; lia).
  rewrite (pixels_length _ _ px_add_length), !avx_blocks_length by lia.
  rewrite Nat.min_id. lia.
Qed.

Lemma output_chunk (k : kernel) (st : strategy) (K j : nat) (la lb : list Z) :
  length la = (Z.to_nat (lanes st) * K)%nat ->
  length lb = (Z.to_nat (lanes st) * K)%nat ->
  (j < K)%nat ->
  firstn (elem_size k * Z.to_nat (lanes st))
    (skipn (elem_size k * (Z.to_nat (lanes st) * j)) (output k st la lb))
  = chunk_out k st (firstn (Z.to_nat (lanes st)) (skipn (Z.to_nat (lanes st) * j) la))
      (firstn (Z.to_nat (lanes st)) (skipn (Z.to_nat (lanes st) * j) lb)).
Proof.
  intros La Lb Hj.
  destruct k, st; try apply (pixels_chunk _ _ (pixel_length _)).
  cbn [output chunk_out lanes elem_size] in *. change (Z.to_nat 32) with 32%nat in *.
  replace (length la / 32)%nat with K
    by (rewrite La, Nat.mul_comm, Nat.div_mul; lia).
  rewrite (pixels_chunk _ _ px_add_length).
  now rewrite !avx_blocks_chunk by assumption.
Qed.

(** Any strategy of either kernel whose loop takes [K] iterations, on
    buffers of [K] chunks: each chunk of [A] and [B] only has to stay clear
    of the output chunks written before it is read. *)
Lemma kernel_chunks (k : kernel) (st : strategy) (fuel : nat) (A : addr)
    (width height : Z) (B C : addr) (s : state) (la lb : list Z) (K : nat) :
  lanes st * Z.of_nat K < 2 ^ 32 ->
  lanes st * Z.of_nat K - lanes st < uint (width * height) <= lanes st * Z.of_nat K ->
  read_bytes (mem s) A (Z.to_nat (lanes st) * K) = Some la ->
  read_bytes (mem s) B (Z.to_nat (lanes st) * K) = Some lb ->
  forallb is_byte la = true ->
  forallb is_byte lb = true ->
  allocated (mem s) C (elem_size k * (Z.to_nat (lanes st) * K)) = true ->
  (forall j, 0 <= j < Z.of_nat K ->
     C + Z.of_nat (elem_size k) * (lanes st * j) <= A + lanes st * j
     \/ A + lanes st * j + lanes st <= C) ->
  (forall j, 0 <= j < Z.of_nat K ->
     C + Z.of_nat (elem_size k) * (lanes st * j) <= B + lanes st * j
     \/ B + lanes st * j + lanes st <= C) ->
  (K < fuel)%nat ->
  exists s',
    kernel_fn k st fuel A width height B C s = Ok (tt, s')
    /\ mem_eq (mem s') (write_bytes (mem s) C (output k st la lb))
    /\ log s' = chunk_log (ev_of k st A B C) (lanes st) K ++ log s.
Proof.
  intros HK HN HA HB Ha Hb HC HfA HfB Hfuel.
  pose proof (lanes_pos st) as Hw.
  assert (Hn : Z.of_nat (Z.to_nat (lanes st)) = lanes st) by (apply Z2Nat.id; lia).
  destruct (kernel_loop k st A width height B C)
    as (L & loc & cond & body & Hrun & Hcond & Hbody & _).
  destruct (chunks_run L loc cond body (chunk_out k st) (elem_size k)
              (Z.to_nat (lanes st)) K (ev_of k st A B C) A B C la lb s
              (output k st la lb)) with (fuel := fuel)
    as (s' & Hloop & Hmem & Hlog); try assumption.
  - intros j Hj. rewrite Hcond. apply Z.ltb_lt. rewrite Nat2Z.inj_mul, Hn. nia.
  - intros j Hj. apply disjoint_spec.
    rewrite !Nat2Z.inj_mul, Hn. apply (HfA (Z.of_nat j)). lia.
  - intros j Hj. apply disjoint_spec.
    rewrite !Nat2Z.inj_mul, Hn. apply (HfB (Z.of_nat j)). lia.
  - apply output_chunks_length; eapply read_bytes_length; eassumption.
  - intros j Hj.
    apply (output_chunk k st K j la lb); try assumption;
      eapply read_bytes_length; eassumption.
  - intros i s1 xa xb Hi HiK HA1 HB1 Ha1 Hb1 HC1.
    rewrite Nat2Z.inj_mul, Hn in HiK. rewrite Hn.
    eexists. split; [apply (Hbody i s1 xa xb); try assumption; lia|].
    split; [apply mem_eq_refl|reflexivity].
  - rewrite Hcond. apply Z.ltb_ge. rewrite Nat2Z.inj_mul, Hn. lia.
  - exists s'. split; [|split; [exact Hmem|now rewrite <- Hn]].
    rewrite Hrun. unfold bind. now rewrite Hloop.
Qed.

Lemma in_bounds_chunks (k : kernel) (st : strategy) (A B C : addr) (K : nat) :
  Forall (in_bounds (Z.of_nat (elem_size k)) A B C (lanes st * Z.of_nat K))
    (chunk_log (ev_of k st A B C) (lanes st) K).
Proof.
  apply chunk_log_Forall. intros j Hj.
  destruct k, st; cbn [ev_of lanes elem_size];
    unfold ev_kr_vec, ev_kr_nsu, ev_sse, ev_avx, ev_nsu;
    change (Z.of_nat 1) with 1; change (Z.of_nat 2) with 2;
    change (Z.of_nat 16) with 16; change (Z.of_nat 32) with 32;
    log_in_bounds.
Qed.

Lemma padded_bounds (st : strategy) (N : Z) :
  0 <= N ->
  padded st N - lanes st < N <= padded st N
  /\ 0 <= (N + lanes st - 1) / lanes st <= N.
Proof.
  intros HN. pose proof (lanes_pos st) as Hw. unfold padded.
  pose proof (Z.div_mod (N + lanes st - 1) (lanes st) ltac:(lia)) as Hdm.
  pose proof (Z.mod_pos_bound (N + lanes st - 1) (lanes st) Hw) as Hr.
  assert (Hq : 0 <= (N + lanes st - 1) / lanes st) by (apply Z.div_pos; lia).
  repeat split; try lia. nia.
Qed.

(** ** Pixel counts that are not a multiple of the lanes *)

(** The run of a strategy on buffers padded to the next multiple of its
    lanes. *)
Lemma padded_chunks (k : kernel) (st : strategy) (fuel : nat) (A : addr)
    (width height : Z) (B C : addr) (s : state) (la lb : list Z) :
  buffers (Z.of_nat (elem_size k)) (mem s) A B C
    (padded st (uint (width * height))) la lb ->
  padded st (uint (width * height)) < 2 ^ 32 ->
  uint (width * height) < Z.of_nat fuel ->
  exists s' K,
    lanes st * Z.of_nat K = padded st (uint (width * height))
    /\ kernel_fn k st fuel A width height B C s = Ok (tt, s')
    /\ mem_eq (mem s') (write_bytes (mem s) C (output k st la lb))
    /\ log s' = chunk_log (ev_of k st A B C) (lanes st) K ++ log s.
Proof.
  intros Hb Hlt Hfuel.
  pose proof (uint_range (width * height)) as HN.
  pose proof (lanes_pos st) as Hw.
  set (N := uint (width * height)) in *.
  destruct (padded_bounds st N (proj1 HN)) as [HP HQ].
  set (K := Z.to_nat ((N + lanes st - 1) / lanes st)).
  assert (HK : lanes st * Z.of_nat K = padded st N)
    by (unfold K, padded; rewrite Z2Nat.id by lia; reflexivity).
  assert (HKn : Z.to_nat (padded st N) = (Z.to_nat (lanes st) * K)%nat)
    by (rewrite <- HK, Z2Nat.inj_mul, Nat2Z.id by lia; reflexivity).
  pose proof (buf_A Hb) as HA. pose proof (buf_B Hb) as HB. pose proof (buf_C Hb) as HC.
  pose proof (proj1 (disjoint_spec _ _ _ _) (buf_CA Hb)) as HCA.
  pose proof (proj1 (disjoint_spec _ _ _ _) (buf_CB Hb)) as HCB.
  destruct (kernel_chunks k st fuel A width height B C s la lb K)
    as (s' & Hrun & Hmem & Hlog).
  - rewrite HK. exact Hlt.
  - rewrite HK. exact HP.
  - rewrite <- HKn. exact HA.
  - rewrite <- HKn. exact HB.
  - apply Hb.
  - apply Hb.
  - rewrite <- HKn, <- (Nat2Z.id (elem_size k)), <- Z2Nat.inj_mul by lia. exact HC.
  - intros j Hj.
    assert (H1 : lanes st * j + lanes st <= padded st N) by nia.
    assert (H2 : Z.of_nat (elem_size k) * (lanes st * j)
                 <= Z.of_nat (elem_size k) * padded st N)
      by (apply Z.mul_le_mono_nonneg_l; lia).
    lia.
  - intros j Hj.
    assert (H1 : lanes st * j + lanes st <= padded st N) by nia.
    assert (H2 : Z.of_nat (elem_size k) * (lanes st * j)
                 <= Z.of_nat (elem_size k) * padded st N)
      by (apply Z.mul_le_mono_nonneg_l; lia).
    lia.
  - unfold K. lia.
  - exists s', K. repeat split; assumption.
Qed.

(** X6: a vector strategy also works on a pixel count N that is not a
    multiple of its lanes, provided the three buffers are padded to the next
    multiple (below [2^32]): the run ends, [A] and [B] are unchanged, no
    access leaves the padded buffers, and [C] holds the output over the whole
    padded length; for every strategy but [img_add_avx] each element of [C]
    is the pixel of the elements of [A] and [B] of the same index. *)
Theorem padded_run (k : kernel) (st : strategy) (fuel : nat) (A : addr)
    (width height : Z) (B C : addr) (s : state) (la lb : list Z) :
  buffers (Z.of_nat (elem_size k)) (mem s) A B C
    (padded st (uint (width * height))) la lb ->
  padded st (uint (width * height)) < 2 ^ 32 ->
  uint (width * height) < Z.of_nat fuel ->
  exists s' evs,
    kernel_fn k st fuel A width height B C s = Ok (tt, s')
    /\ log s' = evs ++ log s
    /\ read_bytes (mem s') A (Z.to_nat (padded st (uint (width * height)))) = Some la
    /\ read_bytes (mem s') B (Z.to_nat (padded st (uint (width * height)))) = Some lb
    /\ read_bytes (mem s') C
         (elem_size k * Z.to_nat (padded st (uint (width * height))))
       = Some (output k st la lb)
    /\ Forall (in_bounds (Z.of_nat (elem_size k)) A B C
                 (padded st (uint (width * height)))) evs
    /\ ((k = Widening -> st <> WIN_AVX) ->
        forall i, 0 <= i < padded st (uint (width * height)) ->
          read_bytes (mem s') (C + Z.of_nat (elem_size k) * i) (elem_size k)
          = Some (pixel k (nth (Z.to_nat i) la 0) (nth (Z.to_nat i) lb 0))).
Proof.
  intros Hb Hlt Hfuel.
  pose proof (uint_range (width * height)) as HN.
  pose proof (lanes_pos st) as Hw.
  destruct (padded_chunks k st fuel A width height B C s la lb Hb Hlt Hfuel)
    as (s' & K & HK & Hrun & Hmem & Hlog).
  set (N := uint (width * height)) in *.
  destruct (padded_bounds st N (proj1 HN)) as [HP _].
  assert (HPn : 0 <= padded st N) by lia.
  assert (HKn : Z.to_nat (padded st N) = (Z.to_nat (lanes st) * K)%nat)
    by (rewrite <- HK, Z2Nat.inj_mul, Nat2Z.id by lia; reflexivity).
  pose proof (buf_A Hb) as HA. pose proof (buf_B Hb) as HB.
  assert (Hlen : length (output k st la lb)
                 = (elem_size k * Z.to_nat (padded st N))%nat).
  { rewrite HKn. apply output_chunks_length; rewrite <- HKn;
      eapply read_bytes_length; eassumption. }
  destruct (frame_of_write (elem_size k) (mem s) (mem s') A B C (padded st N)
              la lb (output k st la lb) HPn Hb Hlen Hmem)
    as (HA' & HB' & HC' & _).
  exists s', (chunk_log (ev_of k st A B C) (lanes st) K).
  split; [exact Hrun|]. split; [exact Hlog|]. split; [exact HA'|].
  split; [exact HB'|]. split; [exact HC'|]. split.
  - rewrite <- HK. apply in_bounds_chunks.
  - intros Hst i Hi.
    assert (Hout : output k st la lb = pixels (pixel k) la lb).
    { destruct k, st; try reflexivity. now destruct Hst. }
    rewrite Hout in Hmem.
    pose proof (pixel_at (pixel k) (elem_size k) (mem s) (mem s') C la lb
                  (Z.to_nat i) (pixel_length k) Hmem) as Hpx.
    rewrite Z2Nat.id in Hpx by lia. apply Hpx.
    + rewrite (read_bytes_length _ _ _ _ HA). lia.
    + rewrite (read_bytes_length _ _ _ _ HB). lia.
Qed.

Lemma padded_run_witness :
  exists s' evs,
    kernel_fn KeepRange WIN_SSE 5 4096 4 1 8192 12288
      (example_state (ramp 16) (repeat 250 16) 16) = Ok (tt, s')
    /\ log s' = evs ++ log (example_state (ramp 16) (repeat 250 16) 16)
    /\ read_bytes (mem s') 4096 (Z.to_nat (padded WIN_SSE (uint (4 * 1))))
       = Some (ramp 16)
    /\ read_bytes (mem s') 8192 (Z.to_nat (padded WIN_SSE (uint (4 * 1))))
       = Some (repeat 250 16)
    /\ read_bytes (mem s') 12288
         (elem_size KeepRange * Z.to_nat (padded WIN_SSE (uint (4 * 1))))
       = Some (output KeepRange WIN_SSE (ramp 16) (repeat 250 16))
    /\ Forall (in_bounds (Z.of_nat (elem_size KeepRange)) 4096 8192 12288
                 (padded WIN_SSE (uint (4 * 1)))) evs
    /\ ((KeepRange = Widening -> WIN_SSE <> WIN_AVX) ->
        forall i, 0 <= i < padded WIN_SSE (uint (4 * 1)) ->
          read_bytes (mem s') (12288 + Z.of_nat (elem_size KeepRange) * i)
            (elem_size KeepRange)
          = Some (pixel KeepRange (nth (Z.to_nat i) (ramp 16) 0)
                    (nth (Z.to_nat i) (repeat 250 16) 0))).
Proof.
  apply (padded_run KeepRange WIN_SSE 5 4096 4 1 8192 12288
           (example_state (ramp 16) (repeat 250 16) 16) (ramp 16) (repeat 250 16)).
  - constructor; reflexivity.
  - reflexivity.
  - reflexivity.
Defined.

Lemma chunk_ends (k : kernel) (st : strategy) (A B C : addr) (i : Z) :
  (exists p n, In (Store p n) (ev_of k st A B C i)
               /\ p + Z.of_nat n = C + Z.of_nat (elem_size k) * (i + lanes st))
  /\ (exists p n, In (Load p n) (ev_of k st A B C i)
                  /\ p + Z.of_nat n = A + (i + lanes st)).
Proof.
  destruct k, st; cbn [ev_of elem_size lanes];
    unfold ev_kr_vec, ev_kr_nsu, ev_sse, ev_avx, ev_nsu; split.
  all: eexists _, _.
  all: first
         [ split; [left; reflexivity|lia]
         | split; [right; right; left; reflexivity|lia]
         | split; [right; right; right; left; reflexivity|lia] ].
Qed.

(** X7: on such a pixel count N, not a multiple of the lanes, the vector
    strategy goes past the end of the images: it stores up to the end of the
    padding of [C] and loads up to the end of the padding of [A], beyond the
    N elements of the call. *)
Theorem vector_overrun (k : kernel) (st : strategy) (fuel : nat) (A : addr)
    (width height : Z) (B C : addr) (s : state) (la lb : list Z) :
  buffers (Z.of_nat (elem_size k)) (mem s) A B C
    (padded st (uint (width * height))) la lb ->
  padded st (uint (width * height)) < 2 ^ 32 ->
  uint (width * height) < Z.of_nat fuel ->
  uint (width * height) mod lanes st <> 0 ->
  exists s' evs,
    kernel_fn k st fuel A width height B C s = Ok (tt, s')
    /\ log s' = evs ++ log s
    /\ (exists p n, In (Store p n) evs
                    /\ C + Z.of_nat (elem_size k) * uint (width * height) < p + Z.of_nat n
                    /\ p + Z.of_nat n
                       = C + Z.of_nat (elem_size k) * padded st (uint (width * height)))
    /\ (exists p n, In (Load p n) evs
                    /\ A + uint (width * height) < p + Z.of_nat n
                    /\ p + Z.of_nat n = A + padded st (uint (width * height))).
Proof.
  intros Hb Hlt Hfuel Hmod.
  pose proof (uint_range (width * height)) as HN.
  pose proof (lanes_pos st) as Hw.
  destruct (padded_chunks k st fuel A width height B C s la lb Hb Hlt Hfuel)
    as (s' & K & HK & Hrun & _ & Hlog).
  set (N := uint (width * height)) in *.
  destruct (padded_bounds st N (proj1 HN)) as [HP _].
  assert (HNP : N < padded st N).
  { destruct (Z.eq_dec N (padded st N)) as [E|E]; [|lia].
    exfalso. apply Hmod. rewrite E, <- HK, Z.mul_comm. apply Z.mod_mul. lia. }
  assert (HK1 : (0 < K)%nat) by (destruct K; [lia|lia]).
  destruct (chunk_ends k st A B C (lanes st * Z.of_nat (K - 1)))
    as [(p & n & Hin & Hend) (q & m & Hin' & Hend')].
  assert (Hlast : lanes st * Z.of_nat (K - 1) + lanes st = padded st N)
    by (rewrite <- HK, Nat2Z.inj_sub by lia; lia).
  rewrite Hlast in Hend, Hend'.
  exists s', (chunk_log (ev_of k st A B C) (lanes st) K).
  split; [exact Hrun|]. split; [exact Hlog|]. split.
  - exists p, n. split; [|split; [|exact Hend]].
    + apply (chunk_log_In _ _ _ (K - 1)%nat); [lia|exact Hin].
    + rewrite Hend. apply Z.add_lt_mono_l, Z.mul_lt_mono_pos_l; [|exact HNP].
      destruct k; cbn; lia.
  - exists q, m. split; [|split; [|exact Hend']].
    + apply (chunk_log_In _ _ _ (K - 1)%nat); [lia|exact Hin'].
    + lia.
Qed.

Lemma vector_overrun_witness :
  exists s' evs,
    kernel_fn Widening WIN_SSE 5 4096 4 1 8192 12288
      (example_state (ramp 16) (repeat 250 16) 32) = Ok (tt, s')
    /\ log s' = evs ++ log (example_state (ramp 16) (repeat 250 16) 32)
    /\ (exists p n, In (Store p n) evs
                    /\ 12288 + Z.of_nat (elem_size Widening) * uint (4 * 1)
                       < p + Z.of_nat n
                    /\ p + Z.of_nat n
                       = 12288 + Z.of_nat (elem_size Widening)
                                 * padded WIN_SSE (uint (4 * 1)))
    /\ (exists p n, In (Load p n) evs
                    /\ 4096 + uint (4 * 1) < p + Z.of_nat n
                    /\ p + Z.of_nat n = 4096 + padded WIN_SSE (uint (4 * 1))).
Proof.
  apply (vector_overrun Widening WIN_SSE 5 4096 4 1 8192 12288
           (example_state (ramp 16) (repeat 250 16) 32) (ramp 16) (repeat 250 16)).
  - constructor; reflexivity.
  - reflexivity.
  - reflexivity.
  - discriminate.
Defined.

Lemma write_bytes_none (m : memory) (p : addr) (n : nat) (l : list Z) (a : addr) :
  m a = None -> allocated m p n = true -> (length l <= n)%nat ->
  write_bytes m p l a = None.
Proof.
  intros Ha Hal Hlen. rewrite write_bytes_outside; [exact Ha|].
  destruct (Z_lt_ge_dec a p) as [|Hge]; [now left|]. right.
  destruct (Z_lt_ge_dec a (p + Z.of_nat (length l))) as [Hlt|]; [|lia].
  exfalso. apply (proj1 (allocated_spec m p n) Hal a); [lia|exact Ha].
Qed.

Lemma read_bytes_none (m : memory) (p : addr) (n : nat) (a : addr) :
  m a = None -> p <= a < p + Z.of_nat n -> read_bytes m p n = None.
Proof.
  intros Ha Hin. destruct (read_bytes m p n) as [l|] eqn:E; [|reflexivity].
  pose proof (read_bytes_nth m p n l E (Z.to_nat (a - p)) ltac:(lia)) as H.
  rewrite Z2Nat.id in H by lia. replace (p + (a - p)) with a in H by lia.
  congruence.
Qed.

(** X8: on buffers of exactly N elements, N not a multiple of the lanes,
    with no memory allocated right after [A], the vector strategy faults:
    after the whole chunks, its next load reads past the end of [A]. *)
Theorem vector_overrun_faults (k : kernel) (st : strategy) (fuel : nat) (A : addr)
    (width height : Z) (B C : addr) (s : state) (la lb : list Z) :
  buffers (Z.of_nat (elem_size k)) (mem s) A B C (uint (width * height)) la lb ->
  uint (width * height) mod lanes st <> 0 ->
  mem s (A + uint (width * height)) = None ->
  uint (width * height) < Z.of_nat fuel ->
  kernel_fn k st fuel A width height B C s = Fault.
Proof.
  intros Hb Hmod Hend Hfuel.
  pose proof (uint_range (width * height)) as HN.
  pose proof (lanes_pos st) as Hw.
  set (N := uint (width * height)) in *.
  set (ppl := Z.to_nat (lanes st)).
  set (K := Z.to_nat (N / lanes st)).
  assert (Hn : Z.of_nat ppl = lanes st) by (apply Z2Nat.id; lia).
  assert (Hq : 0 <= N / lanes st) by (apply Z.div_pos; lia).
  pose proof (Z.div_mod N (lanes st) ltac:(lia)) as Hdm.
  pose proof (Z.mod_pos_bound N (lanes st) Hw) as Hr.
  assert (HK : Z.of_nat (ppl * K) = lanes st * (N / lanes st))
    by (unfold K; rewrite Nat2Z.inj_mul, Hn, Z2Nat.id by lia; reflexivity).
  assert (HKN : (ppl * K <= Z.to_nat N)%nat) by lia.
  assert (HKf : (K < fuel)%nat).
  { assert (N / lanes st <= N) by (apply Z.div_le_upper_bound; nia).
    unfold K. lia. }
  pose proof (proj1 (disjoint_spec _ _ _ _) (buf_CA Hb)) as HCA.
  pose proof (proj1 (disjoint_spec _ _ _ _) (buf_CB Hb)) as HCB.
  destruct (buffers_lengths _ _ _ _ _ _ _ _ Hb) as [La Lb].
  destruct (kernel_loop k st A width height B C)
    as (L & loc & cond & body & Hrun & Hcond & Hbody & Hfault & _).
  destruct (chunks_prefix L loc cond body (chunk_out k st) (elem_size k) ppl K
              (ev_of k st A B C) A B C (firstn (ppl * K) la) (firstn (ppl * K) lb) s
              (output k st (firstn (ppl * K) la) (firstn (ppl * K) lb)))
    with (k := K) as (s1 & [Hmem _] & Hloop).
  - intros j Hj. rewrite Hcond. apply Z.ltb_lt. rewrite Nat2Z.inj_mul, Hn. nia.
  - apply (read_bytes_firstn _ _ _ _ _ (buf_A Hb) HKN).
  - apply (read_bytes_firstn _ _ _ _ _ (buf_B Hb) HKN).
  - apply forallb_firstn, Hb.
  - apply forallb_firstn, Hb.
  - apply allocated_spec. intros a Ha.
    apply (proj1 (allocated_spec _ _ _) (buf_C Hb)). nia.
  - intros j Hj. apply disjoint_spec. rewrite !Nat2Z.inj_mul, Hn.
    assert (H1 : lanes st * Z.of_nat j + lanes st <= N) by nia.
    assert (H2 : Z.of_nat (elem_size k) * (lanes st * Z.of_nat j)
                 <= Z.of_nat (elem_size k) * N)
      by (apply Z.mul_le_mono_nonneg_l; lia).
    lia.
  - intros j Hj. apply disjoint_spec. rewrite !Nat2Z.inj_mul, Hn.
    assert (H1 : lanes st * Z.of_nat j + lanes st <= N) by nia.
    assert (H2 : Z.of_nat (elem_size k) * (lanes st * Z.of_nat j)
                 <= Z.of_nat (elem_size k) * N)
      by (apply Z.mul_le_mono_nonneg_l; lia).
    lia.
  - apply output_chunks_length; rewrite length_firstn; lia.
  - intros j Hj. apply (output_chunk k st K j); try assumption;
      rewrite length_firstn; lia.
  - intros i s2 xa xb Hi HiK HA1 HB1 Ha1 Hb1 HC1. rewrite Hn.
    eexists. split; [apply (Hbody i s2 xa xb); try assumption; lia|].
    split; [apply mem_eq_refl|reflexivity].
  - lia.
  - rewrite Hrun. unfold bind.
    replace fuel with (K + S (fuel - S K))%nat by lia.
    rewrite Hloop. cbn [for_loop].
    replace (cond (loc (Z.of_nat (ppl * K)))) with true
      by (rewrite Hcond; symmetry; apply Z.ltb_lt; lia).
    unfold bind. rewrite Hfault; [reflexivity|].
    apply (read_bytes_none _ _ _ (A + N)); [|lia].
    rewrite Hmem.
    apply (write_bytes_none _ _ _ _ _ Hend (buf_C Hb)).
    rewrite length_firstn, Z2Nat.inj_mul, Nat2Z.id by lia.
    apply (Nat.le_trans _ (elem_size k * (ppl * K))); [apply Nat.le_min_l|].
    now apply Nat.mul_le_mono_l.
Qed.

Lemma vector_overrun_faults_witness :
  kernel_fn Widening WIN_AVX 41 4096 40 1 8192 12288
    (example_state (ramp 40) (repeat 250 40) 80) = Fault.
Proof.
  apply (vector_overrun_faults Widening WIN_AVX 41 4096 40 1 8192 12288
           (example_state (ramp 40) (repeat 250 40) 80) (ramp 40) (repeat 250 40)).
  - constructor; reflexivity.
  - discriminate.
  - reflexivity.
  - reflexivity.
Defined.

(** ** The saturating kernel in place *)

Lemma exact_chunks (st : strategy) (N : Z) :
  0 <= N -> N mod lanes st = 0 ->
  lanes st * Z.of_nat (Z.to_nat (N / lanes st)) = N
  /\ (Z.to_nat (lanes st) * Z.to_nat (N / lanes st))%nat = Z.to_nat N
  /\ Z.of_nat (Z.to_nat (N / lanes st)) <= N.
Proof.
  intros HN Hmod. pose proof (lanes_pos st) as Hw.
  assert (Hq : 0 <= N / lanes st) by (apply Z.div_pos; lia).
  pose proof (Z.div_mod N (lanes st) ltac:(lia)) as Hdm.
  assert (H1 : lanes st * Z.of_nat (Z.to_nat (N / lanes st)) = N)
    by (rewrite Z2Nat.id by lia; lia).
  split; [exact H1|]. split.
  - rewrite <- Z2Nat.inj_mul by lia. f_equal. lia.
  - rewrite Z2Nat.id by lia. apply Z.div_le_upper_bound; nia.
Qed.

(** X9: the saturating kernel can add in place, with [C = A]: when [B] does
    not start before [A] inside it ([B] is at or after [A], or ends before
    it), every strategy leaves [A[i] = min(A[i] + B[i], 255)] for the old
    contents of [A] and [B], and changes nothing outside [A[0..N)]. *)
Theorem saturating_in_place (st : strategy) (fuel : nat) (A : addr)
    (width height : Z) (B : addr) (s : state) (la lb : list Z) :
  uint (width * height) mod lanes st = 0 ->
  read_bytes (mem s) A (Z.to_nat (uint (width * height))) = Some la ->
  read_bytes (mem s) B (Z.to_nat (uint (width * height))) = Some lb ->
  forallb is_byte la = true ->
  forallb is_byte lb = true ->
  A <= B \/ B + uint (width * height) <= A ->
  uint (width * height) < Z.of_nat fuel ->
  exists s',
    kernel_fn KeepRange st fuel A width height B A s = Ok (tt, s')
    /\ (forall i, 0 <= i < uint (width * height) ->
          mem s' (A + i)
          = Some (Z.min (nth (Z.to_nat i) la 0 + nth (Z.to_nat i) lb 0) 255))
    /\ (forall a, a < A \/ A + uint (width * height) <= a -> mem s' a = mem s a).
Proof.
  intros Hmod HA HB Ha Hb Hpos Hfuel.
  pose proof (uint_range (width * height)) as HN.
  pose proof (lanes_pos st) as Hw.
  set (N := uint (width * height)) in *.
  destruct (exact_chunks st N (proj1 HN) Hmod) as (HK & HKn & HKle).
  set (K := Z.to_nat (N / lanes st)) in *.
  pose proof (read_bytes_length _ _ _ _ HA) as La.
  pose proof (read_bytes_length _ _ _ _ HB) as Lb.
  destruct (kernel_chunks KeepRange st fuel A width height B A s la lb K)
    as (s' & Hrun & Hmem & _).
  - lia.
  - fold N. lia.
  - now rewrite HKn.
  - now rewrite HKn.
  - exact Ha.
  - exact Hb.
  - cbn [elem_size]. rewrite Nat.mul_1_l, HKn. unfold allocated. now rewrite HA.
  - intros j Hj. left. cbn [elem_size]. lia.
  - intros j Hj. cbn [elem_size].
    destruct Hpos as [Hpos|Hpos]; [left; lia|right; nia].
  - lia.
  - assert (Hout : output KeepRange st la lb = pixels px_kr la lb) by now destruct st.
    rewrite Hout in Hmem.
    exists s'. split; [exact Hrun|]. split.
    + intros i Hi. apply byte_at.
      pose proof (pixel_at px_kr 1 (mem s) (mem s') A la lb (Z.to_nat i)
                    px_kr_length Hmem ltac:(lia) ltac:(lia)) as Hpx.
      rewrite Z2Nat.id in Hpx by lia. change (Z.of_nat 1) with 1 in Hpx.
      now rewrite Z.mul_1_l in Hpx.
    + intros a Ha'. rewrite Hmem. apply write_bytes_outside.
      rewrite (pixels_length _ _ px_kr_length), La, Lb, Nat.min_id, Nat.mul_1_l.
      lia.
Qed.

(** [A = A + A] in place, with the SSE strategy. *)
Lemma saturating_in_place_witness :
  exists s',
    kernel_fn KeepRange WIN_SSE 17 4096 16 1 4096 4096
      (example_state (ramp 16) [] 0) = Ok (tt, s')
    /\ (forall i, 0 <= i < uint (16 * 1) ->
          mem s' (4096 + i)
          = Some (Z.min (nth (Z.to_nat i) (ramp 16) 0 + nth (Z.to_nat i) (ramp 16) 0) 255))
    /\ (forall a, a < 4096 \/ 4096 + uint (16 * 1) <= a ->
          mem s' a = mem (example_state (ramp 16) [] 0) a).
Proof.
  apply (saturating_in_place WIN_SSE 17 4096 16 1 4096
           (example_state (ramp 16) [] 0) (ramp 16) (ramp 16)).
  - reflexivity.
  - reflexivity.
  - reflexivity.
  - reflexivity.
  - reflexivity.
  - left. lia.
  - reflexivity.
Defined.

(** ** The order of the two images *)

Lemma map2_comm (f : Z -> Z -> list Z) (l l' : list Z) :
  (forall a b, f a b = f b a) -> map2 f l l' = map2 f l' l.
Proof.
  intros Hf. revert l'; induction l as [|a l IH]; intros [|b l']; cbn [map2]; auto.
  now rewrite Hf, IH.
Qed.

Lemma output_comm (k : kernel) (st : strategy) (la lb : list Z) :
  length la = length lb -> output k st la lb = output k st lb la.
Proof.
  intros Hlen.
  assert (Hpx : forall a b, pixel k a b = pixel k b a).
  { intros a b. destruct k; cbn [pixel]; unfold px_kr, px_add; now rewrite Z.add_comm. }
  destruct k, st; cbn [output]; unfold pixels;
    rewrite <- ?Hlen; now rewrite (map2_comm _ _ _ Hpx).
Qed.

(** X10: the two input images can be exchanged: for every strategy of
    either kernel, [img_add(A, B)] and [img_add(B, A)] end in the same
    memory. *)
Theorem inputs_commute (k : kernel) (st : strategy) (fuel : nat) (A : addr)
    (width height : Z) (B C : addr) (s : state) (la lb : list Z) :
  buffers (Z.of_nat (elem_size k)) (mem s) A B C (uint (width * height)) la lb ->
  uint (width * height) mod lanes st = 0 ->
  uint (width * height) < Z.of_nat fuel ->
  exists s1 s2,
    kernel_fn k st fuel A width height B C s = Ok (tt, s1)
    /\ kernel_fn k st fuel B width height A C s = Ok (tt, s2)
    /\ mem_eq (mem s1) (mem s2).
Proof.
  intros Hb Hmod Hfuel.
  assert (Hb' : buffers (Z.of_nat (elem_size k)) (mem s) B A C
                  (uint (width * height)) lb la)
    by (constructor; apply Hb).
  destruct (buffers_lengths _ _ _ _ _ _ _ _ Hb) as [La Lb].
  destruct (strategy_run k st fuel A width height B C s la lb Hb Hmod Hfuel)
    as (s1 & evs1 & Hrun1 & Hmem1 & _).
  destruct (strategy_run k st fuel B width height A C s lb la Hb' Hmod Hfuel)
    as (s2 & evs2 & Hrun2 & Hmem2 & _).
  exists s1, s2. split; [exact Hrun1|]. split; [exact Hrun2|].
  intros a. rewrite Hmem1, Hmem2. now rewrite (output_comm k st la lb) by congruence.
Qed.

Lemma inputs_commute_witness :
  exists s1 s2,
    kernel_fn Widening WIN_AVX 33 4096 32 1 8192 12288
      (example_state (ramp 32) (repeat 250 32) 64) = Ok (tt, s1)
    /\ kernel_fn Widening WIN_AVX 33 8192 32 1 4096 12288
         (example_state (ramp 32) (repeat 250 32) 64) = Ok (tt, s2)
    /\ mem_eq (mem s1) (mem s2).
Proof.
  apply (inputs_commute Widening WIN_AVX 33 4096 32 1 8192 12288
           (example_state (ramp 32) (repeat 250 32) 64) (ramp 32) (repeat 250 32)).
  - constructor; reflexivity.
  - reflexivity.
  - reflexivity.
Defined.

(** ** The pixels of [img_add_avx], one by one *)

Lemma avx_index_block (i : nat) : (i < 32)%nat -> (avx_index i < 32)%nat.
Proof.
  intros H. do 32 (destruct i as [|i]; [cbv; lia|]). lia.
Qed.

Lemma avx_index_shift (j : nat) : avx_index (32 + j) = (32 + avx_index j)%nat.
Proof.
  unfold avx_index.
  replace (32 + j)%nat with (j + 1 * 32)%nat by lia.
  rewrite Nat.Div0.mod_add.
  pose proof (Nat.Div0.mod_le j 32) as Hle.
  destruct ((8 <=? j mod 32)%nat && (j mod 32 <? 16)%nat); [lia|].
  destruct ((16 <=? j mod 32)%nat && (j mod 32 <? 24)%nat) eqn:E; [|lia].
  apply andb_true_iff in E as [E _]. apply Nat.leb_le in E. lia.
Qed.

Lemma nth_avx_perm (x : list Z) (i : nat) :
  length x = 32%nat -> (i < 32)%nat ->
  nth i (avx_perm x) 0 = nth (avx_index i) x 0.
Proof.
  intros H Hi.
  do 32 (destruct x as [|? x]; [discriminate H|]).
  destruct x; [|discriminate H].
  do 32 (destruct i as [|i]; [reflexivity|]). lia.
Qed.

Lemma nth_avx_blocks (K : nat) :
  forall (l : list Z) (i : nat),
    length l = (32 * K)%nat -> (i < 32 * K)%nat ->
    nth i (avx_blocks K l) 0 = nth (avx_index i) l 0.
Proof.
  induction K as [|K IH]; intros l i Hl Hi; [lia|].
  cbn [avx_blocks].
  assert (Hp : length (avx_perm (firstn 32 l)) = 32%nat)
    by (apply avx_perm_length; rewrite length_firstn; lia).
  destruct (Nat.lt_ge_cases i 32) as [Hlt|Hge].
  - rewrite app_nth1 by lia.
    rewrite nth_avx_perm by (try rewrite length_firstn; lia).
    rewrite nth_firstn.
    pose proof (avx_index_block i Hlt) as Hb.
    now replace (avx_index i <? 32)%nat with true
      by (symmetry; apply Nat.ltb_lt; exact Hb).
  - rewrite app_nth2, Hp by lia.
    rewrite IH by (try rewrite length_skipn; lia).
    rewrite nth_skipn, <- avx_index_shift.
    now replace (32 + (i - 32))%nat with i by lia.
Qed.

(** X4: what [img_add_avx] computes, pixel by pixel: when the pixel count
    is a multiple of 32 the run ends and [C[i]] is the sum of the pixels of
    index [avx_index i] of [A] and [B]: inside every block of 32 pixels the
    sums of the pixels 8..15 and 16..23 are exchanged, the others are in
    place. *)
Theorem avx_widening_elements (fuel : nat) (A : addr) (width height : Z) (B C : addr)
    (s : state) (la lb : list Z) :
  buffers 2 (mem s) A B C (uint (width * height)) la lb ->
  uint (width * height) mod 32 = 0 ->
  uint (width * height) < Z.of_nat fuel ->
  exists s',
    img_add_avx fuel A width height B C s = Ok (tt, s')
    /\ forall i, 0 <= i < uint (width * height) ->
         read_ushorts (mem s') (C + sizeof_ushort * i) 1
         = Some [nth (avx_index (Z.to_nat i)) la 0 + nth (avx_index (Z.to_nat i)) lb 0].
Proof.
  intros Hb Hmod Hfuel.
  pose proof (uint_range (width * height)) as HN.
  destruct (img_add_avx_run fuel A width height B C s la lb Hb Hmod Hfuel)
    as (s' & Hrun & Hmem & _).
  exists s'. split; [exact Hrun|]. intros i Hi.
  set (N := uint (width * height)) in *.
  pose proof (chunks_exact N 32 (proj1 HN) ltac:(lia) Hmod) as HK.
  set (K := Z.to_nat (N / 32)) in *.
  change (Z.of_nat 32) with 32 in HK.
  destruct (buffers_lengths _ _ _ _ _ _ _ _ Hb) as [La Lb].
  assert (La' : length la = (32 * K)%nat) by (rewrite La, HK; apply Nat2Z.id).
  assert (Lb' : length lb = (32 * K)%nat) by (rewrite Lb, HK; apply Nat2Z.id).
  assert (Hi' : (Z.to_nat i < 32 * K)%nat) by lia.
  pose proof (pixel_at px_add 2 (mem s) (mem s') C _ _ (Z.to_nat i)
                px_add_length Hmem
                ltac:(rewrite avx_blocks_length; assumption)
                ltac:(rewrite avx_blocks_length; assumption)) as Hpx.
  rewrite Z2Nat.id in Hpx by lia. change (Z.of_nat 2) with 2 in Hpx.
  rewrite !nth_avx_blocks in Hpx by assumption.
  unfold read_ushorts, sizeof_ushort. change (2 * 1)%nat with 2%nat.
  rewrite Hpx. cbn [option_map].
  pose proof (nth_is_byte la (avx_index (Z.to_nat i)) (buf_la Hb)).
  pose proof (nth_is_byte lb (avx_index (Z.to_nat i)) (buf_lb Hb)).
  now rewrite lanes_px_add by lia.
Qed.

Lemma avx_widening_elements_witness :
  exists s',
    img_add_avx 33 4096 32 1 8192 12288
      (example_state (ramp 32) (repeat 250 32) 64) = Ok (tt, s')
    /\ forall i, 0 <= i < uint (32 * 1) ->
         read_ushorts (mem s') (12288 + sizeof_ushort * i) 1
         = Some [nth (avx_index (Z.to_nat i)) (ramp 32) 0
                 + nth (avx_index (Z.to_nat i)) (repeat 250 32) 0].
Proof.
  apply (avx_widening_elements 33 4096 32 1 8192 12288
           (example_state (ramp 32) (repeat 250 32) 64) (ramp 32) (repeat 250 32)).
  - constructor; reflexivity.
  - reflexivity.
  - reflexivity.
Defined.

Lemma kr_strategies_agree_witness :
  exists s1 s2 s3,
    img_add_kr_nsu 33 4096 32 1 8192 12288
      (example_state (ramp 32) (repeat 250 32) 32) = Ok (tt, s1)
    /\ img_add_kr_sse 33 4096 32 1 8192 12288
         (example_state (ramp 32) (repeat 250 32) 32) = Ok (tt, s2)
    /\ img_add_kr_avx 33 4096 32 1 8192 12288
         (example_state (ramp 32) (repeat 250 32) 32) = Ok (tt, s3)
    /\ mem_eq (mem s1) (mem s2)
    /\ mem_eq (mem s1) (mem s3).
Proof.
  apply (kr_strategies_agree 33 4096 32 1 8192 12288
           (example_state (ramp 32) (repeat 250 32) 32) (ramp 32) (repeat 250 32)).
  - constructor; reflexivity.
  - reflexivity.
  - reflexivity.
Defined.

(** ** The entry points on a call that meets the contract *)

(** X2: an entry point called with three non-null pointers, on buffers that
    meet the contract and a pixel count that is a multiple of the lanes of
    the strategy compiled in, returns; [A] and [B] are unchanged, [C] holds
    the output of the strategy, every element of [C] is stored to, every
    access lies inside [A[0..N)], [B[0..N)] or [C[0..N)], and the memory
    outside [C[0..N)] is unchanged. *)
Theorem entry_frame (k : kernel) (st : strategy) (fuel : nat) (A : addr)
    (width height : Z) (B C : addr) (s : state) (la lb : list Z) :
  A <> 0 -> B <> 0 -> C <> 0 ->
  buffers (Z.of_nat (elem_size k)) (mem s) A B C (uint (width * height)) la lb ->
  uint (width * height) mod lanes st = 0 ->
  uint (width * height) < Z.of_nat fuel ->
  exists s' evs,
    entry k st fuel A width height B C s = Ok (tt, s')
    /\ log s' = evs ++ log s
    /\ read_bytes (mem s') A (Z.to_nat (uint (width * height))) = Some la
    /\ read_bytes (mem s') B (Z.to_nat (uint (width * height))) = Some lb
    /\ read_bytes (mem s') C (elem_size k * Z.to_nat (uint (width * height)))
       = Some (output k st la lb)
    /\ (forall i, 0 <= i < uint (width * height) ->
          covered evs (C + Z.of_nat (elem_size k) * i) (Z.of_nat (elem_size k)))
    /\ Forall (in_bounds (Z.of_nat (elem_size k)) A B C (uint (width * height))) evs
    /\ (forall a, a < C \/ C + Z.of_nat (elem_size k) * uint (width * height) <= a ->
          mem s' a = mem s a).
Proof.
  intros HA HB HC Hb Hmod Hfuel.
  rewrite (entry_nonnull k st fuel A width height B C s HA HB HC).
  exact (kernel_frame k st fuel A width height B C s la lb Hb Hmod Hfuel).
Qed.

Lemma entry_frame_witness :
  exists s' evs,
    entry KeepRange WIN_AVX 33 4096 32 1 8192 12288
      (example_state (ramp 32) (repeat 250 32) 32) = Ok (tt, s')
    /\ log s' = evs ++ log (example_state (ramp 32) (repeat 250 32) 32)
    /\ read_bytes (mem s') 4096 (Z.to_nat (uint (32 * 1))) = Some (ramp 32)
    /\ read_bytes (mem s') 8192 (Z.to_nat (uint (32 * 1))) = Some (repeat 250 32)
    /\ read_bytes (mem s') 12288 (elem_size KeepRange * Z.to_nat (uint (32 * 1)))
       = Some (output KeepRange WIN_AVX (ramp 32) (repeat 250 32))
    /\ (forall i, 0 <= i < uint (32 * 1) ->
          covered evs (12288 + Z.of_nat (elem_size KeepRange) * i)
            (Z.of_nat (elem_size KeepRange)))
    /\ Forall (in_bounds (Z.of_nat (elem_size KeepRange)) 4096 8192 12288
                 (uint (32 * 1))) evs
    /\ (forall a, a < 12288
                  \/ 12288 + Z.of_nat (elem_size KeepRange) * uint (32 * 1) <= a ->
          mem s' a = mem (example_state (ramp 32) (repeat 250 32) 32) a).
Proof.
  apply (entry_frame KeepRange WIN_AVX 33 4096 32 1 8192 12288
           (example_state (ramp 32) (repeat 250 32) 32) (ramp 32) (repeat 250 32)).
  - discriminate.
  - discriminate.
  - discriminate.
  - constructor; reflexivity.
  - reflexivity.
  - reflexivity.
Defined.

(** ** Black and white images *)

Lemma pixels_zero_kr (la : list Z) :
  forallb is_byte la = true ->
  pixels px_kr la (repeat 0 (length la)) = la.
Proof.
  unfold pixels. induction la as [|a la IH]; intros H; [reflexivity|].
  cbn [forallb] in H. apply andb_true_iff in H as [Ha H].
  apply is_byte_spec in Ha.
  cbn [length repeat map2 concat]. rewrite (IH H).
  unfold px_kr. cbn [app]. f_equal. lia.
Qed.

Lemma map2_add_zero (la : list Z) : map2 Z.add la (repeat 0 (length la)) = la.
Proof.
  induction la as [|a la IH]; [reflexivity|].
  cbn [length repeat map2]. now rewrite IH, Z.add_0_r.
Qed.

Lemma map2_repeat (f : Z -> Z -> Z) (a b : Z) (n : nat) :
  map2 f (repeat a n) (repeat b n) = repeat (f a b) n.
Proof.
  induction n as [|n IH]; [reflexivity|]. cbn [repeat map2]. now rewrite IH.
Qed.

Lemma pixels_kr_map2 (la lb : list Z) :
  pixels px_kr la lb = map2 (fun a b => Z.min (a + b) 255) la lb.
Proof.
  unfold pixels. revert lb; induction la as [|a la IH]; intros [|b lb]; auto.
  cbn [map2 concat]. now rewrite IH.
Qed.

(** The whole output buffer of a strategy that leaves the pixels in order:
    the saturating sums as bytes, the sums as [unsigned short]s. *)
Lemma output_buffer (k : kernel) (st : strategy) (fuel : nat) (A : addr)
    (width height : Z) (B C : addr) (s : state) (la lb : list Z) :
  buffers (Z.of_nat (elem_size k)) (mem s) A B C (uint (width * height)) la lb ->
  uint (width * height) mod lanes st = 0 ->
  (k = Widening -> st <> WIN_AVX) ->
  uint (width * height) < Z.of_nat fuel ->
  exists s',
    kernel_fn k st fuel A width height B C s = Ok (tt, s')
    /\ (k = KeepRange ->
        read_bytes (mem s') C (Z.to_nat (uint (width * height)))
        = Some (map2 (fun a b => Z.min (a + b) 255) la lb))
    /\ (k = Widening ->
        read_ushorts (mem s') C (Z.to_nat (uint (width * height)))
        = Some (map2 Z.add la lb)).
Proof.
  intros Hb Hmod Hst Hfuel.
  destruct (kernel_frame k st fuel A width height B C s la lb Hb Hmod Hfuel)
    as (s' & evs & Hrun & _ & _ & _ & HC & _).
  assert (Hout : output k st la lb = pixels (pixel k) la lb).
  { destruct k, st; try reflexivity. now destruct Hst. }
  rewrite Hout in HC.
  exists s'. split; [exact Hrun|]. split; intros ->; cbn [elem_size pixel] in HC.
  - rewrite Nat.mul_1_l in HC. now rewrite HC, pixels_kr_map2.
  - unfold read_ushorts. rewrite HC. cbn [option_map].
    now rewrite lanes_pixels_add by apply Hb.
Qed.

(** X11: a black image is neutral: when every pixel of [B] is 0, every
    strategy that leaves the pixels in order leaves in [C] the pixels of
    [A], as bytes for the saturating kernel and as [unsigned short]s for the
    widening one. *)
Theorem black_image_is_neutral (k : kernel) (st : strategy) (fuel : nat) (A : addr)
    (width height : Z) (B C : addr) (s : state) (la : list Z) :
  buffers (Z.of_nat (elem_size k)) (mem s) A B C (uint (width * height)) la
    (repeat 0 (Z.to_nat (uint (width * height)))) ->
  uint (width * height) mod lanes st = 0 ->
  (k = Widening -> st <> WIN_AVX) ->
  uint (width * height) < Z.of_nat fuel ->
  exists s',
    kernel_fn k st fuel A width height B C s = Ok (tt, s')
    /\ (k = KeepRange ->
        read_bytes (mem s') C (Z.to_nat (uint (width * height))) = Some la)
    /\ (k = Widening ->
        read_ushorts (mem s') C (Z.to_nat (uint (width * height))) = Some la).
Proof.
  intros Hb Hmod Hst Hfuel.
  destruct (output_buffer k st fuel A width height B C s la _ Hb Hmod Hst Hfuel)
    as (s' & Hrun & Hkr & Hadd).
  destruct (buffers_lengths _ _ _ _ _ _ _ _ Hb) as [La _].
  exists s'. split; [exact Hrun|]. split; intros Hk.
  - rewrite (Hkr Hk), <- pixels_kr_map2, <- La. now rewrite pixels_zero_kr by apply Hb.
  - rewrite (Hadd Hk), <- La. now rewrite map2_add_zero.
Qed.

Lemma black_image_is_neutral_witness :
  exists s',
    kernel_fn Widening WIN_SSE 17 4096 16 1 8192 12288
      (example_state (ramp 16) (repeat 0 16) 32) = Ok (tt, s')
    /\ (Widening = KeepRange ->
        read_bytes (mem s') 12288 (Z.to_nat (uint (16 * 1))) = Some (ramp 16))
    /\ (Widening = Widening ->
        read_ushorts (mem s') 12288 (Z.to_nat (uint (16 * 1))) = Some (ramp 16)).
Proof.
  apply (black_image_is_neutral Widening WIN_SSE 17 4096 16 1 8192 12288
           (example_state (ramp 16) (repeat 0 16) 32) (ramp 16)).
  - constructor; reflexivity.
  - reflexivity.
  - discriminate.
  - reflexivity.
Defined.

(** X12: two white images: when every pixel of [A] and of [B] is 255, the
    saturating kernel leaves 255 everywhere and the widening kernel 510
    everywhere. *)
Theorem white_images (k : kernel) (st : strategy) (fuel : nat) (A : addr)
    (width height : Z) (B C : addr) (s : state) :
  buffers (Z.of_nat (elem_size k)) (mem s) A B C (uint (width * height))
    (repeat 255 (Z.to_nat (uint (width * height))))
    (repeat 255 (Z.to_nat (uint (width * height)))) ->
  uint (width * height) mod lanes st = 0 ->
  (k = Widening -> st <> WIN_AVX) ->
  uint (width * height) < Z.of_nat fuel ->
  exists s',
    kernel_fn k st fuel A width height B C s = Ok (tt, s')
    /\ (k = KeepRange ->
        read_bytes (mem s') C (Z.to_nat (uint (width * height)))
        = Some (repeat 255 (Z.to_nat (uint (width * height)))))
    /\ (k = Widening ->
        read_ushorts (mem s') C (Z.to_nat (uint (width * height)))
        = Some (repeat 510 (Z.to_nat (uint (width * height))))).
Proof.
  intros Hb Hmod Hst Hfuel.
  destruct (output_buffer k st fuel A width height B C s _ _ Hb Hmod Hst Hfuel)
    as (s' & Hrun & Hkr & Hadd).
  exists s'. split; [exact Hrun|]. split; intros Hk.
  - now rewrite (Hkr Hk), map2_repeat.
  - now rewrite (Hadd Hk), map2_repeat.
Qed.

Lemma white_images_witness :
  exists s',
    kernel_fn KeepRange NSU 5 4096 2 2 8192 12288
      (example_state (repeat 255 4) (repeat 255 4) 4) = Ok (tt, s')
    /\ (KeepRange = KeepRange ->
        read_bytes (mem s') 12288 (Z.to_nat (uint (2 * 2)))
        = Some (repeat 255 (Z.to_nat (uint (2 * 2)))))
    /\ (KeepRange = Widening ->
        read_ushorts (mem s') 12288 (Z.to_nat (uint (2 * 2)))
        = Some (repeat 510 (Z.to_nat (uint (2 * 2))))).
Proof.
  apply (white_images KeepRange NSU 5 4096 2 2 8192 12288
           (example_state (repeat 255 4) (repeat 255 4) 4)).
  - constructor; reflexivity.
  - reflexivity.
  - discriminate.
  - reflexivity.
Defined.

(** ** The number of iterations *)

Lemma length_chunk_log (ev : Z -> list event) (ppl : Z) (K c : nat) :
  (forall i, length (ev i) = c) -> length (chunk_log ev ppl K) = (c * K)%nat.
Proof.
  intros H. induction K as [|K IH]; cbn [chunk_log]; [now rewrite Nat.mul_0_r|].
  rewrite length_app, H, IH. lia.
Qed.

(** X13: a strategy runs one iteration for each group of its lanes: on a
    call that meets the contract with a pixel count N that is a multiple of
    the lanes, the run makes [2 * N / lanes] loads and [N / lanes] stores,
    twice as many stores for the widening vector kernels. *)
Theorem iteration_count (k : kernel) (st : strategy) (fuel : nat) (A : addr)
    (width height : Z) (B C : addr) (s : state) (la lb : list Z) :
  buffers (Z.of_nat (elem_size k)) (mem s) A B C (uint (width * height)) la lb ->
  uint (width * height) mod lanes st = 0 ->
  uint (width * height) < Z.of_nat fuel ->
  exists s' evs,
    kernel_fn k st fuel A width height B C s = Ok (tt, s')
    /\ log s' = evs ++ log s
    /\ Z.of_nat (stores evs)
       = stores_per_iteration k st * (uint (width * height) / lanes st)
    /\ Z.of_nat (length evs) - Z.of_nat (stores evs)
       = 2 * (uint (width * height) / lanes st).
Proof.
  intros Hb Hmod Hfuel.
  pose proof (uint_range (width * height)) as HN.
  pose proof (lanes_pos st) as Hw.
  set (N := uint (width * height)) in *.
  destruct (exact_chunks st N (proj1 HN) Hmod) as (HK & HKn & HKle).
  assert (Hq : 0 <= N / lanes st) by (apply Z.div_pos; lia).
  set (K := Z.to_nat (N / lanes st)) in *.
  pose proof (proj1 (disjoint_spec _ _ _ _) (buf_CA Hb)) as HCA.
  pose proof (proj1 (disjoint_spec _ _ _ _) (buf_CB Hb)) as HCB.
  destruct (kernel_chunks k st fuel A width height B C s la lb K)
    as (s' & Hrun & _ & Hlog).
  - lia.
  - fold N. lia.
  - rewrite HKn. apply Hb.
  - rewrite HKn. apply Hb.
  - apply Hb.
  - apply Hb.
  - rewrite HKn, <- (Nat2Z.id (elem_size k)), <- Z2Nat.inj_mul by lia. apply Hb.
  - intros j Hj.
    assert (H1 : lanes st * j + lanes st <= N) by nia.
    assert (H2 : Z.of_nat (elem_size k) * (lanes st * j) <= Z.of_nat (elem_size k) * N)
      by (apply Z.mul_le_mono_nonneg_l; lia).
    lia.
  - intros j Hj.
    assert (H1 : lanes st * j + lanes st <= N) by nia.
    assert (H2 : Z.of_nat (elem_size k) * (lanes st * j) <= Z.of_nat (elem_size k) * N)
      by (apply Z.mul_le_mono_nonneg_l; lia).
    lia.
  - lia.
  - exists s', (chunk_log (ev_of k st A B C) (lanes st) K).
    split; [exact Hrun|]. split; [exact Hlog|].
    assert (HKq : Z.of_nat K = N / lanes st) by (unfold K; apply Z2Nat.id; lia).
    rewrite <- HKq.
    destruct k, st; cbn [ev_of stores_per_iteration].
    1-3, 6: rewrite (stores_chunk_log _ _ _ 1%nat) by reflexivity;
      rewrite (length_chunk_log _ _ _ 3%nat) by reflexivity; lia.
    all: rewrite (stores_chunk_log _ _ _ 2%nat) by reflexivity;
      rewrite (length_chunk_log _ _ _ 4%nat) by reflexivity; lia.
Qed.

Lemma iteration_count_witness :
  exists s' evs,
    kernel_fn Widening WIN_SSE 33 4096 32 1 8192 12288
      (example_state (ramp 32) (repeat 250 32) 64) = Ok (tt, s')
    /\ log s' = evs ++ log (example_state (ramp 32) (repeat 250 32) 64)
    /\ Z.of_nat (stores evs)
       = stores_per_iteration Widening WIN_SSE * (uint (32 * 1) / lanes WIN_SSE)
    /\ Z.of_nat (length evs) - Z.of_nat (stores evs)
       = 2 * (uint (32 * 1) / lanes WIN_SSE).
Proof.
  apply (iteration_count Widening WIN_SSE 33 4096 32 1 8192 12288
           (example_state (ramp 32) (repeat 250 32) 64) (ramp 32) (repeat 250 32)).
  - constructor; reflexivity.
  - reflexivity.
  - reflexivity.
Defined.
